(** * Naboo: the animation step sequencer and its CSS transition driver

    A shallow embedding of the Naboo module of mip2
    ([src/unnamed/part_001]): the [Naboo] sequence object ([start], [next],
    [cancel], [on], [off], [trigger]), the plugin registry ([register]) with
    the built-in plugins [p], [done] and [animate], the helpers of
    [Naboo.tool], and [Naboo.transition].

    JavaScript objects live in a store ([World]); every function object has an
    address, so that [===] on functions is equality of addresses.  Calls that
    can re-enter the library (listeners, steps, callbacks) are run by the
    interpreter [run], which is structurally recursive on a fuel argument. *)

From stdpp Require Import gmap strings list fin_maps pretty.
From Stdlib Require Import Ascii QArith Floats.SpecFloat.

Open Scope Z_scope.

(** ** JavaScript values *)

Definition ref := nat.       (* address of a Naboo object *)
Definition fnref := nat.     (* address of a function object *)
Definition cellref := nat.   (* address of a captured [let] variable *)
Definition noderef := nat.   (* address of a DOM node *)
Definition optref := nat.    (* address of an options object *)
Definition invref := nat.    (* address of the closure of one transition call *)

(** The values an option or a CSS property can hold.  Numbers are the
    integers (what the option surface takes in milliseconds) and NaN.
    Strings are strings of the characters with a code below 256. *)
Inductive jsval :=
| VUndefined
| VNull
| VBool (b : bool)
| VNum (z : Z)
| VNaN
| VStr (s : string)
| VFun (f : fnref).

Global Instance jsval_eq_dec : EqDecision jsval.
Proof. solve_decision. Defined.

(** [!v]: the falsy values are undefined, null, false, 0, NaN and ''. *)
Definition falsy (v : jsval) : bool :=
  match v with
  | VUndefined | VNull | VNaN => true
  | VBool b => negb b
  | VNum z => z =? 0
  | VStr s => bool_decide (s = "")
  | VFun _ => false
  end.

(** [a === b].  No conversion: values of different types are different, and
    NaN differs from itself. *)
Definition strict_eq (a b : jsval) : bool :=
  match a, b with
  | VNaN, _ | _, VNaN => false
  | _, _ => bool_decide (a = b)
  end.

(** *** Strings to numbers *)

(** White space: tab, the line ends, space and the no-break space. *)
Definition is_space (a : ascii) : bool :=
  let n := nat_of_ascii a in
  ((9 <=? n)%nat && (n <=? 13)%nat) || (n =? 32)%nat || (n =? 160)%nat.

Definition digit_of (a : ascii) : option Z :=
  let n := nat_of_ascii a in
  if ((48 <=? n)%nat && (n <=? 57)%nat) then Some (Z.of_nat (n - 48)) else None.

Fixpoint skip_space (s : string) : string :=
  match s with
  | String a r => if is_space a then skip_space r else s
  | EmptyString => s
  end.

(** The longest prefix of decimal digits, as a number; [acc] is [None] until
    a digit has been read. *)
Fixpoint digits_prefix (s : string) (acc : option Z) : option Z :=
  match s with
  | String a r =>
      match digit_of a with
      | Some d => digits_prefix r (Some (10 * default 0 acc + d))
      | None => acc
      end
  | EmptyString => acc
  end.

(** [parseInt(s, 10)] on a string: leading white space, an optional sign,
    then the longest run of digits; [None] is NaN. *)
Definition parseInt_string (s : string) : option Z :=
  match skip_space s with
  | String "-"%char r => Z.opp <$> digits_prefix r None
  | String "+"%char r => digits_prefix r None
  | t => digits_prefix t None
  end.

(** The integers on which the model is exact: those of at most 15 decimal
    digits.  Such an integer is a double, it prints as its decimal digits, and
    its quotient by 1000 prints as a decimal with at most three places.
    Beyond 2^53 the program rounds where the model does not, and from 10^21 on
    it prints with an exponent; the statements that depend on the digits of a
    number are made for [small] numbers. *)
Definition small (z : Z) : Prop := Z.abs z < 10 ^ 15.

(** [parseInt(v, 10)]: the argument is first converted to a string.  A
    [small] integer prints as its decimal digits, so it parses to itself; the
    other non-string values print as text without a digit. *)
Definition parseInt (v : jsval) : option Z :=
  match v with
  | VNum z => Some z
  | VStr s => parseInt_string s
  | _ => None
  end.

(** A JavaScript number: an integer, or NaN ([None]). *)
Definition number := option Z.

Fixpoint all_space (s : string) : bool :=
  match s with
  | String a r => is_space a && all_space r
  | EmptyString => true
  end.

(** A run of digits followed by white space only. *)
Fixpoint digits_only (s : string) (acc : option Z) : option Z :=
  match s with
  | String a r =>
      match digit_of a with
      | Some d => digits_only r (Some (10 * default 0 acc + d))
      | None => if all_space s then acc else None
      end
  | EmptyString => acc
  end.

(** [+v] (ToNumber).  On strings the model covers white space and signed
    decimal integers, which is what the driver itself writes into the
    [data-naboo] attribute, and takes any other text for NaN; the statements
    on the attribute are made for the text of a [small] integer. *)
Definition to_number (v : jsval) : number :=
  match v with
  | VUndefined | VNaN | VFun _ => None
  | VNull => Some 0
  | VBool b => Some (if b then 1 else 0)
  | VNum z => Some z
  | VStr s =>
      match skip_space s with
      | EmptyString => Some 0
      | String "-"%char r => Z.opp <$> digits_only r None
      | String "+"%char r => digits_only r None
      | t => digits_only t None
      end
  end.

Definition of_number (n : number) : jsval :=
  match n with Some z => VNum z | None => VNaN end.

(** Number to string, for integers and NaN. *)
Definition number_to_string (n : number) : string :=
  match n with Some z => pretty z | None => "NaN" end.

(** A number of seconds with at most three decimals (an integer number of
    milliseconds divided by 1000) prints with its trailing zeros removed:
    for a [small] number of milliseconds the double [ms / 1000] has these
    digits as its shortest text. *)
Definition pad3 (t : Z) : string :=
  let d := pretty t in
  if t <? 10 then "00" +:+ d else if t <? 100 then "0" +:+ d else d.

Definition fraction_to_string (t : Z) : string :=
  if t =? 0 then ""
  else if t mod 100 =? 0 then "." +:+ pretty (t / 100)
  else if t mod 10 =? 0 then "." +:+ String.substring 0 2 (pad3 t)
  else "." +:+ pad3 t.

Definition seconds_to_string (q : Q) : string :=
  let t := (Qnum q * 1000) / Z.pos (Qden q) in
  let a := Z.abs t in
  (if t <? 0 then "-" else "") +:+ pretty (a / 1000) +:+ fraction_to_string (a mod 1000).

(** [String(v)] for the values written into a style declaration; the digits
    of a number are those of a [small] one.  The text of a function is its
    source; the model has one text for all of them, and no statement depends
    on it. *)
Definition to_string (v : jsval) : string :=
  match v with
  | VUndefined => "undefined"
  | VNull => "null"
  | VBool b => if b then "true" else "false"
  | VNum z => pretty z
  | VNaN => "NaN"
  | VStr s => s
  | VFun _ => "function () {}"
  end.

(** [a + b]: concatenation as soon as one side is a string. *)
Definition js_add (a b : jsval) : jsval :=
  match a, b with
  | VStr x, _ => VStr (x +:+ to_string b)
  | _, VStr y => VStr (to_string a +:+ y)
  | _, _ =>
      match to_number a, to_number b with
      | Some x, Some y => VNum (x + y)
      | _, _ => VNaN
      end
  end.

(** *** Doubles

    The seconds of a transition, the timeout of its timer and the elapsed
    time of a transition-end event are IEEE 754 doubles; their operations are those of [SpecFloat]
    at 53 bits, rounding to the nearest double, ties to even. *)
Definition prec : Z := 53.
Definition emax : Z := 1024.
Definition double := spec_float.

(** An integer as a double. *)
Definition Z_to_double (z : Z) : double := binary_normalize prec emax z 0 false.

(** [a + b], [a * b], [a / b] and [a === b] on doubles *)
Definition double_add (a b : double) : double := SFadd prec emax a b.
Definition double_mul (a b : double) : double := SFmul prec emax a b.
Definition double_div (a b : double) : double := SFdiv prec emax a b.
Definition double_eq (a b : double) : bool := SFeqb a b.

(** The double that the decimal literal [m * 10^-k] denotes: the one nearest
    to the quotient of the two integers. *)
Definition decimal (m : Z) (k : nat) : double :=
  let power := S754_finite false (Z.to_pos (10 ^ Z.of_nat k)) 0 in
  match m with
  | Z0 => S754_zero false
  | Zpos p => double_div (S754_finite false p 0) power
  | Zneg p => double_div (S754_finite true p 0) power
  end.

(** The seconds that the program holds for [ms / 1000], kept in the model as
    the quotient [ms # 1000]: the double [ms / 1000]. *)
Definition seconds (q : Q) : double :=
  double_div (Z_to_double (Qnum q)) (Z_to_double (Z.pos (Qden q))).

(** ** The data model *)

(** The [property] argument of [Naboo.transition]: an object whose
    [Object.prototype.toString] tag is [[object Object]], with its own
    enumerable keys in insertion order, or any other value. *)
Inductive proparg :=
| PropObject (kv : list (string * jsval))
| PropOther (v : jsval).

(** The options object [{duration, ease, delay, cb, mode}]; an absent key
    reads as [undefined]. *)
Record options := {
  opt_duration : jsval;
  opt_ease : jsval;
  opt_delay : jsval;
  opt_cb : jsval;
  opt_mode : jsval }.

Definition no_options : options :=
  {| opt_duration := VUndefined; opt_ease := VUndefined; opt_delay := VUndefined;
     opt_cb := VUndefined; opt_mode := VUndefined |}.

(** A step is the closure [() => fn.apply(this, args)] pushed by a plugin
    method: the plugin and the arguments of the call that appended it. *)
Inductive step :=
| StepP (args : list ref)
| StepDone (fn : fnref)
| StepAnimate (dom : option noderef) (prop : proparg) (opt : option optref).

(** [function Naboo ()] *)
Record Naboo := {
  steps : list step;
  _index : Z;
  _handlers : gmap string (list fnref);
  canceled : bool }.

Definition Naboo_new : Naboo :=
  {| steps := []; _index := -1; _handlers := ∅; canceled := false |}.

(** What code outside the library can do: call the public methods of a
    sequence, call [Naboo.transition], and, for the platform, run a due timer
    or deliver a transition-end event ([cur] is the node whose listeners are
    called, [tgt] the node the event was fired at). *)
Inductive action :=
| Start (s : ref) (fn : option fnref)
| Next (s : ref)
| Cancel (s : ref)
| Transition (dom : option noderef) (prop : proparg) (opt : option optref)
| FireTimer (inv : invref)
| Dispatch (cur tgt : noderef) (elapsed : double).

(** The function objects of the store.  [UserFn] is a function supplied by
    the caller, given by the calls it makes when invoked; the other two are
    the closures the library creates. *)
Inductive closure :=
| UserFn (body : list action)
| Countdown (n : cellref) (outer : ref)     (* () => (n-- === 0 && next()) *)
| AnimateCb (cb : jsval) (outer : ref).     (* function () { cb && cb(); next() } *)

(** A DOM node: its attributes, its inline style, by dashed property name,
    and the listeners registered on it for the transition-end event. *)
Record Node := {
  attrs : gmap string string;
  style : gmap string string;
  listeners : list invref }.

(** The variables captured by [wrappedCallback] in one call of
    [Naboo.transition]; [duration] and [delay] are in seconds, a number of
    milliseconds divided by 1000 (the doubles are [seconds]). *)
Record Invocation := {
  inv_dom : noderef;
  inv_duration : Q;
  inv_delay : Q;
  inv_cb : option fnref;     (* [None] is the default [() => {}] *)
  fired : bool }.

(** The transition-end event object handed to a listener. *)
Record TransitionEvent := {
  target : noderef;
  currentTarget : noderef;
  elapsedTime : double }.

(** Observations recorded while running; not part of the program state. *)
Inductive event :=
| EvNext (s : ref)                    (* [next] went past its [canceled] test *)
| EvStep (s : ref) (k : nat)          (* [steps[k]] was called *)
| EvTrigger (s : ref) (name : string) (* [trigger(name)] was called *)
| EvCall (f : fnref)                  (* a caller-supplied function was entered *)
| EvComplete (inv : invref)           (* the body of [wrappedCallback] ran *)
| EvReset (d : noderef).              (* [setCss(dom, cssReset)] ran *)

Global Instance event_eq_dec : EqDecision event.
Proof. solve_decision. Defined.

Record World := {
  seqs : list Naboo;
  cells : list Z;
  funs : list closure;
  opts : list options;
  nodes : list Node;
  invs : list Invocation;
  timers : list (double * invref);  (* pending [setTimeout]s: delay in ms, closure *)
  trace : list event }.

Definition empty_world : World :=
  {| seqs := []; cells := []; funs := []; opts := []; nodes := []; invs := [];
     timers := []; trace := [] |}.

Definition set_seqs (v : list Naboo) (w : World) : World :=
  {| seqs := v; cells := cells w; funs := funs w; opts := opts w; nodes := nodes w;
     invs := invs w; timers := timers w; trace := trace w |}.
Definition set_cells (v : list Z) (w : World) : World :=
  {| seqs := seqs w; cells := v; funs := funs w; opts := opts w; nodes := nodes w;
     invs := invs w; timers := timers w; trace := trace w |}.
Definition set_funs (v : list closure) (w : World) : World :=
  {| seqs := seqs w; cells := cells w; funs := v; opts := opts w; nodes := nodes w;
     invs := invs w; timers := timers w; trace := trace w |}.
Definition set_opts (v : list options) (w : World) : World :=
  {| seqs := seqs w; cells := cells w; funs := funs w; opts := v; nodes := nodes w;
     invs := invs w; timers := timers w; trace := trace w |}.
Definition set_nodes (v : list Node) (w : World) : World :=
  {| seqs := seqs w; cells := cells w; funs := funs w; opts := opts w; nodes := v;
     invs := invs w; timers := timers w; trace := trace w |}.
Definition set_invs (v : list Invocation) (w : World) : World :=
  {| seqs := seqs w; cells := cells w; funs := funs w; opts := opts w; nodes := nodes w;
     invs := v; timers := timers w; trace := trace w |}.
Definition set_timers (v : list (double * invref)) (w : World) : World :=
  {| seqs := seqs w; cells := cells w; funs := funs w; opts := opts w; nodes := nodes w;
     invs := invs w; timers := v; trace := trace w |}.
Definition log (e : event) (w : World) : World :=
  {| seqs := seqs w; cells := cells w; funs := funs w; opts := opts w; nodes := nodes w;
     invs := invs w; timers := timers w; trace := trace w ++ [e] |}.

Definition set_seq (s : ref) (o : Naboo) (w : World) : World :=
  set_seqs (<[s := o]> (seqs w)) w.
Definition set_node (d : noderef) (nd : Node) (w : World) : World :=
  set_nodes (<[d := nd]> (nodes w)) w.

(** The result of a call: it returns, it throws (the store keeps what was
    written before the exception), or the fuel ran out. *)
Inductive outcome :=
| Ok (w : World)
| Throw (w : World)
| OutOfFuel.

Definition bind (r : outcome) (k : World -> outcome) : outcome :=
  match r with Ok w => k w | _ => r end.

(** [l.forEach(g)]: an exception leaves the loop. *)
Fixpoint forEach {A} (g : A -> World -> outcome) (l : list A) (w : World) : outcome :=
  match l with
  | [] => Ok w
  | x :: r => bind (g x w) (forEach g r)
  end.

(** ** The sequence object *)

Definition set_index (i : Z) (o : Naboo) : Naboo :=
  {| steps := steps o; _index := i; _handlers := _handlers o; canceled := canceled o |}.
Definition set_handlers (h : gmap string (list fnref)) (o : Naboo) : Naboo :=
  {| steps := steps o; _index := _index o; _handlers := h; canceled := canceled o |}.

(** [Naboo.prototype.cancel] *)
Definition cancel (o : Naboo) : Naboo :=
  {| steps := steps o; _index := _index o; _handlers := _handlers o; canceled := true |}.

(** *** The listener map

    [_handlers] is a plain object ([{}]): a name that is not one of its own
    keys is looked up in its prototype.  The prototype is [Object.prototype],
    until [off('__proto__')] assigns an empty array to
    [_handlers['__proto__']]: the assignment makes this array the prototype,
    [_handlers['__proto__']] reads it from then on, and [on], [off] and
    [trigger] use it as the list of that name.  The map [_handlers] of the
    model holds the keys of the object and, under ["__proto__"], that array
    once there is one. *)

(** The names of the properties of [Object.prototype]. *)
Definition object_prototype : list string :=
  ["constructor"; "__defineGetter__"; "__defineSetter__"; "hasOwnProperty";
   "__lookupGetter__"; "__lookupSetter__"; "isPrototypeOf"; "propertyIsEnumerable";
   "toString"; "valueOf"; "__proto__"; "toLocaleString"].

(** The names of the properties of [Array.prototype] (ECMAScript 2023), but
    for [length]. *)
Definition array_prototype : list string :=
  ["at"; "concat"; "constructor"; "copyWithin"; "entries"; "every"; "fill"; "filter";
   "find"; "findIndex"; "findLast"; "findLastIndex"; "flat"; "flatMap"; "forEach";
   "includes"; "indexOf"; "join"; "keys"; "lastIndexOf"; "map"; "pop"; "push"; "reduce";
   "reduceRight"; "reverse"; "shift"; "slice"; "some"; "sort"; "splice"; "toLocaleString";
   "toReversed"; "toSorted"; "toSpliced"; "toString"; "unshift"; "values"; "with"].

(** The name is an index of an array of length [len]: the decimal digits of a
    number below [len]. *)
Definition is_index (name : string) (len : nat) : bool :=
  match digits_prefix name None with
  | Some z => bool_decide (pretty z = name) && (z <? Z.of_nat len)
  | None => false
  end.

(** What [this._handlers[name]] evaluates to. *)
Inductive property :=
| Handlers (l : list fnref)   (* an array of listeners *)
| Inherited                   (* a function, an object or a number other than 0 *)
| Absent.                     (* undefined, or 0 *)

Definition get_handlers (o : Naboo) (name : string) : property :=
  match _handlers o !! name with
  | Some l => Handlers l
  | None =>
      match _handlers o !! "__proto__" with
      | Some l =>
          if is_index name (length l) then Inherited
          else if bool_decide (name = "length")
               then (if bool_decide (l = []) then Absent else Inherited)
          else if bool_decide (name ∈ array_prototype ++ object_prototype) then Inherited
          else Absent
      | None => if bool_decide (name ∈ object_prototype) then Inherited else Absent
      end
  end.

(** A name that no prototype has and that is no index: whatever the map
    holds, it resolves to its own list (["start"] and ["end"] are such). *)
Definition ordinary (name : string) : bool :=
  negb (bool_decide (name ∈ "length" :: array_prototype ++ object_prototype))
  && negb (bool_decide (is_Some (digits_prefix name None))).

(** [on(name, fn)] throws a TypeError: [this._handlers[name]] is truthy and
    has no method [push]. *)
Definition on_throws (name : string) (o : Naboo) : bool :=
  match get_handlers o name with Inherited => true | _ => false end.

(** [Naboo.prototype.on], when it returns: the list is created when
    [this._handlers[name]] is falsy, then [fn] is pushed. *)
Definition on (name : string) (fn : fnref) (o : Naboo) : Naboo :=
  set_handlers (<[name := default [] (_handlers o !! name) ++ [fn]]> (_handlers o)) o.

(** The index at which the loop of [off] stops: the first [i] with
    [handlers[i] === fn], or [handlers.length]. *)
Fixpoint find_handler (fn : fnref) (handlers : list fnref) : nat :=
  match handlers with
  | [] => 0%nat
  | h :: r => if bool_decide (h = fn) then 0%nat else S (find_handler fn r)
  end.

(** [Naboo.prototype.off].  An argument that was not passed is [None]; the
    test [!name] also holds for the empty string.  [splice(i, 1)] removes the
    element at [i] and nothing when [i] is the length. *)
Definition off (name : option string) (fn : option fnref) (o : Naboo) : Naboo :=
  match name with
  | None | Some EmptyString => set_handlers ∅ o
  | Some n =>
      match fn with
      | None => set_handlers (<[n := []]> (_handlers o)) o
      | Some f =>
          match get_handlers o n with
          | Handlers handlers =>
              set_handlers (<[n := delete (find_handler f handlers) handlers]> (_handlers o)) o
          | _ => o
          end
      end
  end.

(** The instance method installed by [Naboo.register]: the step is pushed,
    not run. *)
Definition register_method (st : step) (o : Naboo) : Naboo :=
  {| steps := steps o ++ [st]; _index := _index o; _handlers := _handlers o;
     canceled := canceled o |}.

(** The static factory installed by [Naboo.register]. *)
Definition register_factory (st : step) : Naboo := register_method st Naboo_new.

(** [steps[i]], undefined below 0 and from the length on. *)
Definition step_at (o : Naboo) (i : Z) : option step :=
  if i <? 0 then None else steps o !! Z.to_nat i.

(** ** [Naboo.tool] *)

(** What the browser answers to the probes on [testEl.style]. *)
Record Platform := {
  (* [testEl.style[name] !== undefined] *)
  style_supported : string -> bool;
  (* after [testEl.style[name] = 0], the letters that follow the digits of
     [testEl.style[name]], when it has that shape *)
  zero_unit : string -> option string }.

(** [A-Z] *)
Definition is_upper (a : ascii) : bool :=
  let n := nat_of_ascii a in (65 <=? n)%nat && (n <=? 90)%nat.

(** The capital letters among the characters below 256, which are the
    characters of the strings of the model: A-Z, and those from 192 to 222
    but for the multiplication sign. *)
Definition is_capital (a : ascii) : bool :=
  let n := nat_of_ascii a in
  is_upper a || ((192 <=? n)%nat && (n <=? 222)%nat && negb (n =? 215)%nat).

(** The lower-case letter of a capital is 32 places further. *)
Definition lower (a : ascii) : ascii :=
  if is_capital a then ascii_of_nat (nat_of_ascii a + 32) else a.

Fixpoint toLowerCase (s : string) : string :=
  match s with
  | String a r => String (lower a) (toLowerCase r)
  | EmptyString => EmptyString
  end.

(** [str.replace(/([A-Z])/g, '-$1').toLowerCase()] *)
Fixpoint dasherize (s : string) : string :=
  match s with
  | String a r =>
      if is_upper a then String "-"%char (String (lower a) (dasherize r))
      else String (lower a) (dasherize r)
  | EmptyString => EmptyString
  end.

Definition vendors : list (string * string) :=
  [("Webkit", "webkit"); ("Moz", ""); ("O", "o")].

(** [obj[k] = v] on an object kept as its keys in insertion order. *)
Fixpoint obj_set (k : string) (v : jsval) (obj : list (string * jsval)) : list (string * jsval) :=
  match obj with
  | [] => [(k, v)]
  | (k', v') :: r => if bool_decide (k' = k) then (k, v) :: r else (k', v') :: obj_set k v r
  end.

Definition getAttribute (name : string) (nd : Node) : jsval :=
  match attrs nd !! name with Some s => VStr s | None => VNull end.

Definition setAttribute (name : string) (v : jsval) (nd : Node) : Node :=
  {| attrs := <[name := to_string v]> (attrs nd); style := style nd; listeners := listeners nd |}.

Definition set_style (st : gmap string string) (nd : Node) : Node :=
  {| attrs := attrs nd; style := st; listeners := listeners nd |}.

(** [dom.addEventListener(transitionEnd, wrappedCallback)]: a listener that
    is already registered is not added again. *)
Definition addEventListener (inv : invref) (nd : Node) : Node :=
  {| attrs := attrs nd; style := style nd;
     listeners := if bool_decide (inv ∈ listeners nd) then listeners nd
                  else listeners nd ++ [inv] |}.

Definition removeEventListener (inv : invref) (nd : Node) : Node :=
  {| attrs := attrs nd; style := style nd;
     listeners := filter (λ i, i ≠ inv) (listeners nd) |}.

(** [dom.style[name]]: the empty string when the declaration is not set. *)
Definition style_get (name : string) (nd : Node) : string :=
  default "" (style nd !! name).

(** The key takes the branch [dom.style.removeProperty] in [setCss]. *)
Definition is_removal (v : jsval) : bool := falsy v && negb (strict_eq v (VNum 0)).

(** [setCss(dom, obj)]: the keys with an empty value are removed inside the
    loop; the other declarations are collected and appended to [cssText]
    after it, where each one sets its property, in order. *)
Definition setCss (obj : list (string * jsval)) (nd : Node) : Node :=
  let removed :=
    foldl (λ st kv, if is_removal kv.2 then delete (dasherize kv.1) st else st)
          (style nd) obj in
  let css := filter (λ kv, is_removal kv.2 = false) obj in
  set_style (foldl (λ st kv, <[dasherize kv.1 := to_string kv.2]> st) removed css) nd.

Section Model.
Context (P : Platform).

(** The feature probe of the module: [(prefix, eventPrefix)]. *)
Definition detect : string * string :=
  if style_supported P "transform" then ("", "")
  else match List.find (λ kv, style_supported P (kv.1 +:+ "TransitionProperty")) vendors with
       | Some kv => ("-" +:+ toLowerCase kv.1 +:+ "-", kv.2)
       | None => ("", "")
       end.

Definition prefix : string := detect.1.
Definition eventPrefix : string := detect.2.

Definition normalizeEvent (name : string) : string :=
  if bool_decide (eventPrefix = "") then toLowerCase name else eventPrefix +:+ name.

(** [eventPrefix === undefined && testEl.style.transitionProperty === undefined];
    [eventPrefix] holds a string on every path. *)
Definition tool_off : bool :=
  strict_eq (VStr eventPrefix) VUndefined && negb (style_supported P "transitionProperty").

(** [handleUnit(prop, val)] *)
Definition handleUnit (prop : string) (val : jsval) : jsval :=
  if negb (strict_eq val (of_number (to_number val))) then val
  else match zero_unit P prop with
       | Some u => js_add val (VStr u)
       | None => val
       end.

(** [getPropName(prop)]; [None] is [undefined]. *)
Definition getPropName (prop : string) : option string :=
  if style_supported P prop then Some prop
  else match List.find (λ kv, style_supported P ("-" +:+ kv.2 +:+ "-" +:+ prop)) vendors with
       | Some kv => Some ("-" +:+ kv.2 +:+ "-" +:+ prop)
       | None => None
       end.

(** ** [Naboo.transition] *)

Definition transitionProperty : string := prefix +:+ "transition-property".
Definition transitionDuration : string := prefix +:+ "transition-duration".
Definition transitionDelay : string := prefix +:+ "transition-delay".
Definition transitionTiming : string := prefix +:+ "transition-timing-function".
Definition transitionEnd : string := normalizeEvent "TransitionEnd".

Definition cssReset : list (string * jsval) :=
  [(transitionProperty, VStr ""); (transitionDuration, VStr "");
   (transitionDelay, VStr ""); (transitionTiming, VStr "")].

(** [n || d] for a number [n]: NaN and 0 are falsy. *)
Definition or_default (n : number) (d : Z) : Z :=
  match n with
  | Some z => if z =? 0 then d else z
  | None => d
  end.

(** [parseInt(opt.duration, 10) || 400], in milliseconds *)
Definition resolve_duration (v : jsval) : Z := or_default (parseInt v) 400.

(** [parseInt(opt.delay, 10) || 0], in milliseconds *)
Definition resolve_delay (v : jsval) : Z := or_default (parseInt v) 0.

Definition easeArr : list string :=
  ["ease"; "linear"; "ease-in"; "ease-out"; "ease-in-out"].

(** [(easeArr.indexOf(opt.ease) > -1) ? opt.ease : 'ease'] *)
Definition resolve_ease (v : jsval) : jsval :=
  if existsb (λ e, strict_eq (VStr e) v) easeArr then v else VStr "ease".

(** [(['transition'].indexOf(opt.mode) > -1) ? opt.mode : 'transition'] *)
Definition resolve_mode (v : jsval) : jsval :=
  if existsb (λ e, strict_eq (VStr e) v) ["transition"] then v else VStr "transition".

(** [(typeof opt.cb === 'function') ? opt.cb : () => {}] *)
Definition resolve_cb (v : jsval) : option fnref :=
  match v with VFun f => Some f | _ => None end.

(** [opt = opt || {}] followed by the reads of its keys. *)
Definition get_options (opt : option optref) (w : World) : options :=
  match opt with
  | Some r => default no_options (opts w !! r)
  | None => no_options
  end.

(** The duration after [if (Naboo.tool.off) duration = 0] and
    [Math.max(duration, 0)], still in milliseconds. *)
Definition clamp_duration (ms : Z) : Z := Z.max (if tool_off then 0 else ms) 0.

(** The loop over the keys of [property].  It yields [cssValues] and
    [cssProperty]; [None] when [getPropName] answers [undefined], on which
    [dasherize] throws. *)
Fixpoint collect (kvs : list (string * jsval)) (cssValues : list (string * jsval))
    (cssProperty : list string) : option (list (string * jsval) * list string) :=
  match kvs with
  | [] => Some (cssValues, cssProperty)
  | (originKey, v) :: r =>
      match getPropName originKey with
      | Some key =>
          collect r (obj_set key (handleUnit key v) cssValues) (cssProperty ++ [dasherize key])
      | None => None
      end
  end.

(** [cssProperty.join(', ')] *)
Fixpoint join (l : list string) : string :=
  match l with
  | [] => ""
  | [x] => x
  | x :: r => x +:+ ", " +:+ join r
  end.

(** [val && (val += ', ')] *)
Definition with_comma (val : string) : string :=
  if falsy (VStr val) then val else val +:+ ", ".

(** [if (val || (parseInt(val, 10) === 0)) val += ', '] *)
Definition with_comma_num (val : string) : string :=
  if negb (falsy (VStr val)) || bool_decide (parseInt (VStr val) = Some 0)
  then val +:+ ", " else val.

(** The four declarations added to [cssValues] when [duration > 0]. *)
Definition transition_declarations (nd : Node) (cssProperty : list string)
    (duration delay : Q) (ease : jsval) (cssValues : list (string * jsval))
    : list (string * jsval) :=
  let v1 := obj_set transitionProperty
              (VStr (with_comma (style_get transitionProperty nd) +:+ join cssProperty))
              cssValues in
  let v2 := obj_set transitionDuration
              (VStr (with_comma_num (style_get transitionDuration nd)
                     +:+ seconds_to_string duration +:+ "s")) v1 in
  let v3 := obj_set transitionTiming
              (VStr (with_comma (style_get transitionTiming nd) +:+ to_string ease)) v2 in
  obj_set transitionDelay
    (VStr (with_comma_num (style_get transitionDelay nd)
           +:+ seconds_to_string delay +:+ "s")) v3.

(** The timeout of the fallback timer, in milliseconds:
    [(duration + delay) * 1000 + 25] on the doubles of the two seconds. *)
Definition fallback_timeout (duration delay : Q) : double :=
  double_add (double_mul (double_add (seconds duration) (seconds delay)) (Z_to_double 1000))
             (Z_to_double 25).

(** [Naboo.transition(dom, property, opt)].  [dom] is [None] for a null or
    undefined target. *)
Definition transition (dom : option noderef) (property : proparg) (opt : option optref)
    (w : World) : outcome :=
  match dom, property with
  | Some d, PropObject kvs =>
      match nodes w !! d with
      | None => Throw w
      | Some nd =>
          let o := get_options opt w in
          let duration := resolve_duration (opt_duration o) in
          let ease := resolve_ease (opt_ease o) in
          let delay := resolve_delay (opt_delay o) in
          let cb := resolve_cb (opt_cb o) in
          let nabooNum := getAttribute "data-naboo" nd in
          let nabooNum :=
            if negb (strict_eq nabooNum (of_number (to_number nabooNum)))
            then VNum 0 else nabooNum in
          let nd := setAttribute "data-naboo" (js_add nabooNum (VNum 1)) nd in
          let duration := clamp_duration duration in
          let duration_s := duration # 1000 in
          let delay_s := delay # 1000 in
          match collect kvs [] [] with
          | None => Throw (set_node d nd w)
          | Some (cssValues, cssProperty) =>
              let cssValues :=
                if 0 <? duration
                then transition_declarations nd cssProperty duration_s delay_s ease cssValues
                else cssValues in
              let inv := length (invs w) in
              let closure :=
                {| inv_dom := d; inv_duration := duration_s; inv_delay := delay_s;
                   inv_cb := cb; fired := false |} in
              let nd := if 0 <? duration then addEventListener inv nd else nd in
              let nd := setCss cssValues nd in
              Ok (set_timers (timers w ++ [(fallback_timeout duration_s delay_s, inv)])
                    (set_invs (invs w ++ [closure]) (set_node d nd w)))
          end
      end
  | _, _ => Ok w
  end.

End Model.

(** ** Running calls *)

(** The calls the interpreter runs: those of the outside, and those only the
    library makes. *)
Inductive call :=
| Act (a : action)
| Trigger (s : ref) (name : string)
| Apply (f : fnref)
| RunStep (s : ref) (st : step)
| Wrapped (inv : invref) (ev : option TransitionEvent).

(** The listeners of a delivered event: an exception in one of them is
    reported by the platform and the next one is still called. *)
Fixpoint deliver {A} (g : A -> World -> outcome) (l : list A) (w : World) : outcome :=
  match l with
  | [] => Ok w
  | x :: r =>
      match g x w with
      | Ok w' | Throw w' => deliver g r w'
      | OutOfFuel => OutOfFuel
      end
  end.

(** [duration + delay], in the doubles that the closure holds. *)
Definition elapsed (c : Invocation) : double :=
  double_add (seconds (inv_duration c)) (seconds (inv_delay c)).

Definition set_fired (c : Invocation) : Invocation :=
  {| inv_dom := inv_dom c; inv_duration := inv_duration c; inv_delay := inv_delay c;
     inv_cb := inv_cb c; fired := true |}.

Definition set_cb_mode (cb mode : jsval) (o : options) : options :=
  {| opt_duration := opt_duration o; opt_ease := opt_ease o; opt_delay := opt_delay o;
     opt_cb := cb; opt_mode := mode |}.

Section Interpreter.
Context (P : Platform).

(** In the definitions of this section [self] runs a nested call. *)
Context (self : call -> World -> outcome).

(** [Naboo.prototype.trigger]; an inherited property is truthy and has no
    method [forEach]. *)
Definition trigger (s : ref) (name : string) (w : World) : outcome :=
  match seqs w !! s with
  | None => Throw w
  | Some o =>
      match get_handlers o name with
      | Handlers handlers => forEach (λ fn, self (Apply fn)) handlers (log (EvTrigger s name) w)
      | Inherited => Throw (log (EvTrigger s name) w)
      | Absent => Ok (log (EvTrigger s name) w)
      end
  end.

(** [Naboo.prototype.next] *)
Definition next (s : ref) (w : World) : outcome :=
  match seqs w !! s with
  | None => Throw w
  | Some o =>
      if canceled o then Ok w
      else
        let i := _index o + 1 in
        let w := log (EvNext s) (set_seq s (set_index i o) w) in
        if Z.of_nat (length (steps o)) <=? i then self (Trigger s "end") w
        else match step_at o i with
             | Some currentStep =>
                 self (RunStep s currentStep) (log (EvStep s (Z.to_nat i)) w)
             | None => Throw w
             end
  end.

(** [Naboo.prototype.start]; ["end"] is no name that [_handlers] inherits, so
    [on] returns. *)
Definition start (s : ref) (fn : option fnref) (w : World) : outcome :=
  match seqs w !! s with
  | None => Throw w
  | Some o =>
      let w := match fn with
               | Some f => set_seq s (on "end" f o) w
               | None => w
               end in
      bind (self (Trigger s "start") w) (self (Act (Next s)))
  end.

(** [Naboo.prototype.cancel], on the object at [s] *)
Definition cancel_at (s : ref) (w : World) : outcome :=
  match seqs w !! s with
  | None => Throw w
  | Some o => Ok (set_seq s (cancel o) w)
  end.

(** A call of the function object at [f]. *)
Definition call_function (f : fnref) (w : World) : outcome :=
  match funs w !! f with
  | None => Throw w
  | Some (UserFn body) => forEach (λ a, self (Act a)) body (log (EvCall f) w)
  | Some (Countdown n outer) =>
      (* n-- === 0 && next() *)
      match cells w !! n with
      | None => Throw w
      | Some v =>
          let w := set_cells (<[n := v - 1]> (cells w)) w in
          if v =? 0 then self (Act (Next outer)) w else Ok w
      end
  | Some (AnimateCb cb outer) =>
      (* cb && cb(); next() *)
      bind (match cb with
            | VFun g => self (Apply g) w
            | _ => if falsy cb then Ok w else Throw w
            end)
           (self (Act (Next outer)))
  end.

(** The binding of [arguments] that the plugin [p] reads.  The plugin is an
    arrow function, which has no [arguments] of its own: the name is looked
    up in the enclosing scope, and that scope is the module, where no
    [arguments] is bound.  [None]: evaluating the name throws a
    ReferenceError. *)
Definition module_arguments : option (list ref) := None.

(** The plugin [p], run as a step of the sequence [s].  Of what it is called
    with ([next] and the children) it names [next] only; the children are
    meant to come from [arguments].  Its first statement evaluates
    [arguments], so the body after it is never reached: there every
    iteration would create its own callback, all sharing [n] and [next]. *)
Definition plugin_p (s : ref) (w : World) : outcome :=
  match module_arguments with
  | None => Throw w
  | Some arguments =>
      let args := drop 1 arguments in
      let n := length (cells w) in
      let w := set_cells (cells w ++ [Z.of_nat (length args)]) w in
      forEach (λ naboo w,
                 let f := length (funs w) in
                 self (Act (Start naboo (Some f))) (set_funs (funs w ++ [Countdown n s]) w))
              args w
  end.

(** The plugin [done]: [(next, fn) => fn(next)] *)
Definition plugin_done (s : ref) (fn : fnref) (w : World) : outcome :=
  self (Apply fn) w.

(** The plugin [animate].  The options object is updated in place. *)
Definition plugin_animate (s : ref) (dom : option noderef) (prop : proparg)
    (opt : option optref) (w : World) : outcome :=
  let '(r, w) := match opt with
                 | Some r => (r, w)
                 | None => (length (opts w), set_opts (opts w ++ [no_options]) w)
                 end in
  match opts w !! r with
  | None => Throw w
  | Some o =>
      let cb := opt_cb o in
      let f := length (funs w) in
      let w := set_funs (funs w ++ [AnimateCb cb s]) w in
      let w := set_opts (<[r := set_cb_mode (VFun f) (resolve_mode (opt_mode o)) o]> (opts w)) w in
      transition P dom prop (Some r) w
  end.

(** The end of [wrappedCallback], from [fired = true] on; [c] holds the
    variables of the closure. *)
Definition complete (inv : invref) (c : Invocation) (w : World) : outcome :=
  let w := log (EvComplete inv) (set_invs (<[inv := set_fired c]> (invs w)) w) in
  match nodes w !! inv_dom c with
  | None => Throw w
  | Some nd =>
      let nd := setAttribute "data-naboo"
                  (of_number (Z.pred <$> to_number (getAttribute "data-naboo" nd))) nd in
      let w :=
        if bool_decide (to_number (getAttribute "data-naboo" nd) = Some 0)
        then log (EvReset (inv_dom c)) (set_node (inv_dom c) (setCss (cssReset P) nd) w)
        else set_node (inv_dom c) nd w in
      match inv_cb c with
      | Some cb => self (Apply cb) w
      | None => Ok w
      end
  end.

(** [wrappedCallback(event)]; [None] is the call without argument made by
    the fallback timer. *)
Definition wrappedCallback (inv : invref) (ev : option TransitionEvent) (w : World) : outcome :=
  match invs w !! inv with
  | None => Throw w
  | Some c =>
      match ev with
      | Some e =>
          if negb (double_eq (elapsedTime e) (elapsed c)) then Ok w
          else if negb (target e =? currentTarget e)%nat then Ok w
          else match nodes w !! target e with
               | None => Throw w
               | Some nd => complete inv c (set_node (target e) (removeEventListener inv nd) w)
               end
      | None =>
          match nodes w !! inv_dom c with
          | None => Throw w
          | Some nd => complete inv c (set_node (inv_dom c) (removeEventListener inv nd) w)
          end
      end
  end.

(** The platform runs the fallback timer of [inv], if it is still pending:
    [() => (!fired && wrappedCallback())]. *)
Definition fire_timer (inv : invref) (w : World) : outcome :=
  if existsb (λ t, (t.2 =? inv)%nat) (timers w) then
    let w := set_timers (filter (λ t, t.2 ≠ inv) (timers w)) w in
    match invs w !! inv with
    | None => Throw w
    | Some c => if fired c then Ok w else self (Wrapped inv None) w
    end
  else Ok w.

(** The platform delivers a transition-end event to the listeners of [cur].
    A listener removed since the delivery began is not called. *)
Definition dispatch (cur tgt : noderef) (elapsed : double) (w : World) : outcome :=
  match nodes w !! cur with
  | None => Throw w
  | Some nd =>
      let e := {| target := tgt; currentTarget := cur; elapsedTime := elapsed |} in
      deliver (λ inv w,
                 match nodes w !! cur with
                 | Some nd' =>
                     if bool_decide (inv ∈ listeners nd') then self (Wrapped inv (Some e)) w
                     else Ok w
                 | None => Ok w
                 end)
              (listeners nd) w
  end.

Definition run_call (c : call) (w : World) : outcome :=
  match c with
  | Act (Start s fn) => start s fn w
  | Act (Next s) => next s w
  | Act (Cancel s) => cancel_at s w
  | Act (Transition dom prop opt) => transition P dom prop opt w
  | Act (FireTimer inv) => fire_timer inv w
  | Act (Dispatch cur tgt elapsed) => dispatch cur tgt elapsed w
  | Trigger s name => trigger s name w
  | Apply f => call_function f w
  | RunStep s (StepP args) => plugin_p s w
  | RunStep s (StepDone fn) => plugin_done s fn w
  | RunStep s (StepAnimate dom prop opt) => plugin_animate s dom prop opt w
  | Wrapped inv ev => wrappedCallback inv ev w
  end.

End Interpreter.

Fixpoint run (P : Platform) (fuel : nat) (c : call) (w : World) : outcome :=
  match fuel with
  | O => OutOfFuel
  | S k => run_call P (run P k) c w
  end.

(** A run of the event loop: the actions are performed one after the other;
    an uncaught exception ends its action only.  [None]: the fuel given to
    one of the actions did not suffice. *)
Fixpoint run_script (P : Platform) (fuel : nat) (acts : list action) (w : World)
    : option World :=
  match acts with
  | [] => Some w
  | a :: rest =>
      match run P fuel (Act a) w with
      | Ok w' | Throw w' => run_script P fuel rest w'
      | OutOfFuel => None
      end
  end.

(** *** Worlds for the examples *)

(** A browser with unprefixed transitions, in which lengths take [px]. *)
Definition browser : Platform :=
  {| style_supported := λ _, true;
     zero_unit := λ name, if bool_decide (name ∈ ["width"; "height"; "left"; "top"])
                          then Some "px" else None |}.

Definition plain_node : Node := {| attrs := ∅; style := ∅; listeners := [] |}.

(** [outer = Naboo.p(a, b, c)] with three sequences without steps at the
    addresses 1, 2 and 3; [outer] is at 0. *)
Definition p_world : World :=
  set_seqs [register_factory (StepP [1; 2; 3]%nat); Naboo_new; Naboo_new; Naboo_new]
           empty_world.

(** [Naboo.transition(node, {width: 10}, opt)] twice on the node 0, with the
    default options. *)
Definition overlap_world : World := set_nodes [plain_node] empty_world.

Definition overlap_script : list action :=
  [Transition (Some 0%nat) (PropObject [("width", VNum 10)]) None;
   Transition (Some 0%nat) (PropObject [("height", VNum 20)]) None].

(** ** The claims of the specification, where they differ from the code *)

(** The duration in milliseconds as the specification words it: the default
    400 when [parseInt] fails only, the parsed value clamped at 0 otherwise. *)
Definition spec_duration (v : jsval) : Z :=
  match parseInt v with
  | None => 400
  | Some z => Z.max z 0
  end.

(** ** Observations on a trace *)

Definition outcome_is (r : outcome) (w : World) : Prop := r = Ok w \/ r = Throw w.

(** The events of the sequence [s] that [next] produces: its advances, the
    calls of its steps, and its [end] event. *)
Definition is_advance_event (s : ref) (e : event) : bool :=
  match e with
  | EvNext s' | EvStep s' _ => (s' =? s)%nat
  | EvTrigger s' name => (s' =? s)%nat && bool_decide (name = "end")
  | _ => false
  end.

Definition advance_events (s : ref) (tr : list event) : list event :=
  List.filter (is_advance_event s) tr.

(** What the [i]-th advance of a sequence of [n] steps produces. *)
Definition advance_item (n : nat) (s : ref) (i : nat) : list event :=
  if (i <? n)%nat then [EvNext s; EvStep s i] else [EvNext s; EvTrigger s "end"].

(** The advances number [a], [a+1], ..., [a+k-1]. *)
Definition advance_run (n : nat) (s : ref) (a k : nat) : list event :=
  flat_map (advance_item n s) (seq a k).

Definition count_event (e : event) (tr : list event) : nat :=
  length (List.filter (λ x, bool_decide (x = e)) tr).

Definition set_ease (v : jsval) (o : options) : options :=
  {| opt_duration := opt_duration o; opt_ease := v; opt_delay := opt_delay o;
     opt_cb := opt_cb o; opt_mode := opt_mode o |}.
Definition set_mode (v : jsval) (o : options) : options :=
  {| opt_duration := opt_duration o; opt_ease := opt_ease o; opt_delay := opt_delay o;
     opt_cb := opt_cb o; opt_mode := v |}.
Definition with_opts (v : list options) (r : outcome) : outcome :=
  match r with
  | Ok w => Ok (set_opts v w)
  | Throw w => Throw (set_opts v w)
  | OutOfFuel => OutOfFuel
  end.

(** The change of the sequence [s] from [w] to [w']: the steps are the same,
    the cursor moved forward by [k] advances, a canceled sequence stays
    canceled and does not move, and the events of [s] grew by [own] followed
    by what these [k] advances produce. *)
Definition advanced (s : ref) (own : list event) (w w' : World) : Prop :=
  forall o, seqs w !! s = Some o -> -1 <= _index o ->
  exists o' (k : nat),
    seqs w' !! s = Some o' /\ steps o' = steps o
    /\ _index o' = _index o + Z.of_nat k
    /\ (canceled o = true -> canceled o' = true /\ k = 0%nat)
    /\ advance_events s (trace w') =
         advance_events s (trace w) ++ own
           ++ advance_run (length (steps o)) s (Z.to_nat (_index o + 1)) k.

(** The events of [s] that a call logs itself before anything else. *)
Definition own_events (s : ref) (c : call) : list event :=
  match c with
  | Trigger s' name =>
      if is_advance_event s (EvTrigger s' name) then [EvTrigger s' name] else []
  | _ => []
  end.

(** The indices of the steps of [s] that were called, in the order of the
    calls. *)
Definition step_call (s : ref) (e : event) : list nat :=
  match e with
  | EvStep s' k => if (s' =? s)%nat then [k] else []
  | _ => []
  end.

Definition step_calls (s : ref) (tr : list event) : list nat :=
  flat_map (step_call s) tr.

(** The closure [inv] is registered as a listener on the node [d]. *)
Definition registered (inv : invref) (ns : list Node) (d : noderef) : Prop :=
  exists nd, ns !! d = Some nd /\ inv ∈ listeners nd.

(** The state of one call of [Naboo.transition], whose closure is [c]: its
    node exists; the body of its handler ran once if [fired] is set and not
    at all otherwise; it is a listener of its own node at most, and of none
    once fired; until then it is a listener when the duration is positive. *)
Record inflight (inv : invref) (w : World) (c : Invocation) : Prop := {
  if_closure : invs w !! inv = Some c;
  if_node : is_Some (nodes w !! inv_dom c);
  if_count : count_event (EvComplete inv) (trace w) = if fired c then 1%nat else 0%nat;
  if_where : forall d, registered inv (nodes w) d -> d = inv_dom c /\ fired c = false;
  if_listening : fired c = false -> (0 < inv_duration c)%Q ->
                 registered inv (nodes w) (inv_dom c) }.

(** Until it has fired, its fallback timer is pending. *)
Definition timed (inv : invref) (w : World) (c : Invocation) : Prop :=
  fired c = false -> exists q, (q, inv) ∈ timers w.

(** What a call needs, when it is a call of the handler of [inv]: the
    platform calls it as a registered listener, and the timer when it has not
    fired. *)
Definition handler_pre (inv : invref) (c0 : call) (w : World) (c : Invocation) : Prop :=
  match c0 with
  | Wrapped i (Some e) => i = inv -> registered inv (nodes w) (currentTarget e)
  | Wrapped i None => i = inv -> fired c = false
  | _ => True
  end.

(** The calls after which the handler of [inv] has run. *)
Definition handler_post (inv : invref) (c0 : call) (c c' : Invocation) : Prop :=
  match c0 with
  | Wrapped i None => i = inv -> fired c' = true
  | Wrapped i (Some e) =>
      i = inv -> double_eq (elapsedTime e) (elapsed c) = true ->
      target e = currentTarget e -> fired c' = true
  | Act (FireTimer i) => i = inv -> fired c' = true
  | Act (Dispatch cur tgt q) =>
      cur = inv_dom c -> tgt = inv_dom c ->
      double_eq q (elapsed c) = true -> (0 < inv_duration c)%Q ->
      fired c' = true
  | _ => True
  end.

Definition handled (inv : invref) (c0 : call) (w w' : World) : Prop :=
  forall c, inflight inv w c -> handler_pre inv c0 w c ->
            (c0 ≠ Wrapped inv None -> timed inv w c) ->
  exists c', (c' = c \/ c' = set_fired c) /\ inflight inv w' c' /\ timed inv w' c'
             /\ handler_post inv c0 c c'.

(** The invariant of [inv], from the closure [c] it had at the start. *)
Definition kept (inv : invref) (c : Invocation) (w : World) : Prop :=
  exists c', (c' = c \/ c' = set_fired c) /\ inflight inv w c' /\ timed inv w c'.

(** The closure that a call of [Naboo.transition] with the options [o]
    creates for the node [d]. *)
Definition new_invocation (P : Platform) (d : noderef) (o : options) : Invocation :=
  {| inv_dom := d;
     inv_duration := clamp_duration P (resolve_duration (opt_duration o)) # 1000;
     inv_delay := resolve_delay (opt_delay o) # 1000;
     inv_cb := resolve_cb (opt_cb o);
     fired := false |}.

(** The node as [Naboo.transition] leaves it. *)
Definition transition_node (P : Platform) (inv : invref) (o : options) (nd : Node)
    (cssValues : list (string * jsval)) (cssProperty : list string) : Node :=
  let nabooNum := getAttribute "data-naboo" nd in
  let nabooNum :=
    if negb (strict_eq nabooNum (of_number (to_number nabooNum))) then VNum 0 else nabooNum in
  let nd := setAttribute "data-naboo" (js_add nabooNum (VNum 1)) nd in
  let duration := clamp_duration P (resolve_duration (opt_duration o)) in
  setCss (if 0 <? duration
          then transition_declarations P nd cssProperty (duration # 1000)
                 (resolve_delay (opt_delay o) # 1000) (resolve_ease (opt_ease o)) cssValues
          else cssValues)
         (if 0 <? duration then addEventListener inv nd else nd).

(** The value that a style object declares for the property [name]: that of
    its last key with this dashed name whose value is not empty. *)
Fixpoint declared (name : string) (obj : list (string * jsval)) : option jsval :=
  match obj with
  | [] => None
  | kv :: r =>
      match declared name r with
      | Some v => Some v
      | None =>
          if bool_decide (dasherize kv.1 = name) && negb (is_removal kv.2)
          then Some kv.2 else None
      end
  end.

(** A key of the object has the dashed name [name]. *)
Definition mentions (name : string) (obj : list (string * jsval)) : bool :=
  existsb (λ kv, bool_decide (dasherize kv.1 = name)) obj.

(** An explicit duration of 0 with the default delay. *)
Definition zero_duration_world : World :=
  set_opts [{| opt_duration := VNum 0; opt_ease := VUndefined; opt_delay := VUndefined;
               opt_cb := VUndefined; opt_mode := VUndefined |}]
    (set_nodes [plain_node] empty_world).


(** The same sequence with a function that keeps its continuation for
    later. *)
Definition pending_world : World :=
  set_funs [UserFn []]
    (set_seqs [register_method (StepDone 0%nat) (register_factory (StepDone 0%nat))]
       empty_world).

(** [Naboo.animate(node, {width: 10})] at the address 0, on the node 0. *)
Definition animating_world : World :=
  set_seqs [register_factory (StepAnimate (Some 0%nat) (PropObject [("width", VNum 10)]) None)]
    (set_nodes [plain_node] empty_world).

(** A sequence and a node, on which [Naboo.transition] is called with a
    duration of 100 ms and a delay of 50 ms. *)
Definition timing_world : World :=
  set_opts [{| opt_duration := VNum 100; opt_ease := VStr "bounce"; opt_delay := VStr "50";
               opt_cb := VUndefined; opt_mode := VUndefined |}]
    (set_seqs [Naboo_new] (set_nodes [plain_node] empty_world)).

Definition timing_call : action :=
  Transition (Some 0%nat) (PropObject [("width", VNum 10)]) (Some 0%nat).

(** The result of a script, when the fuel suffices. *)
Definition after (P : Platform) (fuel : nat) (script : list action) (w : World) : World :=
  default w (run_script P fuel script w).

(** Some node has the closure [inv] among its listeners. *)
Definition listens (inv : invref) (ns : list Node) : bool :=
  existsb (λ nd, bool_decide (inv ∈ listeners nd)) ns.

(** ** Steps that call their continuation exactly once *)

(** The function at [f] returns without a call. *)
Definition inert (fs : list closure) (f : fnref) : bool :=
  match fs !! f with
  | Some (UserFn []) => true
  | _ => false
  end.





(** The callback of the closure [c] returns in [w] without running user
    code: there is none ([() => {}]), or it is a function that calls nothing,
    or it is the callback of an [animate] step without a user callback whose
    sequence is canceled. *)
Definition plain_callback (w : World) (c : Invocation) : bool :=
  match inv_cb c with
  | None => true
  | Some f =>
      match funs w !! f with
      | Some (UserFn []) => true
      | Some (AnimateCb cb s) =>
          match cb with VFun _ => false | _ => falsy cb end
          && match seqs w !! s with Some o => canceled o | None => false end
      | _ => false
      end
  end.

(** ** Definitions for the further properties *)

(** The store after the calls of the functions [hs], none of which calls
    anything. *)
Definition called (hs : list fnref) (w : World) : World :=
  foldl (λ w f, log (EvCall f) w) w hs.

(** The listeners of [name], the empty list when there is no list. *)
Definition listeners_of_name (name : string) (o : Naboo) : list fnref :=
  default [] (_handlers o !! name).

(** [str.replace(/([A-Z])/g, '-$1')] *)
Fixpoint dash_capitals (s : string) : string :=
  match s with
  | String a r =>
      if is_upper a then String "-"%char (String a (dash_capitals r))
      else String a (dash_capitals r)
  | EmptyString => EmptyString
  end.

(** The string has a capital letter. *)
Fixpoint has_capital (s : string) : bool :=
  match s with
  | String a r => is_capital a || has_capital r
  | EmptyString => false
  end.

(** The names that [getPropName] probes for [prop], in its order. *)
Definition prop_candidates (prop : string) : list string :=
  prop :: map (λ kv, "-" +:+ kv.2 +:+ "-" +:+ prop) vendors.

(** The node after the body of [wrappedCallback]: the listener is removed,
    the count of [data-naboo] is lowered by one, and the transition
    declarations are reset when the count is then 0. *)
Definition completed_node (P : Platform) (inv : invref) (nd : Node) : Node :=
  let nd := removeEventListener inv nd in
  let nd := setAttribute "data-naboo"
              (of_number (Z.pred <$> to_number (getAttribute "data-naboo" nd))) nd in
  if bool_decide (to_number (getAttribute "data-naboo" nd) = Some 0)
  then setCss (cssReset P) nd else nd.

(** The event of the reset that a completion on the node [nd] makes: the
    count of [data-naboo] goes from 1 to 0. *)
Definition reset_events (d : noderef) (nd : Node) : list event :=
  if bool_decide (to_number (getAttribute "data-naboo" nd) = Some 1) then [EvReset d] else [].

(** The four declarations of a transition. *)
Definition transition_properties (P : Platform) : list string :=
  [transitionProperty P; transitionDuration P; transitionDelay P; transitionTiming P].

(** The options object of an [animate] step: the one that was passed, or a
    new one ([opt = opt || {}]). *)
Definition animate_options (opt : option optref) (w : World) : optref :=
  match opt with Some r => r | None => length (opts w) end.

(** What the platform does on its own: it runs a timer or delivers an
    event. *)
Definition is_platform (a : action) : bool :=
  match a with FireTimer _ | Dispatch _ _ _ => true | _ => false end.


(** A browser that has the transitions of WebKit under their prefix only. *)
Definition old_webkit : Platform :=
  {| style_supported := λ name,
       bool_decide (name ∈ ["WebkitTransitionProperty"; "-webkit-transform"; "width";
                            "height"; "opacity"]);
     zero_unit := λ name, if bool_decide (name = "width") then Some "px" else None |}.

(** A sequence with two listeners of [start], the second of which is not a
    function. *)
Definition broken_listener_world : World :=
  set_seq 0%nat
    (on "start" 5%nat
       (on "start" 0%nat (register_method (StepDone 0%nat) (register_factory (StepDone 0%nat)))))
    pending_world.

(** A node, and options with a duration of -5 ms. *)
Definition negative_world : World :=
  set_opts [{| opt_duration := VNum (-5); opt_ease := VUndefined; opt_delay := VNum 30;
               opt_cb := VUndefined; opt_mode := VUndefined |}]
    (set_nodes [plain_node] empty_world).









(** [Naboo.animate(node, {width: 10}, {cb: f})] at the address 0, on the
    node 0, where [f] calls nothing. *)
Definition animating_cb_world : World :=
  set_funs [UserFn []]
    (set_opts [{| opt_duration := VUndefined; opt_ease := VUndefined;
                  opt_delay := VUndefined; opt_cb := VFun 0%nat; opt_mode := VUndefined |}]
       (set_seqs [register_factory
                    (StepAnimate (Some 0%nat) (PropObject [("width", VNum 10)]) (Some 0%nat))]
          (set_nodes [plain_node] empty_world))).

(** ** Proofs *)

Section Sequence.

Lemma set_handlers_id o : set_handlers (_handlers o) o = o.
Proof. by destruct o. Qed.

Lemma find_handler_absent (fn : fnref) (handlers : list fnref) :
  fn ∉ handlers -> find_handler fn handlers = length handlers.
Proof.
  induction handlers as [|h r IH]; simpl; [done|].
  intros Hn. apply not_elem_of_cons in Hn as [Hne Hr].
  rewrite bool_decide_eq_false_2 by congruence.
  by rewrite IH.
Qed.

Lemma splice_at_length {A} (l : list A) (i : nat) :
  (length l <= i)%nat -> delete i l = l.
Proof.
  revert i. induction l as [|x l IH]; intros [|i] Hi; simpl in *; try done; try lia.
  f_equal. apply IH. lia.
Qed.

Lemma off_name_shape (n : string) (fn : option fnref) (o : Naboo) :
  n ≠ "" ->
  off (Some n) fn o =
    match fn with
    | None => set_handlers (<[n := []]> (_handlers o)) o
    | Some f =>
        match get_handlers o n with
        | Handlers handlers =>
            set_handlers (<[n := delete (find_handler f handlers) handlers]> (_handlers o)) o
        | _ => o
        end
    end.
Proof. intros Hn. unfold off. by destruct n. Qed.

Lemma get_handlers_own (o : Naboo) (name : string) (l : list fnref) :
  get_handlers o name = Handlers l <-> _handlers o !! name = Some l.
Proof.
  unfold get_handlers. destruct (_handlers o !! name) as [l'|].
  - split; by intros [= ->].
  - split; [|discriminate].
    destruct (_handlers o !! "__proto__") as [l'|];
      repeat match goal with |- context [if ?b then _ else _] => destruct b end; discriminate.
Qed.

(** What a name resolves to depends on its own list and on the prototype. *)
Lemma get_handlers_ext (o o' : Naboo) (name : string) :
  _handlers o' !! name = _handlers o !! name ->
  _handlers o' !! "__proto__" = _handlers o !! "__proto__" ->
  get_handlers o' name = get_handlers o name.
Proof. intros H1 H2. unfold get_handlers. by rewrite H1, H2. Qed.

Lemma get_handlers_ordinary (o : Naboo) (name : string) :
  ordinary name = true ->
  get_handlers o name = match _handlers o !! name with Some l => Handlers l | None => Absent end.
Proof.
  unfold ordinary. intros H. apply andb_true_iff in H as [Hn Hd].
  apply negb_true_iff, bool_decide_eq_false in Hn.
  apply negb_true_iff, bool_decide_eq_false in Hd.
  unfold get_handlers. destruct (_handlers o !! name) as [l|]; [done|].
  assert (Hi : forall len, is_index name len = false).
  { intros len. unfold is_index. destruct (digits_prefix name None); [|done].
    destruct Hd. by eexists. }
  assert (Hl : bool_decide (name = "length") = false).
  { apply bool_decide_eq_false_2. intros ->. apply Hn. by left. }
  assert (Ha : bool_decide (name ∈ array_prototype ++ object_prototype) = false).
  { apply bool_decide_eq_false_2. intros Hin. apply Hn. by right. }
  assert (Ho : bool_decide (name ∈ object_prototype) = false).
  { apply bool_decide_eq_false_2. intros Hin. apply Hn. right.
    apply elem_of_app. by right. }
  destruct (_handlers o !! "__proto__") as [l|]; by rewrite ?Hi, ?Hl, ?Ha, ?Ho.
Qed.

Lemma on_returns (o : Naboo) (name : string) : ordinary name = true -> on_throws name o = false.
Proof.
  intros H. unfold on_throws. rewrite get_handlers_ordinary by done.
  by destruct (_handlers o !! name).
Qed.

(** C9 (as amended).  [off] is a total function: no call of it can throw.
    For a non-empty event name: [off(name)] twice is [off(name)] once, after
    it the name has the empty list, and the list of every other name is as it
    was; [off(name, fn)] with [fn] in no list of that name (the name may have
    no list at all, or resolve to an inherited property) leaves the object
    unchanged, and with any [fn] it leaves the list of every other name as it
    was.  Unless the name is ["__proto__"], every other name also resolves to
    what it did; [off('__proto__')] replaces the prototype of the map by an
    empty array, after which a name of [Array.prototype] resolves to an
    inherited method.  [off()], and [off] with the empty name, whatever
    [fn], leave a map without any key: no name has a listener. *)
Theorem off_idempotent_and_local (o : Naboo) :
  (forall n : string, n ≠ "" ->
     off (Some n) None (off (Some n) None o) = off (Some n) None o
     /\ get_handlers (off (Some n) None o) n = Handlers []
     /\ (forall (m : string) (fn : option fnref),
           m ≠ n -> _handlers (off (Some n) fn o) !! m = _handlers o !! m)
     /\ (forall (m : string) (fn : option fnref),
           m ≠ n -> n ≠ "__proto__" ->
           get_handlers (off (Some n) fn o) m = get_handlers o m)
     /\ (forall f : fnref,
           (forall l, get_handlers o n = Handlers l -> f ∉ l) -> off (Some n) (Some f) o = o))
  /\ (forall fn : option fnref,
        _handlers (off None fn o) = ∅ /\ _handlers (off (Some "") fn o) = ∅)
  /\ (forall (fn : option fnref) (m : string) (name : option string),
        name = None \/ name = Some "" ->
        get_handlers (off name fn o) m
        = if bool_decide (m ∈ object_prototype) then Inherited else Absent)
  /\ get_handlers Naboo_new "push" = Absent
  /\ get_handlers (off (Some "__proto__") None Naboo_new) "push" = Inherited.
Proof.
  assert (Hother : forall (n m : string) (fn : option fnref), n ≠ "" -> m ≠ n ->
            _handlers (off (Some n) fn o) !! m = _handlers o !! m).
  { intros n m fn Hn Hm. rewrite off_name_shape by done.
    destruct fn as [f|]; simpl; [|by rewrite lookup_insert_ne].
    destruct (get_handlers o n); simpl; [|done|done]. by rewrite lookup_insert_ne. }
  split; [|split; [|split; [|split]]].
  - intros n Hn. split; [|split; [|split; [|split]]].
    + rewrite !off_name_shape by done. unfold set_handlers; simpl.
      by rewrite insert_insert_eq.
    + apply get_handlers_own. rewrite off_name_shape by done. simpl.
      by rewrite lookup_insert_eq.
    + intros m fn Hm. by apply Hother.
    + intros m fn Hm Hp. apply get_handlers_ext; by apply Hother.
    + intros f Hf. rewrite off_name_shape by done.
      destruct (get_handlers o n) as [handlers| |] eqn:E; [|done|done].
      specialize (Hf handlers eq_refl). apply get_handlers_own in E.
      rewrite find_handler_absent by done.
      rewrite splice_at_length by lia.
      rewrite insert_id by done. apply set_handlers_id.
  - intros fn. by split.
  - intros fn m name [-> | ->]; reflexivity.
  - reflexivity.
  - reflexivity.
Qed.

(** At the names ["start"] and ["end"] (one listener registered). *)
Lemma off_idempotent_and_local_witness :
  let o := on "end" 7%nat Naboo_new in
  off (Some "start") None (off (Some "start") None o) = off (Some "start") None o
  /\ _handlers (off (Some "start") None o) !! "end" = Some [7%nat]
  /\ get_handlers (off (Some "start") (Some 3%nat) o) "end" = Handlers [7%nat]
  /\ off (Some "end") (Some 3%nat) o = o
  /\ off (Some "constructor") (Some 3%nat) o = o
  /\ get_handlers (off (Some "") (Some 7%nat) o) "end" = Absent.
Proof.
  intros o.
  destruct (off_idempotent_and_local o) as (Hname & _ & Hall & _).
  destruct (Hname "start" ltac:(discriminate)) as (H1 & _ & H3 & H4 & _).
  destruct (Hname "end" ltac:(discriminate)) as (_ & _ & _ & _ & H5).
  destruct (Hname "constructor" ltac:(discriminate)) as (_ & _ & _ & _ & H6).
  split; [exact H1|]. split; [rewrite H3 by discriminate; reflexivity|].
  split; [rewrite H4 by discriminate; reflexivity|].
  split.
  { apply H5. intros l [= <-]. vm_compute. intros Hin. inversion Hin as [|? ? ? Hin']. inversion Hin'. }
  split.
  { apply H6. intros l Hl. discriminate Hl. }
  rewrite (Hall (Some 7%nat) "end" (Some "")) by (by right). reflexivity.
Defined.

(** C9 as the specification states it fails at the empty name: [!name]
    holds, and [off('')] drops the listeners of ["end"] too. *)
Lemma off_empty_name_clears_all :
  let o := on "end" 7%nat Naboo_new in
  "end" ≠ "" /\ _handlers o !! "end" = Some [7%nat]
  /\ ~ (_handlers (off (Some "") None o) !! "end" = _handlers o !! "end").
Proof. intros o. split; [discriminate|]. split; [reflexivity|]. vm_compute. discriminate. Qed.

End Sequence.

Section Driver.
Context (P : Platform).

(** C10.  When the target is null or undefined, or [property] is not a plain
    object, [Naboo.transition] returns with the store as it found it: no
    style, attribute, listener or timer is written, and no function is
    called (the trace is the same). *)
Theorem transition_guard_noop (dom : option noderef) (property : proparg)
    (opt : option optref) (w : World) (fuel : nat) :
  dom = None \/ (exists v, property = PropOther v) ->
  transition P dom property opt w = Ok w
  /\ run P (S fuel) (Act (Transition dom property opt)) w = Ok w.
Proof.
  intros [-> | [v ->]]; simpl; split; try reflexivity; by destruct dom.
Qed.

Lemma resolve_ease_idem v : resolve_ease (resolve_ease v) = resolve_ease v.
Proof.
  unfold resolve_ease.
  destruct (existsb (λ e, strict_eq (VStr e) v) easeArr) eqn:E; [by rewrite E|reflexivity].
Qed.

Lemma resolve_enum_out (l : list string) (v : jsval) :
  v ∉ (VStr <$> l) -> existsb (λ e, strict_eq (VStr e) v) l = false.
Proof.
  induction l as [|e l IH]; [done|].
  rewrite fmap_cons. simpl. intros Hn. apply not_elem_of_cons in Hn as [Hne Hl].
  apply orb_false_iff. split; [|by apply IH].
  unfold strict_eq. destruct v; try reflexivity; apply bool_decide_eq_false_2; congruence.
Qed.

Lemma transition_coerced_ease dom property (r : optref) (o : options) (w : World) :
  opts w !! r = Some o ->
  let coerced := <[r := set_ease (resolve_ease (opt_ease o)) o]> (opts w) in
  transition P dom property (Some r) (set_opts coerced w)
  = with_opts coerced (transition P dom property (Some r) w).
Proof.
  intros Ho coerced.
  assert (Hget : get_options (Some r) (set_opts coerced w)
                 = set_ease (resolve_ease (opt_ease o)) o).
  { unfold get_options, coerced. simpl.
    rewrite list_lookup_insert_eq; [done|]. by eapply lookup_lt_Some. }
  assert (Hget0 : get_options (Some r) w = o).
  { unfold get_options. by rewrite Ho. }
  unfold transition. rewrite Hget, Hget0.
  destruct dom as [d|]; [|reflexivity].
  destruct property as [kvs|v]; [|reflexivity].
  change (nodes (set_opts coerced w)) with (nodes w).
  destruct (nodes w !! d) as [nd|]; [|reflexivity].
  cbn [opt_duration opt_ease opt_delay opt_cb set_ease].
  rewrite resolve_ease_idem.
  destruct (collect P kvs [] []) as [[cssValues cssProperty]|]; [|reflexivity].
  destruct (0 <? clamp_duration P (resolve_duration (opt_duration o))); reflexivity.
Qed.

Lemma resolve_mode_transition v : resolve_mode v = VStr "transition".
Proof.
  unfold resolve_mode. simpl. rewrite orb_false_r.
  unfold strict_eq. destruct v; try reflexivity.
  case_bool_decide; congruence.
Qed.

(** C8.  An [ease] outside the list resolves to ["ease"] and a [mode] other
    than ["transition"] to ["transition"]; no error comes of it: a call of
    [Naboo.transition] behaves with the original option as it does with the
    coerced one, and the [animate] step with any [mode] as with
    ["transition"]. *)
Theorem out_of_enum_coerced :
  (forall v, v ∉ (VStr <$> easeArr) -> resolve_ease v = VStr "ease")
  /\ resolve_ease (VStr "bounce") = VStr "ease"
  /\ (forall v, v ≠ VStr "transition" -> resolve_mode v = VStr "transition")
  /\ resolve_mode (VStr "keyframes") = VStr "transition"
  /\ (forall dom property r o w,
        opts w !! r = Some o ->
        transition P dom property (Some r)
          (set_opts (<[r := set_ease (resolve_ease (opt_ease o)) o]> (opts w)) w)
        = with_opts (<[r := set_ease (resolve_ease (opt_ease o)) o]> (opts w))
            (transition P dom property (Some r) w))
  /\ (forall s dom property r o w,
        opts w !! r = Some o ->
        plugin_animate P s dom property (Some r) w
        = plugin_animate P s dom property (Some r)
            (set_opts (<[r := set_mode (VStr "transition") o]> (opts w)) w)).
Proof.
  split; [|split; [|split; [|split; [|split]]]].
  - intros v Hv. unfold resolve_ease. by rewrite resolve_enum_out.
  - reflexivity.
  - intros v Hv. unfold resolve_mode.
    rewrite (resolve_enum_out ["transition"]); [done|].
    simpl. rewrite list_elem_of_singleton. congruence.
  - reflexivity.
  - intros. by apply transition_coerced_ease.
  - intros s dom property r o w Ho. unfold plugin_animate. simpl.
    assert (Hr : (r < length (opts w))%nat) by by eapply lookup_lt_Some.
    rewrite Ho, list_lookup_insert_eq by done.
    rewrite !resolve_mode_transition. simpl.
    rewrite list_insert_insert_eq. reflexivity.
Qed.

End Driver.

Section Generic.
Context (P : Platform).

Lemma outcome_is_bind r k w' :
  outcome_is (bind r k) w' ->
  r = Throw w' \/ exists w1, r = Ok w1 /\ outcome_is (k w1) w'.
Proof.
  destruct r as [w1|w1|]; simpl; intros [H|H]; try discriminate.
  - right. exists w1. split; [done|]. by left.
  - right. exists w1. split; [done|]. by right.
  - left. congruence.
Qed.

Lemma outcome_is_Ok w w' : outcome_is (Ok w) w' -> w' = w.
Proof. intros [H|H]; congruence. Qed.

Lemma outcome_is_Throw w w' : outcome_is (Throw w) w' -> w' = w.
Proof. intros [H|H]; congruence. Qed.

Lemma outcome_is_OutOfFuel w' : ~ outcome_is OutOfFuel w'.
Proof. intros [H|H]; discriminate. Qed.

Lemma forEach_inv {A} (I : World -> Prop) (g : A -> World -> outcome) (l : list A) :
  (forall x w w', x ∈ l -> I w -> outcome_is (g x w) w' -> I w') ->
  forall w w', I w -> outcome_is (forEach g l w) w' -> I w'.
Proof.
  induction l as [|x l IH]; intros Hg w w' Hw H; simpl in H.
  - apply outcome_is_Ok in H. by subst.
  - apply outcome_is_bind in H as [H|(w1 & H1 & H)].
    + eapply (Hg x); [left|done|]. by right.
    + eapply IH; [|eapply (Hg x); [left|done|by left; apply H1]|done].
      intros y ? ? Hy. apply Hg. by right.
Qed.

Lemma deliver_inv {A} (I : World -> Prop) (g : A -> World -> outcome) (l : list A) :
  (forall x w w', x ∈ l -> I w -> outcome_is (g x w) w' -> I w') ->
  forall w w', I w -> outcome_is (deliver g l w) w' -> I w'.
Proof.
  induction l as [|x l IH]; intros Hg w w' Hw H; simpl in H.
  - apply outcome_is_Ok in H. by subst.
  - assert (Hl : forall y w w', y ∈ l -> I w -> outcome_is (g y w) w' -> I w').
    { intros y ? ? Hy. apply Hg. by right. }
    destruct (g x w) as [w1|w1|] eqn:E.
    + eapply IH; [done| |done]. eapply (Hg x); [left|done|]. by left.
    + eapply IH; [done| |done]. eapply (Hg x); [left|done|]. by right.
    + by apply outcome_is_OutOfFuel in H.
Qed.

(** Induction on the fuel, once and for all. *)
Lemma run_spec (R : call -> World -> World -> Prop) :
  (forall self : call -> World -> outcome,
     (forall c w w', outcome_is (self c w) w' -> R c w w') ->
     forall c w w', outcome_is (run_call P self c w) w' -> R c w w') ->
  forall fuel c w w', outcome_is (run P fuel c w) w' -> R c w w'.
Proof.
  intros Hstep fuel. induction fuel as [|k IH]; intros c w w' H; simpl in H.
  - by apply outcome_is_OutOfFuel in H.
  - eapply Hstep; [|done]. apply IH.
Qed.

(** [Naboo.transition] writes nodes, closures and timers only. *)
Lemma transition_frame dom property opt w w' :
  outcome_is (transition P dom property opt w) w' ->
  seqs w' = seqs w /\ trace w' = trace w /\ funs w' = funs w /\ cells w' = cells w
  /\ opts w' = opts w.
Proof.
  unfold transition. intros H.
  destruct dom as [d|]; [|apply outcome_is_Ok in H; by subst].
  destruct property as [kvs|v]; [|apply outcome_is_Ok in H; by subst].
  destruct (nodes w !! d) as [nd|]; [|apply outcome_is_Throw in H; by subst].
  destruct (collect P kvs [] []) as [[cssValues cssProperty]|].
  - apply outcome_is_Ok in H. by subst.
  - apply outcome_is_Throw in H. by subst.
Qed.

End Generic.

Section Advance.
Context (P : Platform) (s : ref).

Lemma advance_events_log e w :
  advance_events s (trace (log e w)) =
  advance_events s (trace w) ++ (if is_advance_event s e then [e] else []).
Proof.
  unfold advance_events. simpl. rewrite List.filter_app. simpl.
  by destruct (is_advance_event s e).
Qed.

Lemma advance_run_app n a k1 k2 :
  advance_run n s a (k1 + k2) = advance_run n s a k1 ++ advance_run n s (a + k1) k2.
Proof. unfold advance_run. by rewrite seq_app, flat_map_app. Qed.

Lemma advance_run_S n a k :
  advance_run n s a (S k) = advance_item n s a ++ advance_run n s (S a) k.
Proof. reflexivity. Qed.

Lemma advanced_same w w' :
  seqs w' !! s = seqs w !! s ->
  advance_events s (trace w') = advance_events s (trace w) ->
  advanced s [] w w'.
Proof.
  intros Hs Ht o Ho Hi. exists o, 0%nat. rewrite Hs, Ht.
  repeat split; try done; try lia.
  unfold advance_run. simpl. by rewrite app_nil_r.
Qed.

Lemma advanced_trans own w1 w2 w3 :
  advanced s own w1 w2 -> advanced s [] w2 w3 -> advanced s own w1 w3.
Proof.
  intros H12 H23 o Ho Hi.
  destruct (H12 o Ho Hi) as (o2 & k1 & Ho2 & Hst2 & Hi2 & Hc2 & He2).
  destruct (H23 o2 Ho2 ltac:(lia)) as (o3 & k2 & Ho3 & Hst3 & Hi3 & Hc3 & He3).
  exists o3, (k1 + k2)%nat. repeat split.
  - done.
  - congruence.
  - lia.
  - by apply Hc3, Hc2.
  - match goal with Hc : canceled o = true |- _ => apply Hc2 in Hc as [Hc ->] end.
    by apply Hc3.
  - rewrite He3, He2, advance_run_app, Hst2. simpl.
    replace (Z.to_nat (_index o2 + 1)) with (Z.to_nat (_index o + 1) + k1)%nat by lia.
    by rewrite <- !app_assoc.
Qed.

(** The step the cursor arrives at is called. *)
Lemma advanced_step o w w' :
  seqs w !! s = Some o -> canceled o = false ->
  (_index o + 1 <? Z.of_nat (length (steps o))) = true ->
  advanced s []
    (log (EvStep s (Z.to_nat (_index o + 1)))
       (log (EvNext s) (set_seq s (set_index (_index o + 1) o) w))) w' ->
  advanced s [] w w'.
Proof.
  intros Ho Hc Hlt H o0 Ho0 Hi. assert (o0 = o) as -> by congruence.
  apply Z.ltb_lt in Hlt.
  assert (Hs : (s < length (seqs w))%nat) by by eapply lookup_lt_Some.
  destruct (H (set_index (_index o + 1) o)) as (o' & k & Ho' & Hst & Hi' & _ & He).
  { simpl. by rewrite list_lookup_insert_eq. }
  { simpl. lia. }
  exists o', (1 + k)%nat. simpl in Hst, Hi'.
  repeat split; try done; try lia; try congruence.
  rewrite He, !advance_events_log. simpl. rewrite Nat.eqb_refl. simpl.
  rewrite advance_run_S. unfold advance_item at 1.
  replace (Z.to_nat (_index o + 1) <? length (steps o))%nat with true
    by (symmetry; apply Nat.ltb_lt; lia).
  replace (Z.to_nat (_index o + 1 + 1)) with (S (Z.to_nat (_index o + 1))) by lia.
  by rewrite <- !app_assoc.
Qed.

(** Past the last step, [end] is triggered. *)
Lemma advanced_end o w w' :
  seqs w !! s = Some o -> canceled o = false ->
  (Z.of_nat (length (steps o)) <=? _index o + 1) = true ->
  advanced s [EvTrigger s "end"]
    (log (EvNext s) (set_seq s (set_index (_index o + 1) o) w)) w' ->
  advanced s [] w w'.
Proof.
  intros Ho Hc Hle H o0 Ho0 Hi. assert (o0 = o) as -> by congruence.
  apply Z.leb_le in Hle.
  assert (Hs : (s < length (seqs w))%nat) by by eapply lookup_lt_Some.
  destruct (H (set_index (_index o + 1) o)) as (o' & k & Ho' & Hst & Hi' & _ & He).
  { simpl. by rewrite list_lookup_insert_eq. }
  { simpl. lia. }
  exists o', (1 + k)%nat. simpl in Hst, Hi'.
  repeat split; try done; try lia; try congruence.
  rewrite He, !advance_events_log. simpl. rewrite Nat.eqb_refl. simpl.
  rewrite advance_run_S. unfold advance_item at 1.
  replace (Z.to_nat (_index o + 1) <? length (steps o))%nat with false
    by (symmetry; apply Nat.ltb_ge; lia).
  replace (Z.to_nat (_index o + 1 + 1)) with (S (Z.to_nat (_index o + 1))) by lia.
  by rewrite <- !app_assoc.
Qed.

Lemma advanced_own e w w' :
  advanced s [] (log e w) w' ->
  advanced s (if is_advance_event s e then [e] else []) w w'.
Proof.
  intros H o Ho Hi. destruct (H o Ho Hi) as (o' & k & Ho' & Hst & Hi' & Hc & He).
  exists o', k. repeat split; try done; try (by apply Hc).
  rewrite He, advance_events_log. by rewrite <- !app_assoc.
Qed.

(** An event that is not one of [s], on a store with the same sequences. *)
Lemma advanced_quiet e w w0 :
  is_advance_event s e = false -> seqs w0 = seqs w -> trace w0 = trace w ->
  advanced s [] w (log e w0).
Proof.
  intros He Hs Ht. apply advanced_same; [simpl; by rewrite Hs|].
  rewrite advance_events_log, He, Ht. by rewrite app_nil_r.
Qed.

Lemma other_seq (s' : ref) (o' : Naboo) w :
  s' ≠ s -> seqs (set_seq s' o' w) !! s = seqs w !! s.
Proof. intros Hne. simpl. by rewrite list_lookup_insert_ne. Qed.

End Advance.

Section AdvanceRun.
Context (P : Platform) (s : ref).

Ltac finish H :=
  first [ apply outcome_is_Ok in H | apply outcome_is_Throw in H ]; subst;
  apply advanced_same; reflexivity.

Lemma run_call_advanced (self : call -> World -> outcome) :
  (forall c w w', outcome_is (self c w) w' -> advanced s (own_events s c) w w') ->
  forall c w w', outcome_is (run_call P self c w) w' -> advanced s (own_events s c) w w'.
Proof.
  intros IH c w w' H.
  destruct c as [[s' fn|s'|s'|dom prop opt|inv|cur tgt q]|s' name|f|s' [args|fn|dom prop opt]|inv ev];
    simpl in H.
  - (* start *)
    unfold start in H. destruct (seqs w !! s') as [o'|] eqn:Es; [|finish H].
    apply outcome_is_bind in H.
    assert (H0 : advanced s [] w
                   (match fn with Some f => set_seq s' (on "end" f o') w | None => w end)).
    { destruct fn as [f|]; [|by apply advanced_same].
      destruct (decide (s' = s)) as [->|Hne].
      - intros o Ho Hi. assert (o = o') as -> by congruence.
        exists (on "end" f o'), 0%nat. simpl.
        rewrite list_lookup_insert_eq by by eapply lookup_lt_Some.
        repeat split; try done; try lia. by rewrite app_nil_r.
      - apply advanced_same; [by apply other_seq|done]. }
    assert (Hstart : own_events s (Trigger s' "start") = []).
    { simpl. by rewrite andb_false_r. }
    destruct H as [H|(w1 & H1 & H)].
    + eapply advanced_trans; [exact H0|].
      rewrite <- Hstart. apply IH. by right.
    + eapply advanced_trans; [exact H0|]. eapply advanced_trans.
      * rewrite <- Hstart. apply IH. left. exact H1.
      * by apply (IH (Act (Next s'))).
  - (* next *)
    unfold next in H. destruct (seqs w !! s') as [o'|] eqn:Es; [|finish H].
    destruct (canceled o') eqn:Ec; [finish H|].
    destruct (decide (s' = s)) as [->|Hne].
    + destruct (Z.of_nat (length (steps o')) <=? _index o' + 1) eqn:El.
      * eapply advanced_end; [done..|].
        apply IH in H. simpl in H. by rewrite Nat.eqb_refl in H.
      * apply Z.leb_gt in El.
        intros o Ho Hi. assert (o = o') as -> by congruence.
        unfold step_at in H. rewrite (proj2 (Z.ltb_ge _ _)) in H by lia.
        destruct (steps o' !! Z.to_nat (_index o' + 1)) as [st|] eqn:Est.
        2:{ apply lookup_ge_None in Est. lia. }
        apply IH in H. revert o' Es Ec El Est H Ho Hi. intros o Es Ec El Est H Ho Hi.
        eapply advanced_step; [done..| |exact H|done|done].
        apply Z.ltb_lt. lia.
    + assert (H0 : advanced s [] w (log (EvNext s') (set_seq s' (set_index (_index o' + 1) o') w))).
      { apply advanced_same; [by apply other_seq|].
        rewrite advance_events_log. simpl.
        rewrite (proj2 (Nat.eqb_neq _ _)) by done. by rewrite app_nil_r. }
      destruct (Z.of_nat (length (steps o')) <=? _index o' + 1).
      * eapply advanced_trans; [exact H0|]. apply IH in H. simpl in H.
        by rewrite (proj2 (Nat.eqb_neq _ _)) in H.
      * destruct (step_at o' (_index o' + 1)) as [st|].
        -- eapply advanced_trans; [exact H0|]. apply IH in H. simpl in H.
           eapply advanced_trans; [|exact H].
           apply advanced_same; [done|].
           rewrite advance_events_log. simpl.
           rewrite (proj2 (Nat.eqb_neq _ _)) by done. by rewrite app_nil_r.
        -- apply outcome_is_Throw in H. by subst.
  - (* cancel *)
    unfold cancel_at in H. destruct (seqs w !! s') as [o'|] eqn:Es; [|finish H].
    apply outcome_is_Ok in H. subst.
    destruct (decide (s' = s)) as [->|Hne].
    + intros o Ho Hi. assert (o = o') as -> by congruence.
      exists (cancel o'), 0%nat. simpl.
      rewrite list_lookup_insert_eq by by eapply lookup_lt_Some.
      repeat split; try done; try lia. by rewrite app_nil_r.
    + apply advanced_same; [by apply other_seq|done].
  - (* transition *)
    apply transition_frame in H as (Hs & Ht & _). apply advanced_same; by rewrite ?Hs, ?Ht.
  - (* fire_timer *)
    unfold fire_timer in H.
    destruct (existsb (λ t : double * nat, (t.2 =? inv)%nat) (timers w)); [|finish H].
    simpl in H. destruct (invs w !! inv) as [c|]; [|finish H].
    destruct (fired c); [finish H|].
    apply IH in H. eapply advanced_trans; [|exact H]. by apply advanced_same.
  - (* dispatch *)
    unfold dispatch in H. destruct (nodes w !! cur) as [nd|]; [|finish H].
    revert H. apply (deliver_inv (λ w', advanced s [] w w')); [|by apply advanced_same].
    intros i w1 w2 _ Hw1 H. eapply advanced_trans; [exact Hw1|].
    destruct (nodes w1 !! cur) as [nd'|]; [|finish H].
    destruct (bool_decide _); [|finish H]. by apply IH in H.
  - (* trigger *)
    unfold trigger in H. destruct (seqs w !! s') as [o'|] eqn:Es; [|].
    2:{ apply outcome_is_Throw in H. subst. simpl.
        destruct (s' =? s)%nat eqn:E; [|by apply advanced_same].
        apply Nat.eqb_eq in E. subst. intros o Ho. congruence. }
    apply advanced_own.
    destruct (get_handlers o' name) as [handlers| |]; [|finish H|finish H].
    revert H. apply (forEach_inv (λ w', advanced s [] (log (EvTrigger s' name) w) w'));
      [|by apply advanced_same].
    intros fn w1 w2 _ Hw1 H. eapply advanced_trans; [exact Hw1|]. by apply IH in H.
  - (* call_function *)
    unfold call_function in H. destruct (funs w !! f) as [[body|n outer|cb outer]|]; [| | |finish H].
    + revert H. apply (forEach_inv (λ w', advanced s [] w w')); [|by apply advanced_quiet].
      intros a w1 w2 _ Hw1 H. eapply advanced_trans; [exact Hw1|]. by apply IH in H.
    + destruct (cells w !! n) as [v|]; [|finish H].
      destruct (v =? 0); [|finish H].
      apply IH in H. eapply advanced_trans; [|exact H]. by apply advanced_same.
    + apply outcome_is_bind in H.
      assert (H0 : forall w1, outcome_is (match cb with
                                | VFun g => self (Apply g) w
                                | _ => if falsy cb then Ok w else Throw w
                                end) w1 -> advanced s [] w w1).
      { intros w1 H1. destruct cb; try (by apply IH in H1);
          simpl in H1; try destruct (z =? 0); try destruct b; try destruct (bool_decide _); 
          simpl in H1; finish H1. }
      destruct H as [H|(w1 & H1 & H)].
      * apply H0. by right.
      * eapply advanced_trans; [apply H0; by left|]. by apply IH in H.
  - (* plugin p *)
    unfold plugin_p, module_arguments in H. finish H.
  - (* plugin done *)
    unfold plugin_done in H. by apply IH in H.
  - (* plugin animate *)
    unfold plugin_animate in H.
    destruct opt as [r|].
    + destruct (opts w !! r) as [o|]; [|finish H].
      apply transition_frame in H as (Hs & Ht & _). apply advanced_same; by rewrite ?Hs, ?Ht.
    + cbv beta iota zeta in H.
      match type of H with
      | outcome_is (match ?x with _ => _ end) _ => destruct x as [o|]; [|finish H]
      end.
      apply transition_frame in H as (Hs & Ht & _). apply advanced_same; by rewrite ?Hs, ?Ht.
  - (* wrappedCallback *)
    assert (Hbody : forall c w0, seqs w0 = seqs w -> trace w0 = trace w ->
              outcome_is (complete P self inv c w0) w' -> advanced s [] w w').
    { intros c w0 Hs Ht H0. unfold complete in H0.
      match type of H0 with
      | outcome_is (match ?x with _ => _ end) _ => destruct x as [nd|]
      end.
      2:{ apply outcome_is_Throw in H0. subst. by apply advanced_quiet. }
      match type of H0 with
      | context [if ?b then _ else _] => destruct b
      end.
      - assert (advanced s [] w
                  (log (EvReset (inv_dom c))
                     (set_node (inv_dom c)
                        (setCss (cssReset P)
                           (setAttribute "data-naboo"
                              (of_number (Z.pred <$> to_number (getAttribute "data-naboo" nd)))
                              nd))
                        (log (EvComplete inv)
                           (set_invs (<[inv:=set_fired c]> (invs w0)) w0))))) as H1.
        { eapply advanced_trans; [apply (advanced_quiet s (EvComplete inv) w w0); done|].
          by apply advanced_quiet. }
        destruct (inv_cb c) as [cb|].
        + apply IH in H0. eapply advanced_trans; [exact H1|exact H0].
        + apply outcome_is_Ok in H0. by subst.
      - assert (advanced s [] w
                  (set_node (inv_dom c)
                     (setAttribute "data-naboo"
                        (of_number (Z.pred <$> to_number (getAttribute "data-naboo" nd)))
                        nd)
                     (log (EvComplete inv)
                        (set_invs (<[inv:=set_fired c]> (invs w0)) w0)))) as H1.
        { eapply advanced_trans; [apply (advanced_quiet s (EvComplete inv) w w0); done|].
          by apply advanced_same. }
        destruct (inv_cb c) as [cb|].
        + apply IH in H0. eapply advanced_trans; [exact H1|exact H0].
        + apply outcome_is_Ok in H0. by subst. }
    unfold wrappedCallback in H. destruct (invs w !! inv) as [c|]; [|finish H].
    destruct ev as [e|].
    + destruct (negb _); [finish H|]. destruct (negb _); [finish H|].
      destruct (nodes w !! target e) as [nd|]; [|finish H].
      by eapply Hbody in H.
    + destruct (nodes w !! inv_dom c) as [nd|]; [|finish H].
      by eapply Hbody in H.
Qed.

End AdvanceRun.

Section AdvanceFacts.
Context (P : Platform) (s : ref).

Lemma run_advanced fuel c w w' :
  outcome_is (run P fuel c w) w' -> advanced s (own_events s c) w w'.
Proof.
  apply (run_spec P (λ c w w', advanced s (own_events s c) w w')).
  intros self IH c0 w0 w0'. by apply run_call_advanced.
Qed.

Lemma run_script_advanced fuel acts w w' :
  run_script P fuel acts w = Some w' -> advanced s [] w w'.
Proof.
  revert w. induction acts as [|a acts IH]; intros w H; simpl in H.
  - injection H as <-. by apply advanced_same.
  - destruct (run P fuel (Act a) w) as [w1|w1|] eqn:E; [| |discriminate].
    + eapply advanced_trans; [|by apply IH].
      apply (run_advanced fuel (Act a)). by left.
    + eapply advanced_trans; [|by apply IH].
      apply (run_advanced fuel (Act a)). by right.
Qed.

Lemma count_event_app e l1 l2 :
  count_event e (l1 ++ l2) = (count_event e l1 + count_event e l2)%nat.
Proof. unfold count_event. by rewrite List.filter_app, length_app. Qed.








End AdvanceFacts.

(** *** Runs that return

    With the fuel that the depth of the calls asks for, the calls of a
    sequence whose functions are of the kinds of [well_behaved] return. *)
Section Returns.
Context (P : Platform) (s : ref).

Lemma run_S fuel c w : run P (S fuel) c w = run_call P (run P fuel) c w.
Proof. reflexivity. Qed.

Lemma inert_returns (fn : fnref) (w : World) (k : nat) :
  inert (funs w) fn = true -> run P (S k) (Apply fn) w = Ok (log (EvCall fn) w).
Proof.
  intros Hfn. unfold inert in Hfn. rewrite run_S. cbn [run_call]. unfold call_function.
  by destruct (funs w !! fn) as [[[|a body]|n outer|cb outer]|].
Qed.







End Returns.

Section SequenceClaims.
Context (P : Platform).




Lemma step_calls_advance_events s tr :
  step_calls s (advance_events s tr) = step_calls s tr.
Proof.
  unfold step_calls, advance_events.
  induction tr as [|e tr IH]; simpl; [done|].
  destruct (is_advance_event s e) eqn:Ee; simpl; rewrite IH; [done|].
  destruct e; try done. simpl in *. by rewrite Ee.
Qed.


End SequenceClaims.

Section Inflight.
Context (P : Platform) (inv : invref).

Lemma count_event_log e e' w :
  count_event e (trace (log e' w)) =
  (count_event e (trace w) + if bool_decide (e' = e) then 1 else 0)%nat.
Proof.
  unfold count_event. simpl. rewrite List.filter_app, length_app. simpl.
  by case_bool_decide.
Qed.

Lemma set_fired_fired c : fired c = true -> set_fired c = c.
Proof. destruct c; simpl; by intros ->. Qed.

Lemma set_fired_idem c : set_fired (set_fired c) = set_fired c.
Proof. done. Qed.

(** A store that differs where the invariant of [inv] does not look. *)
Lemma inflight_same w w0 c :
  invs w0 !! inv = invs w !! inv ->
  (forall d, registered inv (nodes w0) d <-> registered inv (nodes w) d) ->
  (forall d, is_Some (nodes w !! d) -> is_Some (nodes w0 !! d)) ->
  count_event (EvComplete inv) (trace w0) = count_event (EvComplete inv) (trace w) ->
  inflight inv w c -> inflight inv w0 c.
Proof.
  intros Hi Hr Hn Hc [H1 H2 H3 H4 H5]. split.
  - by rewrite Hi.
  - by apply Hn.
  - by rewrite Hc.
  - intros d Hd. apply H4. by apply Hr.
  - intros Hf Hq. apply Hr. by apply H5.
Qed.

Lemma timed_same w w0 c :
  (forall q, (q, inv) ∈ timers w -> (q, inv) ∈ timers w0) ->
  timed inv w c -> timed inv w0 c.
Proof. intros Ht H Hf. destruct (H Hf) as [q Hq]. exists q. by apply Ht. Qed.

(** Writing the node [d]: the listeners decide. *)
Lemma registered_set_node (ns : list Node) (d : noderef) (nd nd' : Node) (i : invref) :
  ns !! d = Some nd ->
  (i ∈ listeners nd' <-> i ∈ listeners nd) ->
  forall d', registered i (<[d := nd']> ns) d' <-> registered i ns d'.
Proof.
  intros Hd Hl d'. unfold registered.
  assert (Hlt : (d < length ns)%nat) by by eapply lookup_lt_Some.
  destruct (decide (d' = d)) as [->|Hne].
  - rewrite list_lookup_insert_eq by done. rewrite Hd. split.
    + intros (x & [= <-] & Hx). exists nd. split; [done|]. by apply Hl.
    + intros (x & [= <-] & Hx). exists nd'. split; [done|]. by apply Hl.
  - by rewrite list_lookup_insert_ne.
Qed.

Lemma is_Some_set_node (ns : list Node) (d : noderef) (nd' : Node) d' :
  is_Some (ns !! d') -> is_Some (<[d := nd']> ns !! d').
Proof.
  intros H. apply lookup_lt_is_Some. rewrite length_insert. by apply lookup_lt_is_Some.
Qed.

Lemma inflight_set_node w d nd nd' c :
  nodes w !! d = Some nd ->
  (inv ∈ listeners nd' <-> inv ∈ listeners nd) ->
  inflight inv w c -> inflight inv (set_node d nd' w) c.
Proof.
  intros Hd Hl. apply inflight_same; simpl; try done.
  - by apply registered_set_node with nd.
  - intros d'. apply is_Some_set_node.
Qed.

End Inflight.

Section InflightRun.
Context (P : Platform) (inv : invref).

Lemma kept_same c w w0 :
  invs w0 = invs w -> nodes w0 = nodes w -> timers w0 = timers w ->
  count_event (EvComplete inv) (trace w0) = count_event (EvComplete inv) (trace w) ->
  kept inv c w -> kept inv c w0.
Proof.
  intros Hi Hn Ht Hc (c' & Hc' & Hf & Hd). exists c'. split; [done|]. split.
  - eapply inflight_same; [by rewrite Hi|by rewrite Hn|by rewrite Hn|done|done].
  - eapply timed_same; [|done]. by rewrite Ht.
Qed.

Lemma kept_log e c w :
  e ≠ EvComplete inv -> kept inv c w -> kept inv c (log e w).
Proof.
  intros He. apply kept_same; try done.
  rewrite count_event_log. rewrite bool_decide_eq_false_2 by done. lia.
Qed.

Lemma fired_cases c c' :
  c' = c \/ c' = set_fired c -> forall c'', c'' = c' \/ c'' = set_fired c' ->
  c'' = c \/ c'' = set_fired c.
Proof. intros [->| ->] c'' [->| ->]; auto. Qed.

Lemma fired_mono c c' : c' = c \/ c' = set_fired c -> fired c = true -> fired c' = true.
Proof. by intros [->| ->]. Qed.

Lemma kept_step (self : call -> World -> outcome) c0 c w w' :
  (forall c0 w w', outcome_is (self c0 w) w' -> handled inv c0 w w') ->
  (forall w c, handler_pre inv c0 w c) -> c0 ≠ Wrapped inv None ->
  kept inv c w -> outcome_is (self c0 w) w' -> kept inv c w'.
Proof.
  intros IH Hpre Hne (c1 & Hc1 & Hf & Hd) H.
  destruct (IH _ _ _ H c1 Hf (Hpre _ _) (λ _, Hd)) as (c2 & Hc2 & Hf2 & Hd2 & _).
  exists c2. split; [by eapply fired_cases|done].
Qed.

Lemma kept_handled c0 w w' :
  (forall c, inflight inv w c -> timed inv w c -> kept inv c w') ->
  (forall c c', handler_post inv c0 c c') -> c0 ≠ Wrapped inv None ->
  handled inv c0 w w'.
Proof.
  intros H Hpost Hne c Hf _ Hd.
  destruct (H c Hf (Hd Hne)) as (c' & Hc' & Hf' & Hd'). exists c'. auto.
Qed.

Lemma listeners_transition_node (nd : Node) (i : invref) (b : bool) obj v :
  i ≠ inv ->
  inv ∈ listeners (setCss obj (if b then addEventListener i (setAttribute "data-naboo" v nd)
                               else setAttribute "data-naboo" v nd))
  <-> inv ∈ listeners nd.
Proof.
  intros Hne. destruct b; simpl; [|done].
  case_bool_decide; [done|]. rewrite elem_of_app, list_elem_of_singleton.
  split; [|by left]. intros [Hin|Heq]; [done|]. by destruct Hne.
Qed.

Lemma transition_kept dom property opt c w w' :
  outcome_is (transition P dom property opt w) w' -> kept inv c w -> kept inv c w'.
Proof.
  unfold transition. intros H (c' & Hc' & Hf & Hd). exists c'. split; [done|].
  destruct dom as [d|]; [|apply outcome_is_Ok in H; by subst].
  destruct property as [kvs|v]; [|apply outcome_is_Ok in H; by subst].
  destruct (nodes w !! d) as [nd|] eqn:End; [|apply outcome_is_Throw in H; by subst].
  assert (Hlt : (inv < length (invs w))%nat).
  { eapply lookup_lt_Some. apply Hf. }
  destruct (collect P kvs [] []) as [[cssValues cssProperty]|].
  - apply outcome_is_Ok in H. subst. split.
    + eapply inflight_same; [| | | |exact Hf].
      * simpl. by rewrite lookup_app_l.
      * simpl. eapply registered_set_node; [exact End|].
        apply listeners_transition_node. lia.
      * simpl. intros d'. apply is_Some_set_node.
      * done.
    + eapply timed_same; [|done]. simpl. intros q Hq. apply elem_of_app. by left.
  - apply outcome_is_Throw in H. subst. split.
    + by apply (inflight_set_node inv w d nd).
    + done.
Qed.

End InflightRun.

Section InflightCalls.
Context (P : Platform) (inv : invref).
Context (self : call -> World -> outcome).
Context (IH : forall c0 w w', outcome_is (self c0 w) w' -> handled inv c0 w w').

Lemma kept_refl c w : inflight inv w c -> timed inv w c -> kept inv c w.
Proof. intros Hf Hd. exists c. auto. Qed.

Lemma kept_set_invs c w (l : list Invocation) :
  l !! inv = invs w !! inv -> kept inv c w -> kept inv c (set_invs l w).
Proof.
  intros Hl (c' & Hc' & Hf & Hd). exists c'. split; [done|]. split; [|done].
  by eapply inflight_same; [| | | |exact Hf].
Qed.

Lemma kept_set_node c w d nd nd' :
  nodes w !! d = Some nd -> (inv ∈ listeners nd' <-> inv ∈ listeners nd) ->
  kept inv c w -> kept inv c (set_node d nd' w).
Proof.
  intros Hd Hl (c' & Hc' & Hf & Ht). exists c'. split; [done|]. split; [|done].
  by apply inflight_set_node with nd.
Qed.

Lemma kept_set_timers c w (l : list (double * invref)) :
  (forall q, (q, inv) ∈ timers w -> (q, inv) ∈ l) ->
  kept inv c w -> kept inv c (set_timers l w).
Proof.
  intros Hl (c' & Hc' & Hf & Ht). exists c'. split; [done|]. split.
  - by eapply inflight_same; [| | | |exact Hf].
  - by eapply timed_same.
Qed.

Lemma kept_forEach {A} (g : A -> World -> outcome) (l : list A) c w w' :
  (forall x w1 w2, kept inv c w1 -> outcome_is (g x w1) w2 -> kept inv c w2) ->
  kept inv c w -> outcome_is (forEach g l w) w' -> kept inv c w'.
Proof.
  intros Hg Hk H. revert H. apply (forEach_inv (kept inv c)); [|done].
  intros x w1 w2 _. apply Hg.
Qed.

Lemma kept_self c0 c w w' :
  (forall w c, handler_pre inv c0 w c) -> c0 ≠ Wrapped inv None ->
  kept inv c w -> outcome_is (self c0 w) w' -> kept inv c w'.
Proof. intros. by eapply kept_step. Qed.

(** [complete], from the store in which [fired] has just been set. *)
Lemma complete_rest i ci c w w' :
  kept inv c (log (EvComplete i) (set_invs (<[i := set_fired ci]> (invs w)) w)) ->
  outcome_is (complete P self i ci w) w' -> kept inv c w'.
Proof.
  intros Hk H. unfold complete in H.
  match type of H with
  | outcome_is (match ?x with _ => _ end) _ => destruct x as [nd|] eqn:End
  end.
  2:{ apply outcome_is_Throw in H. by subst. }
  match type of H with
  | context [if ?b then _ else _] => destruct b
  end.
  - assert (Hk' : kept inv c
              (log (EvReset (inv_dom ci))
                 (set_node (inv_dom ci)
                    (setCss (cssReset P)
                       (setAttribute "data-naboo"
                          (of_number (Z.pred <$> to_number (getAttribute "data-naboo" nd))) nd))
                    (log (EvComplete i) (set_invs (<[i:=set_fired ci]> (invs w)) w))))).
    { apply kept_log; [done|]. by apply kept_set_node with nd. }
    destruct (inv_cb ci) as [cb|].
    + eapply kept_self; [| |exact Hk'|exact H]; done.
    + apply outcome_is_Ok in H. by subst.
  - assert (Hk' : kept inv c
              (set_node (inv_dom ci)
                 (setAttribute "data-naboo"
                    (of_number (Z.pred <$> to_number (getAttribute "data-naboo" nd))) nd)
                 (log (EvComplete i) (set_invs (<[i:=set_fired ci]> (invs w)) w)))).
    { by apply kept_set_node with nd. }
    destruct (inv_cb ci) as [cb|].
    + eapply kept_self; [| |exact Hk'|exact H]; done.
    + apply outcome_is_Ok in H. by subst.
Qed.

Lemma complete_other i ci c w w' :
  i ≠ inv -> kept inv c w ->
  outcome_is (complete P self i ci w) w' -> kept inv c w'.
Proof.
  intros Hne Hk. apply complete_rest.
  eapply kept_same; [| | | |apply (kept_set_invs c w (<[i:=set_fired ci]> (invs w)))]; try done.
  - rewrite count_event_log, bool_decide_eq_false_2 by congruence. simpl. lia.
  - by rewrite list_lookup_insert_ne.
Qed.

Lemma complete_self c w w' :
  invs w !! inv = Some c -> fired c = false -> is_Some (nodes w !! inv_dom c) ->
  count_event (EvComplete inv) (trace w) = 0%nat ->
  (forall d, ~ registered inv (nodes w) d) ->
  outcome_is (complete P self inv c w) w' ->
  exists c', c' = set_fired c /\ inflight inv w' c' /\ timed inv w' c'.
Proof.
  intros Hc Hf Hn Hcount Hreg H.
  assert (Hk : kept inv (set_fired c)
            (log (EvComplete inv) (set_invs (<[inv := set_fired c]> (invs w)) w))).
  { apply kept_refl; [|done]. split; simpl.
    - rewrite list_lookup_insert_eq; [done|]. by eapply lookup_lt_Some.
    - done.
    - change (count_event (EvComplete inv) (trace w ++ [EvComplete inv]))
        with (count_event (EvComplete inv) (trace (log (EvComplete inv) w))).
      rewrite count_event_log, Hcount, bool_decide_eq_true_2 by done. done.
    - intros d Hd. by apply Hreg in Hd.
    - done. }
  destruct (complete_rest inv c (set_fired c) w w' Hk H) as (c' & Hc' & Hf' & Hd').
  exists c'. split; [|done]. by destruct Hc' as [->| ->].
Qed.

End InflightCalls.

Section InflightSpec.
Context (P : Platform) (inv : invref).

Ltac stop H :=
  first [ apply outcome_is_Ok in H | apply outcome_is_Throw in H ]; subst; try done.

Ltac scrutinee H x :=
  match type of H with
  | outcome_is (match ?y with _ => _ end) _ => destruct y as [x|] eqn:?
  end.

Lemma timed_filter i w c :
  i ≠ inv -> timed inv w c ->
  timed inv (set_timers (filter (λ t : double * invref, t.2 ≠ i) (timers w)) w) c.
Proof.
  intros Hne. apply timed_same. simpl. intros q Hq.
  apply list_elem_of_filter. split; [simpl; congruence|done].
Qed.

Lemma pending_timer w q :
  (q, inv) ∈ timers w -> existsb (λ t : double * nat, (t.2 =? inv)%nat) (timers w) = true.
Proof.
  intros Hq. apply existsb_exists. exists (q, inv). split.
  - by apply list_elem_of_In.
  - simpl. apply Nat.eqb_refl.
Qed.

Lemma removed_listener (i : invref) (nd : Node) :
  i ≠ inv -> inv ∈ listeners (removeEventListener i nd) <-> inv ∈ listeners nd.
Proof.
  intros Hne. simpl. rewrite list_elem_of_filter.
  split; [by intros [_ Hin]|]. intros Hin. split; [|done]. intros Heq. by destruct Hne.
Qed.

Lemma unregistered c w d nd :
  inflight inv w c -> nodes w !! d = Some nd -> d = inv_dom c ->
  forall d', ~ registered inv (nodes (set_node d (removeEventListener inv nd) w)) d'.
Proof.
  intros Hf Hd -> d' (nd' & Hd' & Hin). simpl in Hd'.
  assert (Hlt : (inv_dom c < length (nodes w))%nat) by by eapply lookup_lt_Some.
  destruct (decide (d' = inv_dom c)) as [->|Hne].
  - rewrite list_lookup_insert_eq in Hd' by done. injection Hd' as <-.
    simpl in Hin. apply list_elem_of_filter in Hin as [Hin _]. done.
  - rewrite list_lookup_insert_ne in Hd' by done.
    destruct (if_where _ _ _ Hf d') as [Heq _]; [by exists nd'|done].
Qed.

Lemma wrapped_handled (self : call -> World -> outcome) i ev w w' :
  (forall c0 w w', outcome_is (self c0 w) w' -> handled inv c0 w w') ->
  outcome_is (wrappedCallback P self i ev w) w' -> handled inv (Wrapped i ev) w w'.
Proof.
  intros IH H c Hf Hpre Hd. unfold wrappedCallback in H.
  destruct (decide (i = inv)) as [->|Hne].
  - rewrite (if_closure _ _ _ Hf) in H.
    destruct ev as [e|].
    + assert (Hreg : registered inv (nodes w) (currentTarget e)) by by apply Hpre.
      destruct (if_where _ _ _ Hf _ Hreg) as [Hcur Hfired].
      assert (Ht : timed inv w c) by by apply Hd.
      destruct (double_eq (elapsedTime e) (elapsed c)) eqn:Eq; simpl in H.
      2:{ stop H. exists c. split; [by left|]. split; [done|]. split; [done|].
          simpl. intros _ Heq. congruence. }
      destruct (target e =? currentTarget e)%nat eqn:Et; simpl in H.
      2:{ stop H. exists c. split; [by left|]. split; [done|]. split; [done|].
          simpl. intros _ _ Heq. apply Nat.eqb_neq in Et. done. }
      apply Nat.eqb_eq in Et.
      destruct Hreg as (nd & Hnd & Hin). rewrite Et, Hnd in H.
      apply complete_self in H as (c' & -> & Hf' & Hd').
      * exists (set_fired c). split; [by right|]. split; [done|]. split; [done|].
        simpl. done.
      * done.
      * apply Hf.
      * done.
      * apply is_Some_set_node, Hf.
      * cbn [trace set_node set_nodes]. by rewrite (if_count _ _ _ Hf), Hfired.
      * by apply (unregistered c).
    + assert (Hfired : fired c = false) by by apply Hpre.
      destruct (if_node _ _ _ Hf) as [nd Hnd]. rewrite Hnd in H.
      apply complete_self in H as (c' & -> & Hf' & Hd').
      * exists (set_fired c). split; [by right|]. split; [done|]. split; [done|].
        simpl. done.
      * done.
      * apply Hf.
      * done.
      * apply is_Some_set_node, Hf.
      * cbn [trace set_node set_nodes]. by rewrite (if_count _ _ _ Hf), Hfired.
      * by apply (unregistered c).
  - assert (Ht : timed inv w c) by (apply Hd; congruence).
    assert (Hk : kept inv c w) by by apply kept_refl.
    assert (Hpost : forall c', handler_post inv (Wrapped i ev) c c').
    { intros c'. destruct ev; simpl; intros ?; congruence. }
    assert (Hgoal : kept inv c w' -> exists c', (c' = c \/ c' = set_fired c)
               /\ inflight inv w' c' /\ timed inv w' c'
               /\ handler_post inv (Wrapped i ev) c c').
    { intros (c' & ? & ? & ?). exists c'. auto. }
    apply Hgoal. clear Hgoal Hpost.
    destruct (invs w !! i) as [ci|]; [|by stop H].
    destruct ev as [e|].
    + destruct (negb _); [by stop H|]. destruct (negb _); [by stop H|].
      destruct (nodes w !! target e) as [nd|] eqn:End; [|by stop H].
      eapply complete_other; [done|done| |exact H].
      apply kept_set_node with nd; [done| |done]. by apply removed_listener.
    + destruct (nodes w !! inv_dom ci) as [nd|] eqn:End; [|by stop H].
      eapply complete_other; [done|done| |exact H].
      apply kept_set_node with nd; [done| |done]. by apply removed_listener.
Qed.

End InflightSpec.

Section InflightRunCall.
Context (P : Platform) (inv : invref).

Ltac stop H :=
  first [ apply outcome_is_Ok in H | apply outcome_is_Throw in H ]; subst; try done.

Lemma fire_timer_handled (self : call -> World -> outcome) i w w' :
  (forall c0 w w', outcome_is (self c0 w) w' -> handled inv c0 w w') ->
  outcome_is (fire_timer self i w) w' -> handled inv (Act (FireTimer i)) w w'.
Proof.
  intros IH H c Hf _ Hd. assert (Ht : timed inv w c) by by apply Hd.
  unfold fire_timer in H.
  destruct (existsb (λ t : double * nat, (t.2 =? i)%nat) (timers w)) eqn:Ex.
  - set (w1 := set_timers (filter (λ t : double * invref, t.2 ≠ i) (timers w)) w) in *.
    assert (Hf1 : inflight inv w1 c) by by eapply inflight_same; [| | | |exact Hf].
    change (invs w1) with (invs w) in H.
    destruct (decide (i = inv)) as [->|Hne].
    + rewrite (if_closure _ _ _ Hf) in H. destruct (fired c) eqn:Efired.
      * stop H. exists c. split; [by left|]. split; [done|].
        split; [intros ?; congruence|]. simpl. by intros _.
      * apply IH in H.
        assert (Hpre : handler_pre inv (Wrapped inv None) w1 c) by by intros _.
        assert (Hno : Wrapped inv None ≠ Wrapped inv None -> timed inv w1 c) by done.
        destruct (H c Hf1 Hpre Hno) as (c' & Hc' & Hf' & Hd' & Hpost).
        exists c'. split; [done|]. split; [done|]. split; [done|].
        simpl. intros _. by apply Hpost.
    + assert (Ht1 : timed inv w1 c) by by apply timed_filter.
      assert (Hk : kept inv c w1) by by apply kept_refl.
      assert (Hgoal : kept inv c w' -> exists c', (c' = c \/ c' = set_fired c)
                 /\ inflight inv w' c' /\ timed inv w' c'
                 /\ handler_post inv (Act (FireTimer i)) c c').
      { intros (c' & ? & ? & ?). exists c'. split; [done|]. split; [done|].
        split; [done|]. simpl. intros ?. congruence. }
      apply Hgoal.
      destruct (invs w !! i) as [ci|]; [|by stop H].
      destruct (fired ci); [by stop H|].
      apply IH in H.
      assert (Hpre : handler_pre inv (Wrapped i None) w1 c) by (simpl; congruence).
      destruct (H c Hf1 Hpre (λ _, Ht1)) as (c' & Hc' & Hf' & Hd' & _).
      exists c'. auto.
  - stop H. exists c. split; [by left|]. split; [done|]. split; [done|].
    simpl. intros ->. destruct (fired c) eqn:Efired; [done|].
    destruct (Ht Efired) as [q Hq]. apply pending_timer in Hq. congruence.
Qed.

Lemma dispatch_handled (self : call -> World -> outcome) cur tgt q w w' :
  (forall c0 w w', outcome_is (self c0 w) w' -> handled inv c0 w w') ->
  outcome_is (dispatch self cur tgt q w) w' -> handled inv (Act (Dispatch cur tgt q)) w w'.
Proof.
  intros IH H c Hf _ Hd. assert (Ht : timed inv w c) by by apply Hd.
  unfold dispatch in H.
  destruct (nodes w !! cur) as [nd|] eqn:End.
  2:{ stop H. exists c. split; [by left|]. split; [done|]. split; [done|].
      simpl. intros -> _ _ _. destruct (if_node _ _ _ Hf) as [x Hx]. congruence. }
  set (e := {| target := tgt; currentTarget := cur; elapsedTime := q |}) in *.
  set (g := λ (i : invref) (w : World),
              match nodes w !! cur with
              | Some nd' =>
                  if bool_decide (i ∈ listeners nd') then self (Wrapped i (Some e)) w
                  else Ok w
              | None => Ok w
              end) in *.
  assert (Hmatch : cur = inv_dom c -> tgt = inv_dom c ->
            double_eq q (elapsed c) = true -> (0 < inv_duration c)%Q ->
            inv ∈ listeners nd \/ fired c = true).
  { intros -> _ _ Hpos. destruct (fired c) eqn:Efired; [by right|left].
    destruct (if_listening _ _ _ Hf Efired Hpos) as (x & Hx & Hin). congruence. }
  assert (Hloop : forall l w1 c1,
            (c1 = c \/ c1 = set_fired c) -> inflight inv w1 c1 -> timed inv w1 c1 ->
            outcome_is (deliver g l w1) w' ->
            exists c', (c' = c \/ c' = set_fired c) /\ inflight inv w' c' /\ timed inv w' c'
              /\ (inv ∈ l \/ fired c1 = true ->
                  cur = inv_dom c -> tgt = inv_dom c ->
                  double_eq q (elapsed c) = true ->
                  (0 < inv_duration c)%Q -> fired c' = true)).
  { clear H. induction l as [|x l IHl]; intros w1 c1 Hc1 Hf1 Ht1 H; simpl in H.
    - stop H. exists c1. split; [auto|]. split; [done|]. split; [done|].
      intros [Hin|Hfired] _ _ _ _; [by apply not_elem_of_nil in Hin|done].
    - assert (Hx : forall w2, outcome_is (g x w1) w2 ->
                exists c2, (c2 = c1 \/ c2 = set_fired c1) /\ inflight inv w2 c2
                  /\ timed inv w2 c2
                  /\ (x = inv -> cur = inv_dom c -> tgt = inv_dom c ->
                      double_eq q (elapsed c) = true ->
                      (0 < inv_duration c)%Q -> fired c2 = true)).
      { intros w2 Hg. unfold g in Hg.
        assert (Hstatic : inv_dom c1 = inv_dom c /\ inv_duration c1 = inv_duration c
                          /\ inv_delay c1 = inv_delay c).
        { by destruct Hc1 as [->| ->]. }
        destruct Hstatic as (Hs1 & Hs2 & Hs3).
        destruct (nodes w1 !! cur) as [nd'|] eqn:End'.
        - case_bool_decide as Hreg.
          + apply IH in Hg.
            assert (Hpre : handler_pre inv (Wrapped x (Some e)) w1 c1).
            { simpl. intros ->. by exists nd'. }
            destruct (Hg c1 Hf1 Hpre (λ _, Ht1)) as (c2 & Hc2 & Hf2 & Ht2 & Hpost).
            exists c2. split; [done|]. split; [done|]. split; [done|]. simpl in Hpost.
            intros -> -> -> Hq _. apply Hpost; [done| |done].
            unfold elapsed. by rewrite Hs2, Hs3.
          + stop Hg. exists c1. split; [auto|]. split; [done|]. split; [done|].
            intros -> -> _ _ Hpos. destruct (fired c1) eqn:Efired; [done|].
            destruct (if_listening _ _ _ Hf1 Efired) as (y & Hy & Hin).
            { by rewrite Hs2. }
            rewrite Hs1 in Hy. congruence.
        - stop Hg. exists c1. split; [auto|]. split; [done|]. split; [done|].
          intros -> -> _ _ _. destruct (if_node _ _ _ Hf1) as [y Hy].
          rewrite Hs1 in Hy. congruence. }
      destruct (g x w1) as [w2|w2|] eqn:Eg; [| |by apply outcome_is_OutOfFuel in H].
      + destruct (Hx w2) as (c2 & Hc2 & Hf2 & Ht2 & Hpost2); [by left|].
        destruct (IHl w2 c2) as (c' & Hc' & Hf' & Ht' & Hpost'); try done.
        { by eapply fired_cases. }
        exists c'. split; [done|]. split; [done|]. split; [done|].
        intros [Hin|Hfired] H1 H2 H3 H4.
        * apply elem_of_cons in Hin as [<-|Hin]; [|by apply Hpost'; auto].
          apply Hpost'; auto.
        * apply Hpost'; auto. right. by eapply fired_mono.
      + destruct (Hx w2) as (c2 & Hc2 & Hf2 & Ht2 & Hpost2); [by right|].
        destruct (IHl w2 c2) as (c' & Hc' & Hf' & Ht' & Hpost'); try done.
        { by eapply fired_cases. }
        exists c'. split; [done|]. split; [done|]. split; [done|].
        intros [Hin|Hfired] H1 H2 H3 H4.
        * apply elem_of_cons in Hin as [<-|Hin]; [|by apply Hpost'; auto].
          apply Hpost'; auto.
        * apply Hpost'; auto. right. by eapply fired_mono. }
  destruct (Hloop (listeners nd) w c) as (c' & Hc' & Hf' & Ht' & Hpost); try done; [by left|].
  exists c'. split; [done|]. split; [done|]. split; [done|]. simpl. intros H1 H2 H3 H4. apply Hpost; auto.
Qed.

End InflightRunCall.

Section InflightAll.
Context (P : Platform) (inv : invref).

Ltac stop H :=
  first [ apply outcome_is_Ok in H | apply outcome_is_Throw in H ]; subst; try done.

Ltac quiet c Hk :=
  apply kept_handled; [|by intros|discriminate];
  intros c Hfq Htq; assert (Hk : kept inv c _) by (by apply kept_refl);
  clear Hfq Htq.

Lemma run_call_handled (self : call -> World -> outcome) :
  (forall c0 w w', outcome_is (self c0 w) w' -> handled inv c0 w w') ->
  forall c0 w w', outcome_is (run_call P self c0 w) w' -> handled inv c0 w w'.
Proof.
  intros IH c0 w w' H.
  destruct c0 as [[s fn|s|s|dom prop opt|i|cur tgt q]|s name|f|s [args|fn|dom prop opt]|i ev];
    simpl in H.
  - (* start *)
    quiet c Hk. unfold start in H. destruct (seqs w !! s) as [o|]; [|by stop H].
    apply outcome_is_bind in H.
    assert (Hk1 : kept inv c (match fn with
                              | Some f => set_seq s (on "end" f o) w
                              | None => w
                              end)).
    { destruct fn; [|done]. by eapply kept_same; [| | | |exact Hk]. }
    destruct H as [H|(w1 & H1 & H)].
    + eapply (kept_self inv self IH); [| |exact Hk1|by right]; done.
    + eapply (kept_self inv self IH); [| | |exact H]; try done.
      eapply (kept_self inv self IH); [| |exact Hk1|by left]; done.
  - (* next *)
    quiet c Hk. unfold next in H. destruct (seqs w !! s) as [o|]; [|by stop H].
    destruct (canceled o); [by stop H|].
    assert (Hk1 : kept inv c (log (EvNext s) (set_seq s (set_index (_index o + 1) o) w))).
    { apply kept_log; [done|]. by eapply kept_same; [| | | |exact Hk]. }
    destruct (Z.of_nat (length (steps o)) <=? _index o + 1).
    + eapply (kept_self inv self IH); [| |exact Hk1|exact H]; done.
    + destruct (step_at o (_index o + 1)) as [st|]; [|by stop H].
      eapply (kept_self inv self IH); [| | |exact H]; try done.
      by apply kept_log.
  - (* cancel *)
    quiet c Hk. unfold cancel_at in H. destruct (seqs w !! s) as [o|]; [|by stop H].
    stop H. by eapply kept_same; [| | | |exact Hk].
  - (* transition *)
    quiet c Hk. by eapply transition_kept.
  - eapply fire_timer_handled; [exact IH|exact H].
  - eapply dispatch_handled; [exact IH|exact H].
  - (* trigger *)
    quiet c Hk. unfold trigger in H. destruct (seqs w !! s) as [o|]; [|by stop H].
    assert (Hk1 : kept inv c (log (EvTrigger s name) w)) by by apply kept_log.
    destruct (get_handlers o name) as [handlers| |]; [|by stop H|by stop H].
    eapply kept_forEach; [|exact Hk1|exact H].
    intros fn w1 w2 Hw1 Hg. eapply (kept_self inv self IH); [| |exact Hw1|exact Hg]; done.
  - (* call_function *)
    quiet c Hk. unfold call_function in H.
    destruct (funs w !! f) as [[body|n outer|cb outer]|]; [| | |by stop H].
    + assert (Hk1 : kept inv c (log (EvCall f) w)) by by apply kept_log.
      eapply kept_forEach; [|exact Hk1|exact H].
      intros a w1 w2 Hw1 Hg. eapply (kept_self inv self IH); [| |exact Hw1|exact Hg]; done.
    + destruct (cells w !! n) as [v|]; [|by stop H].
      assert (Hk1 : kept inv c (set_cells (<[n:=v - 1]> (cells w)) w)).
      { by eapply kept_same; [| | | |exact Hk]. }
      destruct (v =? 0); [|by stop H].
      eapply (kept_self inv self IH); [| |exact Hk1|exact H]; done.
    + apply outcome_is_bind in H.
      assert (H0 : forall w1, outcome_is (match cb with
                                | VFun g => self (Apply g) w
                                | _ => if falsy cb then Ok w else Throw w
                                end) w1 -> kept inv c w1).
      { intros w1 H1.
        destruct cb; try (eapply (kept_self inv self IH); [| |exact Hk|exact H1]; done);
          simpl in H1; try destruct (z =? 0); try destruct b; try destruct (bool_decide _);
          simpl in H1; by stop H1. }
      destruct H as [H|(w1 & H1 & H)].
      * apply H0. by right.
      * eapply (kept_self inv self IH); [| | |exact H]; try done. apply H0. by left.
  - (* plugin p *)
    quiet c Hk. unfold plugin_p, module_arguments in H. by stop H.
  - (* plugin done *)
    quiet c Hk. unfold plugin_done in H.
    eapply (kept_self inv self IH); [| |exact Hk|exact H]; done.
  - (* plugin animate *)
    quiet c Hk. unfold plugin_animate in H. destruct opt as [r|]; cbv beta iota zeta in H.
    + destruct (opts w !! r) as [o|]; [|by stop H].
      eapply transition_kept; [exact H|]. by eapply kept_same; [| | | |exact Hk].
    + match type of H with
      | outcome_is (match ?x with _ => _ end) _ => destruct x as [o|]
      end.
      * eapply transition_kept; [exact H|]. by eapply kept_same; [| | | |exact Hk].
      * stop H. by eapply kept_same; [| | | |exact Hk].
  - eapply wrapped_handled; [exact IH|exact H].
Qed.

Lemma run_handled fuel c0 w w' :
  outcome_is (run P fuel c0 w) w' -> handled inv c0 w w'.
Proof.
  apply (run_spec P (handled inv)). intros self IH c1 w1 w1'. by apply run_call_handled.
Qed.

(** Across any script the invariant of [inv] holds, and [fired] is never
    reset. *)
Lemma run_script_kept fuel script c w w' :
  inflight inv w c -> timed inv w c ->
  run_script P fuel script w = Some w' -> kept inv c w'.
Proof.
  intros Hf Ht. assert (Hk : kept inv c w) by by apply kept_refl. clear Hf Ht.
  revert w Hk. induction script as [|a script IHs]; intros w Hk H; simpl in H.
  - by injection H as <-.
  - destruct Hk as (c1 & Hc1 & Hf1 & Ht1).
    assert (Hstep : forall w1, outcome_is (run P fuel (Act a) w) w1 -> kept inv c w1).
    { intros w1 H1. apply run_handled in H1.
      destruct (H1 c1 Hf1 I (λ _, Ht1)) as (c2 & Hc2 & Hf2 & Ht2 & _).
      exists c2. split; [by eapply fired_cases|done]. }
    destruct (run P fuel (Act a) w) as [w1|w1|]; [| |discriminate].
    + apply (IHs w1); [|done]. apply Hstep. by left.
    + apply (IHs w1); [|done]. apply Hstep. by right.
Qed.

End InflightAll.

Section Completion.
Context (P : Platform).

Lemma transition_creates d kvs opt w w1 :
  transition P (Some d) (PropObject kvs) opt w = Ok w1 ->
  exists nd cssValues cssProperty,
    nodes w !! d = Some nd /\ collect P kvs [] [] = Some (cssValues, cssProperty)
    /\ w1 = set_timers
              (timers w ++
                 [(fallback_timeout (inv_duration (new_invocation P d (get_options opt w)))
                     (inv_delay (new_invocation P d (get_options opt w))),
                   length (invs w))])
              (set_invs (invs w ++ [new_invocation P d (get_options opt w)])
                 (set_node d
                    (transition_node P (length (invs w)) (get_options opt w) nd
                       cssValues cssProperty) w)).
Proof.
  unfold transition. intros H.
  destruct (nodes w !! d) as [nd|]; [|discriminate].
  destruct (collect P kvs [] []) as [[cssValues cssProperty]|]; [|discriminate].
  injection H as <-. by exists nd, cssValues, cssProperty.
Qed.

(** [nabooNum !== +nabooNum] holds for whatever [getAttribute] answers, so
    the count restarts from 0 in every call. *)
Lemma counter_restarts (nd : Node) :
  let nabooNum := getAttribute "data-naboo" nd in
  (if negb (strict_eq nabooNum (of_number (to_number nabooNum))) then VNum 0 else nabooNum)
  = VNum 0.
Proof.
  unfold getAttribute. destruct (attrs nd !! "data-naboo") as [t|]; [|reflexivity].
  cbv zeta. by destruct (to_number (VStr t)).
Qed.

Lemma transition_counts_from_zero d kvs opt w w1 :
  transition P (Some d) (PropObject kvs) opt w = Ok w1 ->
  exists nd1, nodes w1 !! d = Some nd1 /\ attrs nd1 !! "data-naboo" = Some "1".
Proof.
  intros H. apply transition_creates in H as (nd & cssValues & cssProperty & Hnd & _ & ->).
  eexists. split.
  - simpl. apply list_lookup_insert_eq. by eapply lookup_lt_Some.
  - unfold transition_node. rewrite counter_restarts.
    destruct (0 <? clamp_duration P (resolve_duration (opt_duration (get_options opt w))));
      simpl; by rewrite lookup_insert_eq.
Qed.

Lemma positive_seconds (z : Z) : (0 < z # 1000)%Q <-> 0 < z.
Proof. unfold Qlt. simpl. lia. Qed.

Lemma transition_inflight d kvs opt w w1 :
  count_event (EvComplete (length (invs w))) (trace w) = 0%nat ->
  (forall d', ~ registered (length (invs w)) (nodes w) d') ->
  transition P (Some d) (PropObject kvs) opt w = Ok w1 ->
  let c := new_invocation P d (get_options opt w) in
  inflight (length (invs w)) w1 c /\ timed (length (invs w)) w1 c
  /\ (fallback_timeout (inv_duration c) (inv_delay c), length (invs w)) ∈ timers w1.
Proof.
  intros Hcount Hreg H c.
  apply transition_creates in H as (nd & cssValues & cssProperty & Hnd & _ & ->).
  fold c. assert (Hlt : (d < length (nodes w))%nat) by by eapply lookup_lt_Some.
  assert (Htimer : (fallback_timeout (inv_duration c) (inv_delay c), length (invs w))
                   ∈ timers w ++ [(fallback_timeout (inv_duration c) (inv_delay c),
                                   length (invs w))]).
  { apply elem_of_app. right. by apply list_elem_of_singleton. }
  split; [|split; [|done]].
  - split; simpl.
    + by rewrite lookup_app_r, Nat.sub_diag.
    + apply lookup_lt_is_Some. by rewrite length_insert.
    + done.
    + intros d' (nd' & Hd' & Hin). split; [|done].
      destruct (decide (d' = d)) as [|Hne]; [done|].
      rewrite list_lookup_insert_ne in Hd' by done.
      destruct (Hreg d'). by exists nd'.
    + intros _ Hpos.
      assert (Hz : 0 < clamp_duration P (resolve_duration (opt_duration (get_options opt w)))).
      { apply positive_seconds. exact Hpos. }
      apply Z.ltb_lt in Hz.
      eexists. split; [by apply list_lookup_insert_eq|].
      unfold transition_node. rewrite Hz. simpl.
      case_bool_decide as Hin; [done|]. apply elem_of_app. right.
      by apply list_elem_of_singleton.
  - intros _. by eexists.
Qed.

Lemma run_script_app fuel s1 s2 w w2 :
  run_script P fuel (s1 ++ s2) w = Some w2 ->
  exists w1, run_script P fuel s1 w = Some w1 /\ run_script P fuel s2 w1 = Some w2.
Proof.
  revert w. induction s1 as [|a s1 IH]; intros w H; simpl in *.
  - by exists w.
  - destruct (run P fuel (Act a) w) as [w'|w'|]; [| |discriminate]; by apply IH.
Qed.

(** After one more action that brings the handler of [inv] to run, and
    whatever follows, its body has run exactly once. *)
Lemma completed_after fuel inv a script c w w' :
  kept inv c w ->
  (forall c1 c2, (c1 = c \/ c1 = set_fired c) ->
     handler_post inv (Act a) c1 c2 -> fired c2 = true) ->
  run_script P fuel (a :: script) w = Some w' ->
  count_event (EvComplete inv) (trace w') = 1%nat.
Proof.
  intros (c1 & Hc1 & Hf1 & Ht1) Hpost H. simpl in H.
  assert (Hstep : forall w1, outcome_is (run P fuel (Act a) w) w1 ->
            run_script P fuel script w1 = Some w' ->
            count_event (EvComplete inv) (trace w') = 1%nat).
  { intros w1 H1 H2. apply (run_handled P inv) in H1.
    destruct (H1 c1 Hf1 I (λ _, Ht1)) as (c2 & Hc2 & Hf2 & Ht2 & Hp).
    apply Hpost in Hp; [|done].
    destruct (run_script_kept P inv fuel script c2 w1 w' Hf2 Ht2 H2)
      as (c3 & Hc3 & Hf3 & _).
    rewrite (if_count _ _ _ Hf3). by rewrite (fired_mono c2 c3 Hc3 Hp). }
  destruct (run P fuel (Act a) w) as [w1|w1|]; [| |discriminate].
  - apply (Hstep w1); [by left|done].
  - apply (Hstep w1); [by right|done].
Qed.

Lemma plain_callback_returns c w w0 k :
  plain_callback w c = true -> funs w0 = funs w -> seqs w0 = seqs w ->
  exists w', match inv_cb c with
             | Some cb => run P (S (S k)) (Apply cb) w0
             | None => Ok w0
             end = Ok w'.
Proof.
  unfold plain_callback. intros H Hfuns Hseqs.
  destruct (inv_cb c) as [f|]; [|by eexists].
  rewrite run_S. cbn [run_call]. unfold call_function. rewrite Hfuns.
  destruct (funs w !! f) as [[[|a body]|n outer|cb outer]|]; try discriminate.
  - by eexists.
  - apply andb_true_iff in H as [Hcb Hs].
    assert (Hfirst : match cb with
                     | VFun g => run P (S k) (Apply g) w0
                     | _ => if falsy cb then Ok w0 else Throw w0
                     end = Ok w0).
    { destruct cb; try done; by rewrite Hcb. }
    rewrite Hfirst. cbn [bind]. rewrite run_S. cbn [run_call]. unfold next.
    rewrite Hseqs. destruct (seqs w !! outer) as [o|]; [|discriminate].
    rewrite Hs. by eexists.
Qed.

Lemma complete_returns inv c w k :
  is_Some (nodes w !! inv_dom c) -> plain_callback w c = true ->
  exists w', complete P (run P (S (S k))) inv c w = Ok w'.
Proof.
  intros [nd Hnd] Hcb. unfold complete. cbn [nodes log set_invs]. rewrite Hnd.
  case_bool_decide; by eapply plain_callback_returns.
Qed.

Lemma wrapped_returns inv c w k :
  invs w !! inv = Some c -> is_Some (nodes w !! inv_dom c) -> plain_callback w c = true ->
  exists w', run P (S (S (S k))) (Wrapped inv None) w = Ok w'.
Proof.
  intros Hc [nd Hnd] Hcb. rewrite run_S. cbn [run_call]. unfold wrappedCallback.
  rewrite Hc, Hnd. apply complete_returns; [|done].
  simpl. rewrite list_lookup_insert_eq; [by eexists|]. by eapply lookup_lt_Some.
Qed.

Lemma fire_timer_returns inv c w fuel :
  invs w !! inv = Some c -> is_Some (nodes w !! inv_dom c) -> plain_callback w c = true ->
  (4 <= fuel)%nat ->
  exists w', run P fuel (Act (FireTimer inv)) w = Ok w'.
Proof.
  intros Hc Hnd Hcb Hfuel. destruct fuel as [|[|[|[|k]]]]; try lia.
  rewrite run_S. cbn [run_call]. unfold fire_timer.
  destruct (existsb (λ t, (t.2 =? inv)%nat) (timers w)); [|by eexists].
  cbn [invs set_timers]. rewrite Hc. destruct (fired c); [by eexists|].
  by eapply wrapped_returns.
Qed.

Lemma dispatch_returns inv c nd w q fuel :
  invs w !! inv = Some c -> nodes w !! inv_dom c = Some nd -> listeners nd = [inv] ->
  plain_callback w c = true -> (4 <= fuel)%nat ->
  exists w', run P fuel (Act (Dispatch (inv_dom c) (inv_dom c) q)) w = Ok w'.
Proof.
  intros Hc Hnd Hl Hcb Hfuel. destruct fuel as [|[|[|[|k]]]]; try lia.
  rewrite run_S. cbn [run_call]. unfold dispatch. rewrite Hnd, Hl. cbn [deliver].
  rewrite Hnd, Hl, bool_decide_eq_true_2 by by apply list_elem_of_singleton.
  rewrite run_S. cbn [run_call]. unfold wrappedCallback. rewrite Hc.
  cbn [elapsedTime target currentTarget]. rewrite Nat.eqb_refl, Hnd.
  destruct (double_eq q (elapsed c)); cbn [negb]; [|by eexists].
  destruct (complete_returns inv c
              (set_node (inv_dom c) (removeEventListener inv nd) w) k) as [w' Hw']; [|done|].
  { simpl. rewrite list_lookup_insert_eq; [by eexists|]. by eapply lookup_lt_Some. }
  rewrite Hw'. by eexists.
Qed.

Lemma transition_listens d kvs opt w w1 nd :
  transition P (Some d) (PropObject kvs) opt w = Ok w1 ->
  nodes w !! d = Some nd -> listeners nd = [] ->
  (0 < inv_duration (new_invocation P d (get_options opt w)))%Q ->
  exists nd1, nodes w1 !! d = Some nd1 /\ listeners nd1 = [length (invs w)].
Proof.
  intros H Hnd Hl Hpos.
  apply transition_creates in H as (nd' & cssValues & cssProperty & Hnd' & _ & ->).
  rewrite Hnd in Hnd'. injection Hnd' as <-.
  assert (Hz : 0 < clamp_duration P (resolve_duration (opt_duration (get_options opt w)))).
  { apply positive_seconds. exact Hpos. }
  apply Z.ltb_lt in Hz.
  eexists. split.
  - simpl. apply list_lookup_insert_eq. by eapply lookup_lt_Some.
  - unfold transition_node. rewrite Hz. simpl. by rewrite Hl.
Qed.

End Completion.


Section Css.
Context (P : Platform).

Lemma tool_off_false : tool_off P = false.
Proof. reflexivity. Qed.

Lemma clamp_duration_max ms : clamp_duration P ms = Z.max ms 0.
Proof. reflexivity. Qed.

Lemma resolve_delay_parse v :
  resolve_delay v = match parseInt v with Some z => z | None => 0 end.
Proof.
  unfold resolve_delay, or_default. destruct (parseInt v) as [z|]; [|done].
  destruct (z =? 0) eqn:E; [|done]. apply Z.eqb_eq in E. by subst.
Qed.

Lemma foldl_declarations (css : list (string * jsval)) (st : gmap string string) name :
  (forall kv, kv ∈ css -> is_removal kv.2 = false) ->
  foldl (λ st kv, <[dasherize kv.1 := to_string kv.2]> st) st css !! name =
  match declared name css with
  | Some v => Some (to_string v)
  | None => st !! name
  end.
Proof.
  revert st. induction css as [|kv css IH]; intros st Hall; simpl; [done|].
  rewrite IH by (intros x Hx; apply Hall; by right).
  destruct (declared name css) as [v|]; [done|].
  rewrite (Hall kv) by by left. simpl. rewrite andb_true_r.
  case_bool_decide as Hk.
  - subst. by rewrite lookup_insert_eq.
  - by rewrite lookup_insert_ne.
Qed.

Lemma declared_filter name obj :
  declared name (filter (λ kv, is_removal kv.2 = false) obj) = declared name obj.
Proof.
  induction obj as [|kv obj IH]; [done|].
  rewrite filter_cons. destruct (decide (is_removal kv.2 = false)) as [Hk|Hk]; simpl.
  - by rewrite IH.
  - rewrite IH. destruct (declared name obj); [done|].
    apply not_false_is_true in Hk. rewrite Hk. simpl. by rewrite andb_false_r.
Qed.

(** The declaration that [setCss] leaves for a name the object declares. *)
Lemma setCss_declared name obj nd v :
  declared name obj = Some v -> style (setCss obj nd) !! name = Some (to_string v).
Proof.
  intros Hd. unfold setCss. simpl. rewrite foldl_declarations.
  - by rewrite declared_filter, Hd.
  - intros kv Hkv. by apply list_elem_of_filter in Hkv as [? _].
Qed.

Lemma setCss_declared_text name obj nd (t : string) :
  declared name obj = Some (VStr t) -> style (setCss obj nd) !! name = Some t.
Proof. apply setCss_declared. Qed.

Lemma declared_obj_set_other name k v obj :
  dasherize k ≠ name -> declared name (obj_set k v obj) = declared name obj.
Proof.
  intros Hne. induction obj as [|[k' v'] obj IH]; simpl.
  - by rewrite bool_decide_eq_false_2.
  - destruct (decide (k' = k)) as [->|Hk].
    + rewrite bool_decide_eq_true_2 by done. simpl.
      destruct (declared name obj); [done|].
      by rewrite !bool_decide_eq_false_2.
    + rewrite bool_decide_eq_false_2 by done. simpl. by rewrite IH.
Qed.

Lemma mentions_obj_set name k v obj :
  mentions name (obj_set k v obj) = mentions name obj || bool_decide (dasherize k = name).
Proof.
  unfold mentions. induction obj as [|[k' v'] obj IH]; simpl.
  - by rewrite orb_false_r.
  - destruct (decide (k' = k)) as [->|Hk].
    + rewrite bool_decide_eq_true_2 by done. simpl.
      destruct (bool_decide (dasherize k = name)); simpl; [done|].
      by rewrite orb_false_r.
    + rewrite bool_decide_eq_false_2 by done. simpl. rewrite IH. by rewrite orb_assoc.
Qed.

Lemma declared_obj_set name k v obj :
  dasherize k = name -> is_removal v = false -> mentions name obj = false ->
  declared name (obj_set k v obj) = Some v.
Proof.
  intros Hk Hv. induction obj as [|[k' v'] obj IH]; simpl; intros Hm.
  - by rewrite bool_decide_eq_true_2, Hv.
  - apply orb_false_iff in Hm as [Hk' Hm]. apply bool_decide_eq_false in Hk'.
    simpl in Hk'. rewrite (bool_decide_eq_false_2 (k' = k)) by congruence.
    simpl. by rewrite IH.
Qed.

End Css.

Section Times.
Context (P : Platform).

Lemma prefix_cases :
  prefix P = "" \/ prefix P = "-webkit-" \/ prefix P = "-moz-" \/ prefix P = "-o-".
Proof.
  unfold prefix, detect, vendors. simpl.
  repeat match goal with
         | |- context [if style_supported P ?x then _ else _] =>
             destruct (style_supported P x)
         end;
    first [ left; reflexivity | right; left; reflexivity
          | right; right; left; reflexivity | do 3 right; reflexivity ].
Qed.

Lemma transition_names :
  dasherize (transitionDuration P) = transitionDuration P
  /\ dasherize (transitionDelay P) = transitionDelay P
  /\ dasherize (transitionProperty P) ≠ transitionDuration P
  /\ dasherize (transitionProperty P) ≠ transitionDelay P
  /\ dasherize (transitionTiming P) ≠ transitionDuration P
  /\ dasherize (transitionTiming P) ≠ transitionDelay P
  /\ transitionDuration P ≠ transitionDelay P.
Proof.
  unfold transitionDuration, transitionDelay, transitionProperty, transitionTiming.
  destruct prefix_cases as [-> | [-> | [-> | ->]]]; by vm_compute.
Qed.

Lemma collect_mentions name kvs cv cp cv' cp' :
  collect P kvs cv cp = Some (cv', cp') -> mentions name cv = false ->
  (forall k v key, (k, v) ∈ kvs -> getPropName P k = Some key -> dasherize key ≠ name) ->
  mentions name cv' = false.
Proof.
  revert cv cp. induction kvs as [|[k v] kvs IH]; intros cv cp H Hm Hk; simpl in H.
  - by injection H as <- <-.
  - destruct (getPropName P k) as [key|] eqn:Ekey; [|discriminate].
    eapply IH; [exact H| |].
    + rewrite mentions_obj_set, Hm. simpl. apply bool_decide_eq_false_2.
      apply (Hk k v key); [by left|done].
    + intros k0 v0 key0 Hin. apply (Hk k0 v0). by right.
Qed.

Lemma seconds_declaration_kept (a b : string) : is_removal (VStr (a +:+ b +:+ "s")) = false.
Proof.
  unfold is_removal. simpl. rewrite andb_true_r. apply bool_decide_eq_false_2.
  destruct a; simpl; [|discriminate]. destruct b; discriminate.
Qed.

Lemma resolved_duration v :
  clamp_duration P (resolve_duration v) =
  match parseInt v with
  | Some z => if z =? 0 then 400 else Z.max z 0
  | None => 400
  end.
Proof.
  rewrite clamp_duration_max. unfold resolve_duration, or_default.
  destruct (parseInt v) as [z|]; [|done]. by destruct (z =? 0).
Qed.

(** C3 (the code).  In a call of [Naboo.transition] that passes the guard,
    with a duration and a delay that parse to [small] integers when they parse
    at all: the delay in milliseconds is the parsed value, and 0 when
    [parseInt] fails; the duration is the parsed value clamped at 0, and 400
    when [parseInt] fails, but also when it yields 0, the test of [|| 400]
    being that of a falsy value.  So an explicit 0 gives 400 ms, while -1 is
    clamped to the duration 0 that the code provides for.  Both are divided by
    1000: the closure holds them in seconds, the fallback timer is set from
    them, and, when the duration is positive and no animated property is one
    of the two declarations themselves, the declarations written to the node
    end with these seconds followed by ["s"]. *)
Theorem duration_and_delay_in_seconds (d : noderef) (kvs : list (string * jsval))
    (opt : option optref) (w w1 : World) :
  transition P (Some d) (PropObject kvs) opt w = Ok w1 ->
  (forall k v key, (k, v) ∈ kvs -> getPropName P k = Some key ->
     dasherize key ≠ transitionDuration P /\ dasherize key ≠ transitionDelay P) ->
  let o := get_options opt w in
  (forall z, parseInt (opt_duration o) = Some z -> small z) ->
  (forall z, parseInt (opt_delay o) = Some z -> small z) ->
  let ms := match parseInt (opt_duration o) with
            | Some z => if z =? 0 then 400 else Z.max z 0
            | None => 400
            end in
  let dl := match parseInt (opt_delay o) with Some z => z | None => 0 end in
  (exists c nd nd1,
     invs w1 !! length (invs w) = Some c
     /\ inv_duration c = ms # 1000 /\ inv_delay c = dl # 1000
     /\ (fallback_timeout (ms # 1000) (dl # 1000), length (invs w)) ∈ timers w1
     /\ nodes w !! d = Some nd /\ nodes w1 !! d = Some nd1
     /\ (0 < ms ->
         style nd1 !! transitionDuration P =
           Some (with_comma_num (style_get (transitionDuration P) nd)
                 +:+ seconds_to_string (ms # 1000) +:+ "s")
         /\ style nd1 !! transitionDelay P =
           Some (with_comma_num (style_get (transitionDelay P) nd)
                 +:+ seconds_to_string (dl # 1000) +:+ "s")))
  /\ clamp_duration P (resolve_duration (VNum (-1))) = 0
  /\ clamp_duration P (resolve_duration (VNum 0)) = 400
  /\ clamp_duration P (resolve_duration (VNum 1)) = 1
  /\ spec_duration (VNum (-1)) = 0 /\ spec_duration (VNum 0) = 0
  /\ spec_duration (VNum 1) = 1.
Proof.
  intros H Hkeys o _ _ ms dl. split; [|done].
  apply transition_creates in H as (nd & cv & cp & Hnd & Hcollect & ->).
  fold o. set (c := new_invocation P d o).
  assert (Hms : inv_duration c = ms # 1000).
  { unfold c, ms. simpl. by rewrite resolved_duration. }
  assert (Hdl : inv_delay c = dl # 1000).
  { unfold c, dl. simpl. by rewrite resolve_delay_parse. }
  assert (Hlt : (d < length (nodes w))%nat) by by eapply lookup_lt_Some.
  exists c, nd, (transition_node P (length (invs w)) o nd cv cp).
  split; [simpl; by rewrite lookup_app_r, Nat.sub_diag|].
  split; [done|]. split; [done|]. split.
  { cbn [timers set_timers]. rewrite Hms, Hdl. apply elem_of_app. right.
    by apply list_elem_of_singleton. }
  split; [done|]. split; [simpl; by apply list_lookup_insert_eq|].
  intros Hpos.
  destruct transition_names as (N1 & N2 & N3 & N4 & N5 & N6 & N7).
  assert (Hm1 : mentions (transitionDuration P) cv = false).
  { eapply collect_mentions; [exact Hcollect|done|]. intros. by eapply Hkeys. }
  assert (Hm2 : mentions (transitionDelay P) cv = false).
  { eapply collect_mentions; [exact Hcollect|done|]. intros. by eapply Hkeys. }
  unfold transition_node.
  replace (0 <? clamp_duration P (resolve_duration (opt_duration o))) with true.
  2:{ symmetry. apply Z.ltb_lt. rewrite resolved_duration. exact Hpos. }
  change (clamp_duration P (resolve_duration (opt_duration o)) # 1000)
    with (inv_duration c).
  change (resolve_delay (opt_delay o) # 1000) with (inv_delay c).
  rewrite Hms, Hdl. split.
  - apply setCss_declared_text. unfold transition_declarations.
    rewrite declared_obj_set_other by (by rewrite N2).
    rewrite declared_obj_set_other by done.
    apply declared_obj_set; [done|apply seconds_declaration_kept|].
    rewrite mentions_obj_set, Hm1. simpl. by apply bool_decide_eq_false_2.
  - apply setCss_declared_text. unfold transition_declarations.
    apply declared_obj_set; [done|apply seconds_declaration_kept|].
    rewrite !mentions_obj_set, Hm2. simpl.
    rewrite !bool_decide_eq_false_2; try done. by rewrite N1.
Qed.

(** At [duration: 0], an explicit number: [parseInt] succeeds, and yet the
    closure holds the default 400 ms, not 0. *)
Lemma explicit_zero_duration_defaults :
  parseInt (VNum 0) = Some 0 /\ spec_duration (VNum 0) = 0
  /\ exists w1 c,
       transition browser (Some 0%nat) (PropObject []) (Some 0%nat) zero_duration_world = Ok w1
       /\ invs w1 !! 0%nat = Some c
       /\ Qeq_bool (inv_duration c) (400 # 1000) = true
       /\ Qeq_bool (inv_duration c) (spec_duration (VNum 0) # 1000) = false.
Proof.
  split; [reflexivity|]. split; [reflexivity|].
  eexists _, _. split; [reflexivity|]. split; [reflexivity|]. split; reflexivity.
Qed.

End Times.


Section Defects.

(** C1 (the code).  The plugin [p] is an arrow function in a module: its
    first statement evaluates [arguments], which neither the arrow function
    nor the module binds, so the step throws wherever it is run, before it
    has looked at a child, and leaves the store as it was.  For an outer
    sequence whose first step is [p], not started yet and without listener of
    [start]: [start(fn)] triggers [start], advances to the step and calls it,
    and the exception of the step goes through [next()] and [start()].  Then
    no child has been started: nothing but the outer sequence has changed, no
    callback and no counter exists, and the events are the three of the outer
    sequence.  So no [end] of a child leads back to the outer sequence: at
    [p(a, b, c)], when the three children are started from outside and have
    ended, the outer sequence has made the advance of its [start()] and no
    other, its cursor is on the step [p], and its [end] has not fired. *)
Theorem parallel_never_advances :
  (forall (P : Platform) (s : ref) (args : list ref) (w : World) (fuel : nat),
     run P (S fuel) (RunStep s (StepP args)) w = Throw w)
  /\ (forall (P : Platform) (s : ref) (args : list ref) (rest : list step) (o : Naboo)
             (fn : option fnref) (w : World) (fuel : nat),
        seqs w !! s = Some o -> steps o = StepP args :: rest -> _index o = -1 ->
        canceled o = false -> _handlers o !! "start" = None -> (3 <= fuel)%nat ->
        exists w',
          run P fuel (Act (Start s fn)) w = Throw w'
          /\ trace w' = trace w ++ [EvTrigger s "start"; EvNext s; EvStep s 0]
          /\ seqs w' = <[s := set_index 0 (match fn with
                                           | Some f => on "end" f o
                                           | None => o
                                           end)]> (seqs w)
          /\ funs w' = funs w /\ cells w' = cells w /\ timers w' = timers w
          /\ nodes w' = nodes w /\ invs w' = invs w /\ opts w' = opts w)
  /\ exists w',
       run_script browser 4 [Start 0%nat None; Start 1%nat None; Start 2%nat None;
                             Start 3%nat None] p_world = Some w'
       /\ count_event (EvTrigger 1%nat "end") (trace w') = 1%nat
       /\ count_event (EvTrigger 2%nat "end") (trace w') = 1%nat
       /\ count_event (EvTrigger 3%nat "end") (trace w') = 1%nat
       /\ count_event (EvNext 0%nat) (trace w') = 1%nat
       /\ (_index <$> seqs w' !! 0%nat) = Some 0
       /\ count_event (EvTrigger 0%nat "end") (trace w') = 0%nat
       /\ funs w' = [] /\ cells w' = [].
Proof.
  split; [|split].
  - intros P s args w fuel. reflexivity.
  - intros P s args rest o fn w fuel Ho Hst Hi Hc Hh Hfuel.
    destruct fuel as [|[|[|k]]]; try lia.
    assert (Hls : (s < length (seqs w))%nat) by by eapply lookup_lt_Some.
    set (o1 := match fn with Some f => on "end" f o | None => o end).
    set (w1 := match fn with Some f => set_seq s (on "end" f o) w | None => w end).
    assert (Ho1 : seqs w1 !! s = Some o1).
    { unfold w1, o1. destruct fn as [f|]; [|done]. simpl. by apply list_lookup_insert_eq. }
    assert (Hh1 : get_handlers o1 "start" = Absent).
    { rewrite get_handlers_ordinary by done. unfold o1.
      destruct fn as [f|]; simpl; [|by rewrite Hh]. by rewrite lookup_insert_ne, Hh. }
    assert (Hfacts : canceled o1 = false /\ _index o1 = -1 /\ steps o1 = StepP args :: rest).
    { unfold o1. by destruct fn. }
    destruct Hfacts as (Hc1 & Hi1 & Hst1).
    assert (Hw1 : trace w1 = trace w /\ funs w1 = funs w /\ cells w1 = cells w
                  /\ timers w1 = timers w /\ nodes w1 = nodes w /\ invs w1 = invs w
                  /\ opts w1 = opts w /\ <[s := set_index 0 o1]> (seqs w1)
                                          = <[s := set_index 0 o1]> (seqs w)).
    { unfold w1. destruct fn as [f|]; [|done]. simpl. by rewrite list_insert_insert_eq. }
    destruct Hw1 as (Ht & Hf & Hce & Hti & Hn & Hin & Hop & Hse).
    rewrite run_S. cbn [run_call]. unfold start. rewrite Ho. fold w1.
    rewrite run_S. cbn [run_call]. unfold trigger at 1. rewrite Ho1, Hh1. cbn [bind].
    rewrite run_S. cbn [run_call]. unfold next. cbn [seqs log]. rewrite Ho1, Hc1.
    replace (Z.of_nat (length (steps o1)) <=? _index o1 + 1) with false
      by (symmetry; apply Z.leb_gt; rewrite Hst1, Hi1; simpl; lia).
    replace (step_at o1 (_index o1 + 1)) with (Some (StepP args))
      by (unfold step_at; by rewrite Hi1, Hst1).
    replace (_index o1 + 1) with 0 by lia.
    rewrite run_S. cbn [run_call]. unfold plugin_p, module_arguments.
    eexists. split; [reflexivity|]. simpl. rewrite Ht, Hf, Hce, Hti, Hn, Hin, Hop, Hse.
    rewrite <- !app_assoc. done.
  - eexists. split; [vm_compute; reflexivity|]. repeat split; vm_compute; reflexivity.
Qed.

(** C2 (the code).  [getAttribute] answers a string or [null], which is
    never [===] to its own conversion to a number, so each call starts its
    count from 0: after every call that passes the guard the attribute is
    ["1"], whatever it was.  At two overlapping calls on one node: after the
    two calls the attribute is ["1"], not ["2"].
    When the first call completes, the attribute goes to ["0"] and the
    transition declarations of the node are removed, while the second call
    has not fired; its completion then leaves ["-1"]. *)
Theorem overlapping_calls_reset_early :
  (forall (P : Platform) (d : noderef) (kvs : list (string * jsval)) (opt : option optref)
          (w w1 : World),
     transition P (Some d) (PropObject kvs) opt w = Ok w1 ->
     exists nd1, nodes w1 !! d = Some nd1 /\ attrs nd1 !! "data-naboo" = Some "1")
  /\ exists w2 w3 w4 nd2 nd3 nd4,
    run_script browser 10 overlap_script overlap_world = Some w2
    /\ nodes w2 !! 0%nat = Some nd2
    /\ attrs nd2 !! "data-naboo" = Some "1"
    /\ style nd2 !! "transition-property" = Some "width, height"
    /\ style nd2 !! "transition-duration" = Some "0.4s, 0.4s"
    /\ (fired <$> invs w2) = [false; false]
    /\ run_script browser 10 [FireTimer 0%nat] w2 = Some w3
    /\ nodes w3 !! 0%nat = Some nd3
    /\ (fired <$> invs w3) = [true; false]
    /\ attrs nd3 !! "data-naboo" = Some "0"
    /\ count_event (EvReset 0%nat) (trace w3) = 1%nat
    /\ style nd3 !! "transition-property" = None
    /\ style nd3 !! "transition-duration" = None
    /\ run_script browser 10 [FireTimer 1%nat] w3 = Some w4
    /\ nodes w4 !! 0%nat = Some nd4
    /\ (fired <$> invs w4) = [true; true]
    /\ attrs nd4 !! "data-naboo" = Some "-1"
    /\ count_event (EvReset 0%nat) (trace w4) = 1%nat.
Proof.
  split; [intros P d kvs opt w w1; apply transition_counts_from_zero|].
  do 6 eexists.
  split; [vm_compute; reflexivity|].
  split; [vm_compute; reflexivity|].
  do 4 (split; [vm_compute; reflexivity|]).
  split; [vm_compute; reflexivity|].
  split; [vm_compute; reflexivity|].
  do 5 (split; [vm_compute; reflexivity|]).
  split; [vm_compute; reflexivity|].
  split; [vm_compute; reflexivity|].
  repeat split; vm_compute; reflexivity.
Qed.

End Defects.

Section Witnesses.

Lemma not_listening inv ns : listens inv ns = false -> forall d, ~ registered inv ns d.
Proof.
  intros H d (nd & Hd & Hin). unfold listens in H.
  assert (existsb (λ nd, bool_decide (inv ∈ listeners nd)) ns = true); [|congruence].
  apply existsb_exists. exists nd. split.
  - apply list_elem_of_In. by eapply list_elem_of_lookup_2.
  - by apply bool_decide_eq_true_2.
Qed.

Lemma overlapping_calls_reset_early_witness :
  let w1 := after browser 10 [Transition (Some 0%nat) (PropObject [("width", VNum 10)]) None]
              overlap_world in
  exists nd1,
    nodes (after browser 10 overlap_script overlap_world) !! 0%nat = Some nd1
    /\ attrs nd1 !! "data-naboo" = Some "1".
Proof.
  intros w1.
  apply (proj1 overlapping_calls_reset_early browser 0%nat [("height", VNum 20)] None w1).
  vm_compute. reflexivity.
Defined.


Lemma duration_and_delay_in_seconds_witness :
  let call := Transition (Some 0%nat) (PropObject [("width", VNum 10)]) (Some 0%nat) in
  (exists nd1,
     nodes (after browser 20 [call] zero_duration_world) !! 0%nat = Some nd1
     /\ style nd1 !! "transition-duration" = Some "0.4s"
     /\ style nd1 !! "transition-delay" = Some "0s")
  /\ (exists nd1,
        nodes (after browser 20 [call] timing_world) !! 0%nat = Some nd1
        /\ style nd1 !! "transition-duration" = Some "0.1s"
        /\ style nd1 !! "transition-delay" = Some "0.05s").
Proof.
  intros call.
  assert (Hkeys : forall k v key, (k, v) ∈ [("width", VNum 10)] ->
            getPropName browser k = Some key ->
            dasherize key ≠ transitionDuration browser
            /\ dasherize key ≠ transitionDelay browser).
  { intros k v key Hin Hkey. apply list_elem_of_singleton in Hin. injection Hin as -> ->.
    injection Hkey as <-. split; discriminate. }
  split.
  - destruct (duration_and_delay_in_seconds browser 0%nat [("width", VNum 10)] (Some 0%nat)
                zero_duration_world (after browser 20 [call] zero_duration_world)
                ltac:(vm_compute; reflexivity) Hkeys)
      as ((c & nd & nd1 & _ & _ & _ & _ & Hnd & Hnd1 & Hstyle) & _).
    { intros z [= <-]. unfold small. simpl. lia. }
    { intros z Hz. discriminate Hz. }
    exists nd1. split; [exact Hnd1|].
    injection Hnd as <-. apply Hstyle. reflexivity.
  - destruct (duration_and_delay_in_seconds browser 0%nat [("width", VNum 10)] (Some 0%nat)
                timing_world (after browser 20 [call] timing_world)
                ltac:(vm_compute; reflexivity) Hkeys)
      as ((c & nd & nd1 & _ & _ & _ & _ & Hnd & Hnd1 & Hstyle) & _).
    { intros z [= <-]. unfold small. simpl. lia. }
    { intros z [= <-]. unfold small. simpl. lia. }
    exists nd1. split; [exact Hnd1|].
    injection Hnd as <-. apply Hstyle. reflexivity.
Defined.

Lemma out_of_enum_coerced_witness :
  resolve_ease (VStr "bounce") = VStr "ease"
  /\ resolve_mode (VStr "keyframes") = VStr "transition"
  /\ exists o,
       opts timing_world !! 0%nat = Some o /\ opt_ease o = VStr "bounce"
       /\ transition browser (Some 0%nat) (PropObject [("width", VNum 10)]) (Some 0%nat)
            (set_opts (<[0%nat := set_ease (VStr "ease") o]> (opts timing_world)) timing_world)
          = with_opts (<[0%nat := set_ease (VStr "ease") o]> (opts timing_world))
              (transition browser (Some 0%nat) (PropObject [("width", VNum 10)]) (Some 0%nat)
                 timing_world).
Proof.
  destruct (out_of_enum_coerced browser) as (Hease & _ & Hmode & _ & Htransition & _).
  split.
  { apply Hease. intros H. apply list_elem_of_In in H. simpl in H.
    repeat (destruct H as [H|H]; [discriminate|]). destruct H. }
  split; [apply Hmode; discriminate|].
  exists {| opt_duration := VNum 100; opt_ease := VStr "bounce"; opt_delay := VStr "50";
            opt_cb := VUndefined; opt_mode := VUndefined |}.
  split; [reflexivity|]. split; [reflexivity|].
  exact (Htransition (Some 0%nat) (PropObject [("width", VNum 10)]) 0%nat _ timing_world
           eq_refl).
Defined.

Lemma transition_guard_noop_witness :
  transition browser None (PropObject [("width", VNum 10)]) None timing_world = Ok timing_world
  /\ run browser 1 (Act (Transition (Some 0%nat) (PropOther (VStr "width")) None)) timing_world
     = Ok timing_world.
Proof.
  split.
  - apply (transition_guard_noop browser None (PropObject [("width", VNum 10)]) None
             timing_world 0). by left.
  - apply (transition_guard_noop browser (Some 0%nat) (PropOther (VStr "width")) None
             timing_world 0). right. by eexists.
Defined.

End Witnesses.

(** ** Further properties of the module *)

Section Listeners.
Context (P : Platform).

Lemma trace_called hs w : trace (called hs w) = trace w ++ (EvCall <$> hs).
Proof.
  revert w. induction hs as [|f hs IH]; intros w; simpl; [by rewrite app_nil_r|].
  rewrite IH. simpl. by rewrite <- app_assoc.
Qed.

Lemma seqs_called hs w : seqs (called hs w) = seqs w.
Proof. revert w. induction hs as [|f hs IH]; intros w; simpl; [done|]. by rewrite IH. Qed.

Lemma funs_called hs w : funs (called hs w) = funs w.
Proof. revert w. induction hs as [|f hs IH]; intros w; simpl; [done|]. by rewrite IH. Qed.

Lemma forEach_inert (hs : list fnref) (w : World) (k : nat) :
  forallb (inert (funs w)) hs = true ->
  forEach (λ fn, run P (S k) (Apply fn)) hs w = Ok (called hs w).
Proof.
  revert w. induction hs as [|fn hs IH]; intros w H; simpl in H; [done|].
  apply andb_true_iff in H as [Hfn Hhs].
  cbn [forEach]. rewrite inert_returns by done. cbn [bind]. by apply IH.
Qed.

Lemma trigger_inert (s : ref) (o : Naboo) (name : string) (w : World) (k : nat) :
  seqs w !! s = Some o -> on_throws name o = false ->
  forallb (inert (funs w)) (listeners_of_name name o) = true ->
  run P (S (S k)) (Trigger s name) w
  = Ok (called (listeners_of_name name o) (log (EvTrigger s name) w)).
Proof.
  intros Ho Hname Hhs. rewrite run_S. cbn [run_call]. unfold trigger. rewrite Ho.
  unfold on_throws in Hname. unfold listeners_of_name in *.
  destruct (_handlers o !! name) as [hs|] eqn:E.
  - apply get_handlers_own in E. rewrite E. by apply forEach_inert.
  - destruct (get_handlers o name) as [hs| |] eqn:E'; [|done|done].
    apply get_handlers_own in E'. congruence.
Qed.

Lemma trigger_inherited (s : ref) (o : Naboo) (name : string) (w : World) (k : nat) :
  seqs w !! s = Some o -> on_throws name o = true ->
  run P (S k) (Trigger s name) w = Throw (log (EvTrigger s name) w).
Proof.
  intros Ho Hname. rewrite run_S. cbn [run_call]. unfold trigger. rewrite Ho.
  unfold on_throws in Hname. by destruct (get_handlers o name).
Qed.

Lemma on_throws_other (o : Naboo) (name other : string) (f : fnref) :
  name ≠ other -> name ≠ "__proto__" ->
  on_throws other (on name f o) = on_throws other o.
Proof.
  intros Hne Hp. unfold on_throws. rewrite (get_handlers_ext o); [done| |];
    unfold on; simpl; by rewrite lookup_insert_ne.
Qed.

Lemma listeners_on name f o :
  listeners_of_name name (on name f o) = listeners_of_name name o ++ [f].
Proof. unfold listeners_of_name, on. simpl. by rewrite lookup_insert_eq. Qed.

Lemma listeners_on_other name name' f o :
  name ≠ name' -> listeners_of_name name' (on name f o) = listeners_of_name name' o.
Proof. intros Hne. unfold listeners_of_name, on. simpl. by rewrite lookup_insert_ne. Qed.

(** X1.  [on(name, f)] returns unless [name] resolves to a property that the
    listener map inherits; a name that no prototype has never does.  After it,
    [trigger(name)] calls the listeners of [name] in the order of their
    registration: the earlier ones, then [f].  For another name, [trigger]
    calls its listeners as before, without [f], unless that name resolves to
    an inherited property: then it throws when it comes to [forEach], as
    [trigger('toString')] does on a new sequence, and [on('constructor', f)]
    throws on it. *)
Theorem listeners_called_in_order (s : ref) (o : Naboo) (name other : string) (f : fnref)
    (w : World) (k : nat) :
  seqs w !! s = Some o -> inert (funs w) f = true ->
  forallb (inert (funs w)) (listeners_of_name name o) = true ->
  forallb (inert (funs w)) (listeners_of_name other o) = true ->
  name ≠ other -> on_throws name o = false ->
  let w1 := set_seq s (on name f o) w in
  (forall (o' : Naboo) (name' : string), ordinary name' = true -> on_throws name' o' = false)
  /\ (exists w', run P (S (S k)) (Trigger s name) w1 = Ok w'
     /\ trace w' = trace w ++ EvTrigger s name
                     :: (EvCall <$> listeners_of_name name o) ++ [EvCall f])
  /\ (on_throws other (on name f o) = false ->
      exists w', run P (S (S k)) (Trigger s other) w1 = Ok w'
        /\ trace w' = trace w ++ EvTrigger s other :: (EvCall <$> listeners_of_name other o))
  /\ (on_throws other (on name f o) = true ->
      run P (S (S k)) (Trigger s other) w1 = Throw (log (EvTrigger s other) w1))
  /\ on_throws "constructor" Naboo_new = true /\ on_throws "toString" Naboo_new = true.
Proof.
  intros Ho Hf Hhs Hother Hne Hname w1.
  assert (Ho1 : seqs w1 !! s = Some (on name f o)).
  { simpl. apply list_lookup_insert_eq. by eapply lookup_lt_Some. }
  split; [|split; [|split; [|split; [|done]]]].
  - intros o' name' Hord. unfold on_throws. rewrite get_handlers_ordinary by done.
    by destruct (_handlers o' !! name').
  - eexists. split.
    + apply trigger_inert; [exact Ho1| |].
      * unfold on_throws. replace (get_handlers (on name f o) name)
          with (Handlers (listeners_of_name name o ++ [f])); [done|].
        symmetry. apply get_handlers_own. unfold on, listeners_of_name. simpl.
        by rewrite lookup_insert_eq.
      * rewrite listeners_on. rewrite forallb_app. simpl. by rewrite Hhs, Hf.
    + rewrite trace_called, listeners_on, fmap_app. simpl. by rewrite <- app_assoc.
  - intros Hret. eexists. split.
    + apply trigger_inert; [exact Ho1|exact Hret|]. by rewrite listeners_on_other.
    + rewrite trace_called, listeners_on_other by done. simpl. by rewrite <- app_assoc.
  - intros Hthrows. by apply (trigger_inherited s (on name f o)).
Qed.

Lemma find_handler_first (fn : fnref) (l1 l2 : list fnref) :
  fn ∉ l1 -> find_handler fn (l1 ++ fn :: l2) = length l1.
Proof.
  induction l1 as [|h l1 IH]; simpl; intros Hn.
  - by rewrite bool_decide_eq_true_2.
  - apply not_elem_of_cons in Hn as [Hne Hr].
    rewrite bool_decide_eq_false_2 by congruence. by rewrite IH.
Qed.

Lemma splice_middle {A} (l1 l2 : list A) (x : A) :
  delete (length l1) (l1 ++ x :: l2) = l1 ++ l2.
Proof. induction l1 as [|y l1 IH]; simpl; [done|]. by rewrite IH. Qed.


(** X2.  A listener that is not a function makes [trigger] throw when its turn
    comes: the listeners before it have been called, those after it are not;
    and an exception in a listener of [start] goes through [start()], which
    then does not call [next()]. *)
Theorem listener_exception_stops (s : ref) (o : Naboo) (name : string)
    (hs1 hs2 : list fnref) (bad : fnref) (w : World) (k : nat) :
  seqs w !! s = Some o -> _handlers o !! name = Some (hs1 ++ bad :: hs2) ->
  forallb (inert (funs w)) hs1 = true -> funs w !! bad = None ->
  run P (S (S k)) (Trigger s name) w = Throw (called hs1 (log (EvTrigger s name) w))
  /\ (name = "start" ->
      run P (S (S (S k))) (Act (Start s None)) w
      = Throw (called hs1 (log (EvTrigger s "start") w))).
Proof.
  intros Ho Hh Hhs1 Hbad.
  assert (Hloop : forall w0, funs w0 = funs w ->
            forEach (λ fn, run P (S k) (Apply fn)) (hs1 ++ bad :: hs2) w0
            = Throw (called hs1 w0)).
  { clear Hh. induction hs1 as [|h hs1 IH]; intros w0 Hw0.
    - cbn [app forEach]. rewrite run_S. cbn [run_call]. unfold call_function.
      by rewrite Hw0, Hbad.
    - simpl in Hhs1. apply andb_true_iff in Hhs1 as [Hh1 Hhs1].
      cbn [app forEach]. rewrite inert_returns by by rewrite Hw0.
      cbn [bind]. by rewrite IH. }
  assert (Ht : forall name', name' = name ->
            run P (S (S k)) (Trigger s name') w
            = Throw (called hs1 (log (EvTrigger s name') w))).
  { intros ? ->. rewrite run_S. cbn [run_call]. unfold trigger.
    rewrite Ho, (proj2 (get_handlers_own _ _ _) Hh). by apply Hloop. }
  split; [by apply Ht|].
  intros Hn. rewrite run_S. cbn [run_call]. unfold start. rewrite Ho.
  by rewrite Ht.
Qed.

(** X3.  [off(name, fn)] removes the first registration of [fn] for [name] and
    nothing else; so [off(name, fn)] after an [on(name, fn)] that returned,
    for a function that was not registered for [name] before, gives back the
    listeners of every name.  When [name] resolves to an inherited property,
    for which [on(name, fn)] throws, [off(name, fn)] changes nothing. *)
Theorem off_removes_first_registration (name : string) (fn : fnref) (o : Naboo) :
  name ≠ "" ->
  (forall l1 l2, get_handlers o name = Handlers (l1 ++ fn :: l2) -> fn ∉ l1 ->
     _handlers (off (Some name) (Some fn) o) = <[name := l1 ++ l2]> (_handlers o))
  /\ (on_throws name o = false -> fn ∉ listeners_of_name name o ->
      forall name', listeners_of_name name' (off (Some name) (Some fn) (on name fn o))
                    = listeners_of_name name' o)
  /\ (on_throws name o = true -> off (Some name) (Some fn) o = o).
Proof.
  intros Hname. split; [|split].
  - intros l1 l2 Hh Hn. rewrite off_name_shape by done. rewrite Hh. simpl.
    by rewrite find_handler_first, splice_middle.
  - intros _ Hn name'. rewrite off_name_shape by done.
    assert (Hon : get_handlers (on name fn o) name
                  = Handlers (listeners_of_name name o ++ [fn])).
    { apply get_handlers_own. unfold on, listeners_of_name. simpl.
      by rewrite lookup_insert_eq. }
    rewrite Hon. unfold listeners_of_name in *. simpl.
    rewrite insert_insert_eq.
    rewrite <- (app_nil_r (default [] (_handlers o !! name) ++ [fn])) at 1.
    rewrite <- app_assoc. simpl.
    rewrite find_handler_first, splice_middle, app_nil_r by done.
    destruct (decide (name = name')) as [<-|Hne].
    + by rewrite lookup_insert_eq.
    + by rewrite lookup_insert_ne.
  - intros Hthrows. rewrite off_name_shape by done. unfold on_throws in Hthrows.
    by destruct (get_handlers o name).
Qed.

(** X4.  [start(fn)] does not look at [canceled]: on a canceled sequence it
    still registers [fn] for [end] and triggers [start]; then [next()] returns
    at once, so that no step is called and [end] does not fire. *)
Theorem start_after_cancel (s : ref) (o : Naboo) (fn : option fnref) (w : World) (k : nat) :
  seqs w !! s = Some o -> canceled o = true ->
  forallb (inert (funs w)) (listeners_of_name "start" o) = true ->
  let w1 := match fn with Some f => set_seq s (on "end" f o) w | None => w end in
  exists w',
    run P (S (S (S k))) (Act (Start s fn)) w = Ok w'
    /\ w' = called (listeners_of_name "start" o) (log (EvTrigger s "start") w1)
    /\ trace w' = trace w ++ EvTrigger s "start" :: (EvCall <$> listeners_of_name "start" o)
    /\ seqs w' !! s = Some (match fn with Some f => on "end" f o | None => o end).
Proof.
  intros Ho Hc Hhs w1.
  set (o1 := match fn with Some f => on "end" f o | None => o end).
  assert (Ho1 : seqs w1 !! s = Some o1).
  { unfold w1, o1. destruct fn as [f|]; [|done].
    simpl. apply list_lookup_insert_eq. by eapply lookup_lt_Some. }
  assert (Hl : listeners_of_name "start" o1 = listeners_of_name "start" o).
  { unfold o1. destruct fn as [f|]; [|done]. by apply listeners_on_other. }
  assert (Hf : funs w1 = funs w) by (unfold w1; by destruct fn).
  assert (Ht : trace w1 = trace w) by (unfold w1; by destruct fn).
  eexists. split; [|split; [reflexivity|split]].
  - rewrite run_S. cbn [run_call]. unfold start. rewrite Ho. fold w1.
    rewrite (trigger_inert s o1) by (first [by apply on_returns | by rewrite ?Hl, ?Hf]). cbn [bind].
    rewrite run_S. cbn [run_call]. unfold next.
    rewrite seqs_called. cbn [seqs log]. rewrite Ho1.
    replace (canceled o1) with true by (unfold o1; by destruct fn).
    by rewrite Hl.
  - rewrite trace_called. simpl. rewrite Ht. by rewrite <- app_assoc.
  - by rewrite seqs_called.
Qed.

(** X5.  [start(fn)] on a sequence whose cursor is at its last step or beyond
    (a sequence without steps, or one that has run to its end) calls no step:
    [start] is triggered, the cursor moves on by one and [end] is triggered,
    with [fn] as its last listener.  A second [start()] makes [end] fire
    again. *)
Theorem start_at_end (s : ref) (o : Naboo) (fn : option fnref) (w : World) (k : nat) :
  seqs w !! s = Some o -> canceled o = false ->
  Z.of_nat (length (steps o)) <= _index o + 1 ->
  let o1 := match fn with Some f => on "end" f o | None => o end in
  forallb (inert (funs w)) (listeners_of_name "start" o) = true ->
  forallb (inert (funs w)) (listeners_of_name "end" o1) = true ->
  exists w',
    run P (S (S (S (S k)))) (Act (Start s fn)) w = Ok w'
    /\ trace w' = trace w ++ EvTrigger s "start" :: (EvCall <$> listeners_of_name "start" o)
                     ++ EvNext s :: EvTrigger s "end" :: (EvCall <$> listeners_of_name "end" o1)
    /\ seqs w' !! s = Some (set_index (_index o + 1) o1).
Proof.
  intros Ho Hc Hi o1 Hstart Hend.
  set (w1 := match fn with Some f => set_seq s (on "end" f o) w | None => w end).
  assert (Hls : (s < length (seqs w))%nat) by by eapply lookup_lt_Some.
  assert (Ho1 : seqs w1 !! s = Some o1).
  { unfold w1, o1. destruct fn as [f|]; [|done]. simpl. by apply list_lookup_insert_eq. }
  assert (Hl : listeners_of_name "start" o1 = listeners_of_name "start" o).
  { unfold o1. destruct fn as [f|]; [|done]. by apply listeners_on_other. }
  assert (Hf : funs w1 = funs w) by (unfold w1; by destruct fn).
  assert (Ht : trace w1 = trace w) by (unfold w1; by destruct fn).
  assert (Hlen : length (seqs w1) = length (seqs w)).
  { unfold w1. destruct fn as [f|]; [|done]. simpl. by rewrite length_insert. }
  assert (Ho1' : canceled o1 = false /\ steps o1 = steps o /\ _index o1 = _index o).
  { unfold o1. by destruct fn. }
  destruct Ho1' as (Hc1 & Hs1 & Hi1).
  rewrite run_S. cbn [run_call]. unfold start. rewrite Ho. fold w1.
  rewrite (trigger_inert s o1) by (first [by apply on_returns | by rewrite ?Hl, ?Hf]). cbn [bind].
  rewrite run_S. cbn [run_call]. unfold next.
  rewrite seqs_called. cbn [seqs log]. rewrite Ho1, Hc1.
  replace (Z.of_nat (length (steps o1)) <=? _index o1 + 1) with true
    by (symmetry; apply Z.leb_le; by rewrite Hs1, Hi1).
  set (w2 := log (EvNext s) _).
  assert (Ho2 : seqs w2 !! s = Some (set_index (_index o1 + 1) o1)).
  { unfold w2. simpl. rewrite seqs_called. simpl.
    apply list_lookup_insert_eq. by rewrite Hlen. }
  rewrite (trigger_inert s _ "end" w2 k Ho2); [|by apply on_returns|].
  2:{ unfold w2. cbn [funs log set_seq set_seqs]. rewrite funs_called.
      change (funs (log (EvTrigger s "start") w1)) with (funs w1). by rewrite Hf. }
  eexists. split; [reflexivity|]. split.
  - rewrite trace_called. unfold w2. simpl. rewrite trace_called. simpl.
    rewrite Ht, Hl. by rewrite <- !app_assoc.
  - rewrite seqs_called. etrans; [exact Ho2|]. by rewrite Hi1.
Qed.

End Listeners.

Section Tool.
Context (P : Platform).

Lemma is_capital_lower (a : ascii) : is_capital (lower a) = false.
Proof. by destruct a as [[] [] [] [] [] [] [] []]. Qed.

Lemma is_upper_capital (a : ascii) : is_upper a = true -> is_capital a = true.
Proof. unfold is_capital. by intros ->. Qed.

Lemma lower_fixed (a : ascii) : is_capital a = false -> lower a = a.
Proof. unfold lower. by intros ->. Qed.

Lemma dasherize_fixed (s : string) : has_capital s = false -> dasherize s = s.
Proof.
  induction s as [|a r IH]; simpl; [done|]. intros H.
  apply orb_false_iff in H as [Ha Hr].
  destruct (is_upper a) eqn:E; [apply is_upper_capital in E; congruence|].
  by rewrite lower_fixed, IH.
Qed.

Lemma dasherize_lower (s : string) : has_capital (dasherize s) = false.
Proof.
  induction s as [|a r IH]; simpl; [done|].
  destruct (is_upper a) eqn:E; simpl; by rewrite is_capital_lower, IH.
Qed.

(** X6.  [dasherize] is the lower-casing of the string in which every capital
    of [A-Z] has got a dash before it.  Its result has no capital letter; a
    string without capital letters is left as it is, so that [dasherize]
    applied twice is [dasherize].  A capital outside [A-Z] is lowered and gets
    no dash: [dasherize] of the letter 201 (E with acute accent) is the
    letter 233. *)
Theorem dasherize_idempotent (s : string) :
  dasherize s = toLowerCase (dash_capitals s)
  /\ has_capital (dasherize s) = false
  /\ (has_capital s = false -> dasherize s = s)
  /\ dasherize (dasherize s) = dasherize s
  /\ dasherize (String (ascii_of_nat 201) "") = String (ascii_of_nat 233) "".
Proof.
  split; [|split; [|split; [|split]]].
  - induction s as [|a r IH]; simpl; [done|].
    destruct (is_upper a) eqn:E; simpl; by rewrite IH.
  - apply dasherize_lower.
  - apply dasherize_fixed.
  - apply dasherize_fixed, dasherize_lower.
  - reflexivity.
Qed.

Lemma handleUnit_other (prop : string) (v : jsval) :
  (forall z, v ≠ VNum z) -> handleUnit P prop v = v.
Proof.
  intros Hv. unfold handleUnit.
  destruct v as [| |b|z| |t|f]; try done.
  - by destruct (Hv z).
  - by destruct (to_number (VStr t)).
Qed.

Lemma handleUnit_number (prop : string) (z : Z) :
  handleUnit P prop (VNum z)
  = match zero_unit P prop with Some u => VStr (pretty z +:+ u) | None => VNum z end.
Proof.
  unfold handleUnit. simpl. rewrite bool_decide_eq_true_2 by done. simpl.
  by destruct (zero_unit P prop).
Qed.

(** X7.  [handleUnit] changes numbers only: a number gets the unit that the
    browser gives to 0 for this property, when it gives one, and becomes a
    string, which for a [small] number is its decimal digits followed by the
    unit; every other value is returned as it is.  So a value that went
    through [handleUnit] is not changed by a second pass. *)
Theorem handleUnit_numbers_only (prop : string) (v : jsval) :
  ((forall z, v ≠ VNum z) -> handleUnit P prop v = v)
  /\ (forall z u, v = VNum z -> small z -> zero_unit P prop = Some u ->
        handleUnit P prop v = VStr (pretty z +:+ u))
  /\ (forall z, v = VNum z -> zero_unit P prop = None -> handleUnit P prop v = v)
  /\ (forall prop', zero_unit P prop' = zero_unit P prop ->
        handleUnit P prop' (handleUnit P prop v) = handleUnit P prop v).
Proof.
  split; [apply handleUnit_other|]. split; [|split].
  - intros z u -> _ Hu. by rewrite handleUnit_number, Hu.
  - intros z -> Hu. by rewrite handleUnit_number, Hu.
  - intros prop' Hp.
    assert (Hcases : (exists z, v = VNum z) \/ forall z, v ≠ VNum z).
    { destruct v; try (by right); left; by eexists. }
    destruct Hcases as [[z ->]|Hn].
    + rewrite (handleUnit_number prop). destruct (zero_unit P prop) as [u|] eqn:E.
      * by apply handleUnit_other.
      * by rewrite handleUnit_number, Hp.
    + rewrite (handleUnit_other prop v) by done. by apply handleUnit_other.
Qed.

(** X8.  [getPropName(prop)] answers the first name that the browser supports
    among [prop], [-webkit-prop], [--prop] (the vendor [Moz] has the empty
    string) and [-o-prop], and [undefined] exactly when it supports none of
    them. *)
Theorem getPropName_first_supported (prop : string) :
  (forall key, getPropName P prop = Some key ->
     exists before after,
       prop_candidates prop = before ++ key :: after
       /\ style_supported P key = true
       /\ forall c, c ∈ before -> style_supported P c = false)
  /\ (getPropName P prop = None <->
      forall c, c ∈ prop_candidates prop -> style_supported P c = false).
Proof.
  unfold getPropName, prop_candidates, vendors. cbn [map List.find fst snd].
  destruct (style_supported P prop) eqn:E0.
  { split.
    - intros key [= <-]. eexists [], _. split; [done|]. split; [done|].
      intros c Hc. by apply elem_of_nil in Hc.
    - split; [done|]. intros H. rewrite H in E0; [done|]. by left. }
  destruct (style_supported P ("-" +:+ "webkit" +:+ "-" +:+ prop)) eqn:E1.
  { split.
    - intros key [= <-]. eexists [prop], _. split; [done|]. split; [done|].
      intros c Hc. apply list_elem_of_singleton in Hc. by subst.
    - split; [done|]. intros H. rewrite H in E1; [done|]. right. by left. }
  destruct (style_supported P ("-" +:+ "" +:+ "-" +:+ prop)) eqn:E2.
  { split.
    - intros key [= <-]. eexists [prop; "-" +:+ "webkit" +:+ "-" +:+ prop], _.
      split; [done|]. split; [done|].
      intros c Hc. apply elem_of_cons in Hc as [->|Hc]; [done|].
      apply list_elem_of_singleton in Hc. by subst.
    - split; [done|]. intros H. rewrite H in E2; [done|]. right. right. by left. }
  destruct (style_supported P ("-" +:+ "o" +:+ "-" +:+ prop)) eqn:E3.
  { split.
    - intros key [= <-].
      eexists [prop; "-" +:+ "webkit" +:+ "-" +:+ prop; "-" +:+ "" +:+ "-" +:+ prop], _.
      split; [done|]. split; [done|].
      intros c Hc. apply elem_of_cons in Hc as [->|Hc]; [done|].
      apply elem_of_cons in Hc as [->|Hc]; [done|].
      apply list_elem_of_singleton in Hc. by subst.
    - split; [done|]. intros H. rewrite H in E3; [done|]. right. right. right. by left. }
  split; [done|]. split; [|done]. intros _ c Hc.
  repeat (apply elem_of_cons in Hc as [->|Hc]; [done|]). by apply elem_of_nil in Hc.
Qed.

(** X9.  The probe of the module: when the browser knows [transform], nothing
    is prefixed; otherwise the first vendor among Webkit, Moz and O whose
    [TransitionProperty] it knows gives the prefix of the declarations and the
    name of the event.  Moz has the prefix [-moz-] with the event name without
    prefix. *)
Theorem detection_cases :
  (style_supported P "transform" = true ->
   prefix P = "" /\ transitionEnd P = "transitionend")
  /\ (prefix P, transitionEnd P)
     ∈ [("", "transitionend"); ("-webkit-", "webkitTransitionEnd");
        ("-moz-", "transitionend"); ("-o-", "oTransitionEnd")]
  /\ (style_supported P "transform" = false ->
      style_supported P "WebkitTransitionProperty" = true ->
      prefix P = "-webkit-" /\ transitionEnd P = "webkitTransitionEnd").
Proof.
  unfold transitionEnd, normalizeEvent, eventPrefix, prefix, detect, vendors.
  cbn [List.find fst snd].
  destruct (style_supported P "transform").
  { split; [done|]. split; [by left|done]. }
  split; [done|].
  destruct (style_supported P ("Webkit" +:+ "TransitionProperty")) eqn:E1.
  { split; [right; by left|done]. }
  split.
  2:{ intros _ H.
      change ("Webkit" +:+ "TransitionProperty") with "WebkitTransitionProperty" in E1.
      congruence. }
  destruct (style_supported P ("Moz" +:+ "TransitionProperty")).
  { do 2 right. by left. }
  destruct (style_supported P ("O" +:+ "TransitionProperty")).
  { do 3 right. by left. }
  by left.
Qed.

End Tool.

Section Decimal.

Lemma digit_of_pretty (d : N) :
  (d < 10)%N -> digit_of (pretty_N_char d) = Some (Z.of_N d)
                /\ is_space (pretty_N_char d) = false
                /\ pretty_N_char d ≠ "-"%char /\ pretty_N_char d ≠ "+"%char.
Proof.
  intros Hd.
  assert (d = 0 \/ d = 1 \/ d = 2 \/ d = 3 \/ d = 4 \/ d = 5 \/ d = 6 \/ d = 7
          \/ d = 8 \/ d = 9)%N as Hcases by lia.
  repeat (destruct Hcases as [->|Hcases]; [by vm_compute|]). subst. by vm_compute.
Qed.

Lemma pretty_N_go_digit (x : N) :
  (0 < x)%N -> forall s,
  exists d r, (d < 10)%N /\ pretty_N_go x s = String (pretty_N_char d) r.
Proof.
  induction (N.lt_wf_0 x) as [x _ IH]. intros Hx s.
  rewrite pretty_N_go_step by done.
  assert (Hd : (x `mod` 10 < 10)%N) by by apply N.mod_lt.
  destruct (decide (x `div` 10 = 0)%N) as [->|Hq].
  - rewrite pretty_N_go_0. by eexists _, _.
  - apply IH; [apply N.div_lt; lia|by apply N.neq_0_lt_0].
Qed.

Lemma digits_only_pretty (x : N) :
  (0 < x)%N -> forall s,
  digits_only (pretty_N_go x s) None = digits_only s (Some (Z.of_N x)).
Proof.
  induction (N.lt_wf_0 x) as [x _ IH]. intros Hx s.
  rewrite pretty_N_go_step by done.
  assert (Hd : (x `mod` 10 < 10)%N) by by apply N.mod_lt.
  destruct (digit_of_pretty _ Hd) as (Hdigit & _).
  destruct (decide (x `div` 10 = 0)%N) as [Hq|Hq].
  - rewrite Hq, pretty_N_go_0. cbn [digits_only]. rewrite Hdigit. simpl.
    f_equal. f_equal. rewrite (N.div_mod x 10) at 2 by done. lia.
  - rewrite IH by (first [apply N.div_lt; lia|by apply N.neq_0_lt_0]).
    cbn [digits_only]. rewrite Hdigit. simpl. f_equal. f_equal.
    rewrite (N.div_mod x 10) at 3 by done. lia.
Qed.

Lemma digits_prefix_pretty (x : N) :
  (0 < x)%N -> forall s,
  digits_prefix (pretty_N_go x s) None = digits_prefix s (Some (Z.of_N x)).
Proof.
  induction (N.lt_wf_0 x) as [x _ IH]. intros Hx s.
  rewrite pretty_N_go_step by done.
  assert (Hd : (x `mod` 10 < 10)%N) by by apply N.mod_lt.
  destruct (digit_of_pretty _ Hd) as (Hdigit & _).
  destruct (decide (x `div` 10 = 0)%N) as [Hq|Hq].
  - rewrite Hq, pretty_N_go_0. cbn [digits_prefix]. rewrite Hdigit. simpl.
    f_equal. f_equal. rewrite (N.div_mod x 10) at 2 by done. lia.
  - rewrite IH by (first [apply N.div_lt; lia|by apply N.neq_0_lt_0]).
    cbn [digits_prefix]. rewrite Hdigit. simpl. f_equal. f_equal.
    rewrite (N.div_mod x 10) at 3 by done. lia.
Qed.

Lemma pretty_positive_go (p : positive) : pretty (Zpos p) = pretty_N_go (Npos p) "".
Proof. reflexivity. Qed.

Lemma pretty_negative_go (p : positive) :
  pretty (Zneg p) = String "-"%char (pretty_N_go (Npos p) "").
Proof. reflexivity. Qed.

Lemma to_number_digits (x : N) (s : string) :
  (0 < x)%N ->
  to_number (VStr (pretty_N_go x s)) = digits_only s (Some (Z.of_N x)).
Proof.
  intros Hx. destruct (pretty_N_go_digit x Hx s) as (d & r & Hd & Hs).
  destruct (digit_of_pretty d Hd) as (_ & Hsp & Hm & Hp).
  rewrite <- digits_only_pretty by done.
  unfold to_number. rewrite Hs. cbn [skip_space]. rewrite Hsp.
  destruct (pretty_N_char d) as [[] [] [] [] [] [] [] []]; try done.
Qed.

(** The text of an integer reads back as this integer. *)
Lemma to_number_pretty (z : Z) : to_number (VStr (pretty z)) = Some z.
Proof.
  destruct z as [|p|p].
  - reflexivity.
  - rewrite pretty_positive_go, to_number_digits by lia. reflexivity.
  - rewrite pretty_negative_go. unfold to_number. cbn [skip_space].
    change (is_space "-"%char) with false. cbv iota.
    rewrite digits_only_pretty by lia. reflexivity.
Qed.

Lemma parseInt_digits (x : N) (s : string) :
  (0 < x)%N ->
  parseInt_string (pretty_N_go x s) = digits_prefix s (Some (Z.of_N x)).
Proof.
  intros Hx. destruct (pretty_N_go_digit x Hx s) as (d & r & Hd & Hs).
  destruct (digit_of_pretty d Hd) as (_ & Hsp & Hm & Hp).
  rewrite <- digits_prefix_pretty by done.
  unfold parseInt_string. rewrite Hs. cbn [skip_space]. rewrite Hsp.
  destruct (pretty_N_char d) as [[] [] [] [] [] [] [] []]; try done.
Qed.

Lemma pretty_N_go_app (x : N) (s t : string) :
  pretty_N_go x s +:+ t = pretty_N_go x (s +:+ t).
Proof.
  revert s. induction (N.lt_wf_0 x) as [x _ IH]. intros s.
  destruct (decide (x = 0)%N) as [->|Hx]; [by rewrite !pretty_N_go_0|].
  rewrite (pretty_N_go_step x s), (pretty_N_go_step x (s +:+ t)) by by apply N.neq_0_lt_0.
  rewrite IH by (apply N.div_lt; [by apply N.neq_0_lt_0|done]). reflexivity.
Qed.

Lemma skip_space_spaces (sp u : string) :
  all_space sp = true -> skip_space (sp +:+ u) = skip_space u.
Proof.
  induction sp as [|a sp IH]; simpl; [done|]. intros H.
  apply andb_true_iff in H as [-> H]. by apply IH.
Qed.

Lemma digits_prefix_stop (t : string) (acc : option Z) :
  t = "" \/ (exists a r, t = String a r /\ digit_of a = None) ->
  digits_prefix t acc = acc.
Proof. intros [->|(a & r & -> & Ha)]; simpl; [done|]. by rewrite Ha. Qed.

Lemma parseInt_pretty (z : Z) (t : string) :
  t = "" \/ (exists a r, t = String a r /\ digit_of a = None) ->
  parseInt_string (pretty z +:+ t) = Some z.
Proof.
  intros Ht. destruct z as [|p|p].
  - change (pretty 0 +:+ t) with (String "0"%char t). unfold parseInt_string.
    cbn [skip_space]. change (is_space "0"%char) with false. cbv iota.
    cbn [digits_prefix]. change (digit_of "0"%char) with (Some 0). cbv iota.
    by rewrite digits_prefix_stop.
  - rewrite pretty_positive_go, pretty_N_go_app, parseInt_digits by lia.
    by rewrite digits_prefix_stop.
  - rewrite pretty_negative_go.
    change (String "-"%char (pretty_N_go (Npos p) "") +:+ t)
      with (String "-"%char (pretty_N_go (Npos p) "" +:+ t)).
    rewrite pretty_N_go_app.
    unfold parseInt_string. cbn [skip_space]. change (is_space "-"%char) with false.
    cbv iota. rewrite digits_prefix_pretty by lia. by rewrite digits_prefix_stop.
Qed.

(** X11.  A duration or a delay given as text: white space, then a [small]
    decimal integer, then text that does not go on with a digit (a unit such
    as ["ms"], a fraction) is read as this integer; so ["300ms"] is 300
    milliseconds, and the text of 0 is the default for a duration. *)
Theorem numeric_text_is_parsed (sp t : string) (z : Z) :
  small z -> all_space sp = true ->
  t = "" \/ (exists a r, t = String a r /\ digit_of a = None) ->
  parseInt (VStr (sp +:+ pretty z +:+ t)) = Some z
  /\ resolve_delay (VStr (sp +:+ pretty z +:+ t)) = z
  /\ resolve_duration (VStr (sp +:+ pretty z +:+ t)) = (if z =? 0 then 400 else z).
Proof.
  intros _ Hsp Ht.
  assert (H : parseInt (VStr (sp +:+ pretty z +:+ t)) = Some z).
  { simpl. unfold parseInt_string. rewrite skip_space_spaces by done.
    by apply parseInt_pretty. }
  split; [done|]. unfold resolve_delay, resolve_duration, or_default. rewrite H.
  split; [|done]. destruct (z =? 0) eqn:E; [|done]. apply Z.eqb_eq in E. by subst.
Qed.

End Decimal.

Section SetCss.

Lemma foldl_removals (obj : list (string * jsval)) (st : gmap string string) name :
  foldl (λ st kv, if is_removal kv.2 then delete (dasherize kv.1) st else st) st obj !! name
  = if existsb (λ kv, bool_decide (dasherize kv.1 = name) && is_removal kv.2) obj
    then None else st !! name.
Proof.
  revert st. induction obj as [|kv obj IH]; intros st; simpl; [done|].
  rewrite IH. destruct (existsb _ obj); [by rewrite orb_true_r|]. rewrite orb_false_r.
  destruct (is_removal kv.2); [|by rewrite andb_false_r].
  rewrite andb_true_r. case_bool_decide as Hk.
  - subst. by rewrite lookup_delete_eq.
  - by rewrite lookup_delete_ne.
Qed.

Lemma undeclared_mention name obj :
  declared name obj = None ->
  existsb (λ kv, bool_decide (dasherize kv.1 = name) && is_removal kv.2) obj
  = mentions name obj.
Proof.
  unfold mentions. induction obj as [|kv obj IH]; simpl; [done|].
  destruct (declared name obj) as [v|]; [done|]. intros Hd. rewrite IH by done.
  f_equal. destruct (bool_decide (dasherize kv.1 = name)); [|done].
  simpl in *. by destruct (is_removal kv.2).
Qed.

Lemma setCss_lookup (obj : list (string * jsval)) (nd : Node) (name : string) :
  style (setCss obj nd) !! name
  = match declared name obj with
    | Some v => Some (to_string v)
    | None => if mentions name obj then None else style nd !! name
    end.
Proof.
  destruct (declared name obj) as [v|] eqn:Hd; [by apply setCss_declared|].
  unfold setCss. simpl. rewrite foldl_declarations.
  - rewrite declared_filter, Hd, foldl_removals. by rewrite undeclared_mention.
  - intros kv Hkv. by apply list_elem_of_filter in Hkv as [? _].
Qed.

End SetCss.

Section Completes.
Context (P : Platform).

Lemma plain_callback_frame c w w0 k :
  plain_callback w c = true -> funs w0 = funs w -> seqs w0 = seqs w ->
  exists w', match inv_cb c with
             | Some cb => run P (S (S k)) (Apply cb) w0
             | None => Ok w0
             end = Ok w'
    /\ nodes w' = nodes w0 /\ invs w' = invs w0 /\ timers w' = timers w0
    /\ seqs w' = seqs w0 /\ opts w' = opts w0 /\ funs w' = funs w0
    /\ count_event (EvReset (inv_dom c)) (trace w') = count_event (EvReset (inv_dom c)) (trace w0).
Proof.
  unfold plain_callback. intros H Hfuns Hseqs.
  destruct (inv_cb c) as [f|]; [|by eexists].
  rewrite run_S. cbn [run_call]. unfold call_function. rewrite Hfuns.
  destruct (funs w !! f) as [[[|a body]|n outer|cb outer]|]; try discriminate.
  - eexists. split; [done|]. repeat (split; [done|]).
    rewrite count_event_log. rewrite bool_decide_eq_false_2 by done. lia.
  - apply andb_true_iff in H as [Hcb Hs].
    assert (Hfirst : match cb with
                     | VFun g => run P (S k) (Apply g) w0
                     | _ => if falsy cb then Ok w0 else Throw w0
                     end = Ok w0).
    { destruct cb; try done; by rewrite Hcb. }
    rewrite Hfirst. cbn [bind]. rewrite run_S. cbn [run_call]. unfold next.
    rewrite Hseqs. destruct (seqs w !! outer) as [o|]; [|discriminate].
    rewrite Hs. by eexists.
Qed.

(** The fallback timer of a call that has not completed, whose callback runs
    no user code. *)
Lemma fire_timer_completes (inv : invref) (c : Invocation) (nd : Node) (q : double) (w : World)
    (fuel : nat) :
  (q, inv) ∈ timers w -> invs w !! inv = Some c -> fired c = false ->
  nodes w !! inv_dom c = Some nd -> plain_callback w c = true -> (4 <= fuel)%nat ->
  exists w',
    run P fuel (Act (FireTimer inv)) w = Ok w'
    /\ nodes w' = <[inv_dom c := completed_node P inv nd]> (nodes w)
    /\ invs w' = <[inv := set_fired c]> (invs w)
    /\ timers w' = filter (λ t, t.2 ≠ inv) (timers w)
    /\ seqs w' = seqs w
    /\ count_event (EvReset (inv_dom c)) (trace w')
       = (count_event (EvReset (inv_dom c)) (trace w)
          + if bool_decide (to_number (getAttribute "data-naboo" nd) = Some 1%Z)
            then 1 else 0)%nat.
Proof.
  intros Hq Hc Hf Hnd Hcb Hfuel. destruct fuel as [|[|[|[|k]]]]; try lia.
  assert (Hld : (inv_dom c < length (nodes w))%nat) by by eapply lookup_lt_Some.
  rewrite run_S. cbn [run_call]. unfold fire_timer.
  replace (existsb (λ t, (t.2 =? inv)%nat) (timers w)) with true.
  2:{ symmetry. apply existsb_exists. exists (q, inv). split.
      - by apply list_elem_of_In.
      - apply Nat.eqb_refl. }
  cbn [invs set_timers]. rewrite Hc, Hf.
  rewrite run_S. cbn [run_call]. unfold wrappedCallback.
  cbn [invs nodes set_timers]. rewrite Hc, Hnd.
  unfold complete. cbn [nodes log set_invs set_node set_nodes set_timers].
  rewrite list_lookup_insert_eq by done.
  set (nd1 := setAttribute "data-naboo" _ (removeEventListener inv nd)).
  assert (Hnum : to_number (getAttribute "data-naboo" nd1)
                 = Z.pred <$> to_number (getAttribute "data-naboo" nd)).
  { unfold nd1, getAttribute at 1, setAttribute. simpl. rewrite lookup_insert_eq.
    change (getAttribute "data-naboo" (removeEventListener inv nd))
      with (getAttribute "data-naboo" nd).
    destruct (to_number (getAttribute "data-naboo" nd)) as [z|]; simpl; [|done].
    apply to_number_pretty. }
  assert (Hnode : completed_node P inv nd
                  = if bool_decide (to_number (getAttribute "data-naboo" nd1) = Some 0)
                    then setCss (cssReset P) nd1 else nd1) by done.
  assert (Hiff : bool_decide (to_number (getAttribute "data-naboo" nd1) = Some 0)
                 = bool_decide (to_number (getAttribute "data-naboo" nd) = Some 1)).
  { rewrite Hnum. apply bool_decide_ext.
    destruct (to_number (getAttribute "data-naboo" nd)) as [z|]; simpl; [|done].
    split; intros [= ?]; f_equal; lia. }
  rewrite Hnode, <- Hiff.
  destruct (bool_decide (to_number (getAttribute "data-naboo" nd1) = Some 0)).
  - match goal with |- context [match inv_cb c with Some cb => _ ?x | None => Ok ?y end] =>
      destruct (plain_callback_frame c w y k Hcb eq_refl eq_refl)
        as (w' & Hrun & Hn & Hi & Ht & Hs & _ & _ & Hr)
    end.
    exists w'. split; [exact Hrun|]. rewrite Hn, Hi, Ht, Hs, Hr. simpl.
    rewrite list_insert_insert_eq.
    repeat (split; [done|]).
    rewrite !count_event_app. unfold count_event. simpl.
    repeat case_bool_decide; try congruence; simpl; lia.
  - match goal with |- context [match inv_cb c with Some cb => _ ?x | None => Ok ?y end] =>
      destruct (plain_callback_frame c w y k Hcb eq_refl eq_refl)
        as (w' & Hrun & Hn & Hi & Ht & Hs & _ & _ & Hr)
    end.
    exists w'. split; [exact Hrun|]. rewrite Hn, Hi, Ht, Hs, Hr. simpl.
    rewrite list_insert_insert_eq.
    repeat (split; [done|]).
    rewrite !count_event_app. unfold count_event. simpl.
    repeat case_bool_decide; try congruence; simpl; lia.
Qed.

End Completes.

Section Events.
Context (P : Platform).

Lemma deliver_unchanged {A} (g : A -> World -> outcome) (l : list A) (w : World) :
  (forall x, x ∈ l -> g x w = Ok w \/ g x w = Throw w) -> deliver g l w = Ok w.
Proof.
  induction l as [|x l IH]; intros H; simpl; [done|].
  destruct (H x) as [-> | ->]; [by left| |]; apply IH; intros y Hy; apply H; by right.
Qed.

(** X12.  An event that comes from a descendant of the node ([target] is not
    [currentTarget]), or whose [elapsedTime] is not the double
    [duration + delay] of the call, is ignored by the handler: when this is so
    for every listener of the node, the delivery changes nothing, and the
    listeners stay.  The comparison is that of doubles: for 100 ms and 50 ms
    the sum of 0.1 and 0.05 is 0.15000000000000002, and 0.15 is another
    double. *)
Theorem unmatched_event_ignored (cur tgt : noderef) (q : double) (nd : Node) (w : World)
    (k : nat) :
  nodes w !! cur = Some nd ->
  (forall i c, i ∈ listeners nd -> invs w !! i = Some c ->
     tgt ≠ cur \/ double_eq q (elapsed c) = false) ->
  run P (S (S k)) (Act (Dispatch cur tgt q)) w = Ok w
  /\ (forall d cb f,
        let c := {| inv_dom := d; inv_duration := 100 # 1000; inv_delay := 50 # 1000;
                    inv_cb := cb; fired := f |} in
        double_eq (decimal 15 2) (elapsed c) = false
        /\ double_eq (decimal 15000000000000002 17) (elapsed c) = true).
Proof.
  intros Hnd Hall. split; [|intros d cb f c; split; vm_compute; reflexivity].
  rewrite run_S. cbn [run_call]. unfold dispatch. rewrite Hnd.
  apply deliver_unchanged. intros i Hi. rewrite Hnd.
  rewrite bool_decide_eq_true_2 by done.
  rewrite run_S. cbn [run_call]. unfold wrappedCallback.
  destruct (invs w !! i) as [c|] eqn:Hc; [|by right]. left.
  cbn [elapsedTime target currentTarget].
  destruct (Hall i c Hi Hc) as [Hne| ->]; [|done].
  destruct (double_eq q (elapsed c)); cbn [negb]; [|done].
  by rewrite (proj2 (Nat.eqb_neq tgt cur)).
Qed.




End Events.

Section Animate.
Context (P : Platform).



End Animate.

Section AnimateClaims.
Context (P : Platform).

Lemma apply_animate_callback (f : fnref) (cb : jsval) (s : ref) (w : World) (k : nat) :
  funs w !! f = Some (AnimateCb cb s) ->
  run P (S (S k)) (Apply f) w
  = bind (match cb with
          | VFun g => run P (S k) (Apply g) w
          | _ => if falsy cb then Ok w else Throw w
          end) (run P (S k) (Act (Next s))).
Proof. intros Hf. rewrite run_S. cbn [run_call]. unfold call_function. by rewrite Hf. Qed.



(** X16.  An [animate] step whose target is [null] or [undefined], or whose
    properties are not an object, wraps the callback of its options object and
    does nothing else: [Naboo.transition] returns at its guard, so there is no
    timer and no listener that would call the continuation.  When nothing else
    is in flight, nothing that the platform does changes the store: the
    sequence stays on this step. *)
Theorem animate_without_target_stalls (s : ref) (dom : option noderef) (prop : proparg)
    (opt : option optref) (w : World) (j : nat) :
  dom = None \/ (exists v, prop = PropOther v) ->
  match opt with Some r => is_Some (opts w !! r) | None => True end ->
  exists w1,
    run P (S j) (RunStep s (StepAnimate dom prop opt)) w = Ok w1
    /\ seqs w1 = seqs w /\ nodes w1 = nodes w /\ invs w1 = invs w
    /\ timers w1 = timers w /\ trace w1 = trace w
    /\ funs w1 = funs w ++ [AnimateCb (opt_cb (get_options opt w)) s]
    /\ (timers w = [] -> (forall d nd, nodes w !! d = Some nd -> listeners nd = []) ->
        forall fuel script, (1 <= fuel)%nat -> forallb is_platform script = true ->
          run_script P fuel script w1 = Some w1).
Proof.
  intros Hguard Hopt. rewrite run_S. cbn [run_call]. unfold plugin_animate.
  set (r := animate_options opt w).
  set (w0 := match opt with
             | Some _ => w
             | None => set_opts (opts w ++ [no_options]) w
             end).
  assert (Hpair : match opt with
                  | Some r => (r, w)
                  | None => (length (opts w), set_opts (opts w ++ [no_options]) w)
                  end = (r, w0)) by by destruct opt.
  rewrite Hpair. clear Hpair.
  assert (Ho : opts w0 !! r = Some (get_options opt w)).
  { unfold w0, r. destruct opt as [r0|]; simpl.
    - by destruct Hopt as [o ->].
    - by rewrite lookup_app_r, Nat.sub_diag. }
  assert (Hw0 : nodes w0 = nodes w /\ funs w0 = funs w /\ seqs w0 = seqs w
                /\ trace w0 = trace w /\ invs w0 = invs w /\ timers w0 = timers w).
  { unfold w0. by destruct opt. }
  destruct Hw0 as (Hn0 & Hf0 & Hs0 & Ht0 & Hi0 & Htm0).
  rewrite Ho.
  set (w2 := set_opts _ _).
  assert (Hguarded : transition P dom prop (Some r) w2 = Ok w2).
  { destruct Hguard as [->|[v ->]]; [done|]. by destruct dom. }
  rewrite Hguarded. exists w2. split; [done|].
  assert (Hw2 : seqs w2 = seqs w /\ nodes w2 = nodes w /\ invs w2 = invs w
                /\ timers w2 = timers w /\ trace w2 = trace w
                /\ funs w2 = funs w ++ [AnimateCb (opt_cb (get_options opt w)) s]).
  { unfold w2. simpl. by rewrite Hs0, Hn0, Hi0, Htm0, Ht0, Hf0. }
  destruct Hw2 as (Hs2 & Hn2 & Hi2 & Htm2 & Ht2 & Hf2). clearbody w2.
  repeat (split; [done|]).
  intros Htimers Hlisteners fuel script Hfuel Hscript.
  destruct fuel as [|fuel]; [lia|].
  induction script as [|a script IH]; [done|].
  simpl in Hscript. apply andb_true_iff in Hscript as [Ha Hscript].
  cbn [run_script]. rewrite run_S.
  destruct a as [| | | |i|cur tgt q]; try discriminate; cbn [run_call].
  - unfold fire_timer. rewrite Htm2, Htimers. simpl. by apply IH.
  - unfold dispatch. rewrite Hn2.
    destruct (nodes w !! cur) as [ndc|] eqn:E; [|by apply IH].
    rewrite (Hlisteners cur ndc E). simpl. by apply IH.
Qed.

End AnimateClaims.

Section RoundTrip.
Context (P : Platform).

Lemma transition_properties_dashed (name : string) :
  name ∈ transition_properties P -> dasherize name = name.
Proof.
  unfold transition_properties, transitionProperty, transitionDuration, transitionDelay,
    transitionTiming.
  destruct (prefix_cases P) as [-> | [-> | [-> | ->]]]; intros H;
    repeat (apply elem_of_cons in H as [->|H]; [by vm_compute|]); by apply elem_of_nil in H.
Qed.

Lemma mentions_elem_of (name : string) (obj : list (string * jsval)) :
  mentions name obj = bool_decide (name ∈ (λ kv, dasherize kv.1) <$> obj).
Proof.
  unfold mentions. induction obj as [|kv obj IH]; simpl.
  - done.
  - rewrite IH. apply eq_true_iff_eq.
    rewrite orb_true_iff, !bool_decide_eq_true, elem_of_cons.
    split; (intros [H|H]; [by left|by right]).
Qed.

Lemma reset_lookup (nd : Node) (name : string) :
  style (setCss (cssReset P) nd) !! name
  = if bool_decide (name ∈ transition_properties P) then None else style nd !! name.
Proof.
  rewrite setCss_lookup.
  assert (Hd : declared name (cssReset P) = None).
  { unfold cssReset. simpl. by rewrite !andb_false_r. }
  rewrite Hd, mentions_elem_of.
  assert (Hn : (λ kv : string * jsval, dasherize kv.1) <$> cssReset P = transition_properties P).
  { unfold cssReset, transition_properties. cbn [fmap list_fmap fst].
    rewrite !transition_properties_dashed; [done|..]; unfold transition_properties.
    - do 3 right. by left.
    - do 2 right. by left.
    - right. by left.
    - by left. }
  by rewrite Hn.
Qed.

Lemma filter_fresh (inv : invref) (l : list invref) :
  inv ∉ l -> filter (λ i, i ≠ inv) l = l.
Proof.
  induction l as [|x l IH]; [done|]. intros H. apply not_elem_of_cons in H as [Hx Hl].
  rewrite filter_cons_True by congruence. by rewrite IH.
Qed.

Lemma filter_added (inv : invref) (l : list invref) :
  inv ∉ l -> filter (λ i, i ≠ inv) (l ++ [inv]) = l.
Proof.
  intros H. rewrite filter_app, filter_fresh by done.
  rewrite filter_cons_False by (intros Hne; by apply Hne). by rewrite app_nil_r.
Qed.

Lemma transition_declarations_other (nd : Node) (cp : list string) (du dl : Q) (ease : jsval)
    (cv : list (string * jsval)) (name : string) :
  name ∉ transition_properties P ->
  declared name (transition_declarations P nd cp du dl ease cv) = declared name cv
  /\ mentions name (transition_declarations P nd cp du dl ease cv) = mentions name cv.
Proof.
  intros Hn.
  assert (Hne : forall key, key ∈ transition_properties P -> dasherize key ≠ name).
  { intros key Hk. rewrite transition_properties_dashed by done. by intros ->. }
  assert (H1 := Hne (transitionProperty P) ltac:(by left)).
  assert (H2 := Hne (transitionDuration P) ltac:(right; by left)).
  assert (H3 := Hne (transitionDelay P) ltac:(do 2 right; by left)).
  assert (H4 := Hne (transitionTiming P) ltac:(do 3 right; by left)).
  unfold transition_declarations. split.
  - by rewrite !declared_obj_set_other.
  - rewrite !mentions_obj_set. rewrite !bool_decide_eq_false_2 by done.
    by rewrite !orb_false_r.
Qed.

Lemma transition_node_shape (inv : invref) (o : options) (nd : Node)
    (cv : list (string * jsval)) (cp : list string) :
  let nd1 := transition_node P inv o nd cv cp in
  attrs nd1 = <["data-naboo" := "1"]> (attrs nd)
  /\ listeners nd1
     = (if 0 <? clamp_duration P (resolve_duration (opt_duration o))
        then (if bool_decide (inv ∈ listeners nd) then listeners nd
              else (listeners nd ++ [inv]))
        else listeners nd)
  /\ (forall name, name ∉ transition_properties P ->
        style nd1 !! name = style (setCss cv nd) !! name)
  /\ ((0 <? clamp_duration P (resolve_duration (opt_duration o))) = false ->
        style nd1 = style (setCss cv nd)).
Proof.
  intros nd1. unfold nd1, transition_node. rewrite counter_restarts.
  destruct (0 <? clamp_duration P (resolve_duration (opt_duration o))).
  - split; [done|]. split; [done|]. split; [|done].
    intros name Hn. rewrite !setCss_lookup.
    destruct (transition_declarations_other
                (setAttribute "data-naboo" (js_add (VNum 0) (VNum 1)) nd) cp
                (clamp_duration P (resolve_duration (opt_duration o)) # 1000)
                (resolve_delay (opt_delay o) # 1000) (resolve_ease (opt_ease o)) cv name Hn)
      as [-> ->].
    done.
  - done.
Qed.

(** X17.  A transition that runs to its completion, seen on the node: after
    the call and the run of its timer (the callback running no user code), the
    node holds the values that [setCss(dom, cssValues)] gives to the animated
    properties, it has none of the four transition declarations, whether the
    call wrote them or they were there before, [data-naboo] is ["0"], and the
    listeners are those it had before the call. *)
Theorem completed_transition_leaves_targets (d : noderef) (kvs : list (string * jsval))
    (opt : option optref) (nd : Node) (w w1 : World) (fuel : nat) :
  transition P (Some d) (PropObject kvs) opt w = Ok w1 -> nodes w !! d = Some nd ->
  length (invs w) ∉ listeners nd ->
  plain_callback w1 (new_invocation P d (get_options opt w)) = true -> (4 <= fuel)%nat ->
  exists cssValues cssProperty w2 nd2,
    collect P kvs [] [] = Some (cssValues, cssProperty)
    /\ run P fuel (Act (FireTimer (length (invs w)))) w1 = Ok w2
    /\ nodes w2 !! d = Some nd2
    /\ attrs nd2 = <["data-naboo" := "0"]> (attrs nd)
    /\ listeners nd2 = listeners nd
    /\ forall name,
         style nd2 !! name
         = if bool_decide (name ∈ transition_properties P) then None
           else style (setCss cssValues nd) !! name.
Proof.
  intros H Hnd Hfresh Hcb Hfuel.
  apply transition_creates in H as (nd' & cv & cp & Hnd' & Hcollect & Hw1).
  rewrite Hnd in Hnd'. injection Hnd' as <-.
  set (inv := length (invs w)) in *. set (o := get_options opt w) in *.
  set (c := new_invocation P d o) in *.
  set (nd1 := transition_node P inv o nd cv cp) in *.
  assert (Hld : (d < length (nodes w))%nat) by by eapply lookup_lt_Some.
  destruct (transition_node_shape inv o nd cv cp) as (Hattrs & Hlisteners & Hstyle & _).
  fold nd1 in Hattrs, Hlisteners, Hstyle.
  destruct (fire_timer_completes P inv c nd1
              (fallback_timeout (inv_duration c) (inv_delay c)) w1 fuel)
    as (w2 & Hrun & Hnodes & _); try done.
  { subst w1. simpl. apply elem_of_app. right. by apply list_elem_of_singleton. }
  { subst w1. simpl. by rewrite lookup_app_r, Nat.sub_diag. }
  { subst w1. simpl. by apply list_lookup_insert_eq. }
  exists cv, cp, w2, (completed_node P inv nd1).
  split; [done|]. split; [done|].
  split.
  { rewrite Hnodes. simpl. apply list_lookup_insert_eq. subst w1. simpl.
    by rewrite length_insert. }
  assert (Hget : getAttribute "data-naboo" (removeEventListener inv nd1) = VStr "1").
  { unfold getAttribute. change (attrs (removeEventListener inv nd1)) with (attrs nd1).
    by rewrite Hattrs, lookup_insert_eq. }
  unfold completed_node. cbv zeta. rewrite Hget.
  change (Z.pred <$> to_number (VStr "1")) with (Some 0).
  rewrite bool_decide_eq_true_2
    by (unfold getAttribute, setAttribute; cbn [attrs]; by rewrite lookup_insert_eq).
  split; [|split].
  - cbn [attrs setCss set_style setAttribute removeEventListener].
    by rewrite Hattrs, insert_insert_eq.
  - cbn [listeners setCss set_style setAttribute removeEventListener]. rewrite Hlisteners.
    rewrite (bool_decide_eq_false_2 _ Hfresh).
    destruct (0 <? clamp_duration P (resolve_duration (opt_duration o)));
      [by apply filter_added|by apply filter_fresh].
  - intros name. rewrite reset_lookup.
    destruct (bool_decide (name ∈ transition_properties P)) eqn:Hin; [done|].
    apply bool_decide_eq_false in Hin.
    cbn [style setAttribute removeEventListener]. by apply Hstyle.
Qed.

(** X18.  A negative duration is clamped to 0: the call writes no transition
    declaration and registers no listener; the node gets the values of the
    animated properties at once, and the completion is left to the timer, set
    to the delay plus 25 ms. *)
Theorem negative_duration_applies_at_once (d : noderef) (kvs : list (string * jsval))
    (opt : option optref) (nd : Node) (w w1 : World) (z : Z) :
  transition P (Some d) (PropObject kvs) opt w = Ok w1 -> nodes w !! d = Some nd ->
  parseInt (opt_duration (get_options opt w)) = Some z -> z < 0 ->
  exists cssValues cssProperty c nd1,
    collect P kvs [] [] = Some (cssValues, cssProperty)
    /\ invs w1 !! length (invs w) = Some c /\ inv_duration c = 0 # 1000
    /\ nodes w1 !! d = Some nd1
    /\ listeners nd1 = listeners nd
    /\ style nd1 = style (setCss cssValues nd)
    /\ timers w1 = timers w ++ [(fallback_timeout (0 # 1000) (inv_delay c), length (invs w))].
Proof.
  intros H Hnd Hz Hneg.
  apply transition_creates in H as (nd' & cv & cp & Hnd' & Hcollect & Hw1).
  rewrite Hnd in Hnd'. injection Hnd' as <-.
  assert (Hld : (d < length (nodes w))%nat) by by eapply lookup_lt_Some.
  assert (Hzero : clamp_duration P (resolve_duration (opt_duration (get_options opt w))) = 0).
  { rewrite resolved_duration, Hz.
    rewrite (proj2 (Z.eqb_neq z 0)) by lia. lia. }
  destruct (transition_node_shape (length (invs w)) (get_options opt w) nd cv cp)
    as (_ & Hlisteners & _ & Hstyle).
  rewrite Hzero in Hlisteners, Hstyle.
  exists cv, cp, (new_invocation P d (get_options opt w)),
    (transition_node P (length (invs w)) (get_options opt w) nd cv cp).
  subst w1.
  cbn [invs nodes timers set_timers set_invs set_node set_nodes inv_duration inv_delay
       new_invocation].
  rewrite Hzero.
  split; [done|]. split; [by rewrite lookup_app_r, Nat.sub_diag|]. split; [done|].
  split; [by apply list_lookup_insert_eq|]. split; [done|]. split; [by apply Hstyle|done].
Qed.

(** X19.  Each completion lowers the count of [data-naboo] by one, whatever
    [small] integer the attribute holds: the text is read back as the number
    it was written from.  The transition declarations are removed exactly
    when the count goes from 1 to 0; otherwise the style is left as it is. *)
Theorem completion_lowers_counter (inv : invref) (c : Invocation) (nd : Node) (q : double)
    (w : World) (fuel : nat) (z : Z) :
  (q, inv) ∈ timers w -> invs w !! inv = Some c -> fired c = false ->
  nodes w !! inv_dom c = Some nd -> plain_callback w c = true -> (4 <= fuel)%nat ->
  attrs nd !! "data-naboo" = Some (pretty z) -> small z ->
  exists w' nd',
    run P fuel (Act (FireTimer inv)) w = Ok w'
    /\ nodes w' !! inv_dom c = Some nd'
    /\ attrs nd' = <["data-naboo" := pretty (z - 1)]> (attrs nd)
    /\ (z = 1 ->
        (forall name, style nd' !! name
                      = if bool_decide (name ∈ transition_properties P) then None
                        else style nd !! name)
        /\ count_event (EvReset (inv_dom c)) (trace w')
           = S (count_event (EvReset (inv_dom c)) (trace w)))
    /\ (z ≠ 1 ->
        style nd' = style nd
        /\ count_event (EvReset (inv_dom c)) (trace w')
           = count_event (EvReset (inv_dom c)) (trace w)).
Proof.
  intros Hq Hc Hf Hnd Hcb Hfuel Hattr _.
  assert (Hld : (inv_dom c < length (nodes w))%nat) by by eapply lookup_lt_Some.
  destruct (fire_timer_completes P inv c nd q w fuel Hq Hc Hf Hnd Hcb Hfuel)
    as (w' & Hrun & Hnodes & _ & _ & _ & Hreset).
  assert (Hnum : to_number (getAttribute "data-naboo" nd) = Some z).
  { unfold getAttribute. rewrite Hattr. apply to_number_pretty. }
  exists w', (completed_node P inv nd).
  split; [done|]. split; [rewrite Hnodes; by apply list_lookup_insert_eq|].
  rewrite Hnum in Hreset. unfold completed_node. cbv zeta.
  change (getAttribute "data-naboo" (removeEventListener inv nd))
    with (getAttribute "data-naboo" nd).
  rewrite Hnum.
  set (nd1 := setAttribute "data-naboo" _ _).
  assert (Hnum1 : to_number (getAttribute "data-naboo" nd1) = Some (z - 1)).
  { unfold nd1, getAttribute, setAttribute. simpl. rewrite lookup_insert_eq.
    rewrite to_number_pretty. f_equal; lia. }
  assert (Hattrs1 : attrs nd1 = <["data-naboo" := pretty (z - 1)]> (attrs nd)).
  { unfold nd1, setAttribute. simpl. do 2 f_equal; lia. }
  rewrite Hnum1.
  destruct (decide (z = 1)) as [->|Hz].
  - rewrite bool_decide_eq_true_2 by done. rewrite bool_decide_eq_true_2 in Hreset by done.
    split; [exact Hattrs1|]. split; [|done]. intros _. split; [|lia].
    intros name. by rewrite reset_lookup.
  - rewrite bool_decide_eq_false_2 by (intros [= ?]; lia).
    rewrite bool_decide_eq_false_2 in Hreset by (intros [= ?]; lia).
    split; [exact Hattrs1|]. split; [done|]. intros _. split; [done|lia].
Qed.

Lemma transition_properties_distinct : NoDup (transition_properties P).
Proof.
  unfold transition_properties, transitionProperty, transitionDuration, transitionDelay,
    transitionTiming.
  destruct (prefix_cases P) as [-> | [-> | [-> | ->]]]; compute_done.
Qed.

Lemma collect_names kvs cv cp cv' cp' :
  collect P kvs cv cp = Some (cv', cp') ->
  cp' = cp ++ ((λ kv, dasherize (default "" (getPropName P kv.1))) <$> kvs).
Proof.
  revert cv cp. induction kvs as [|[k v] kvs IH]; intros cv cp H; simpl in H.
  - injection H as <- <-. by rewrite app_nil_r.
  - destruct (getPropName P k) as [key|] eqn:E; [|discriminate].
    apply IH in H. rewrite H. simpl. rewrite E. simpl. by rewrite <- app_assoc.
Qed.

Lemma resolve_ease_text (v : jsval) : exists e, e ∈ easeArr /\ resolve_ease v = VStr e.
Proof.
  unfold resolve_ease. destruct (existsb _ easeArr) eqn:E.
  - apply existsb_exists in E as (e & Hin & He). exists e. split; [by apply list_elem_of_In|].
    unfold strict_eq in He. destruct v; try done; by apply bool_decide_eq_true in He.
  - exists "ease". split; [by left|done].
Qed.

Lemma text_kept (a b : string) : b ≠ "" -> is_removal (VStr (a +:+ b)) = false.
Proof.
  intros Hb. unfold is_removal. simpl. rewrite andb_true_r. apply bool_decide_eq_false_2.
  destruct a; simpl; [done|discriminate].
Qed.

(** X20.  A call with a positive duration adds one entry to the declarations
    [transition-property] and [transition-timing-function] of the node: the
    dashed names of the animated properties, in the order of the keys and
    joined by [", "], and the resolved [ease], each after what the node
    declared before and [", "] when that was not empty. *)
Theorem transition_appends_declarations (d : noderef) (kvs : list (string * jsval))
    (opt : option optref) (nd : Node) (w w1 : World) :
  transition P (Some d) (PropObject kvs) opt w = Ok w1 -> nodes w !! d = Some nd ->
  let o := get_options opt w in
  let names := (λ kv : string * jsval, dasherize (default "" (getPropName P kv.1))) <$> kvs in
  0 < clamp_duration P (resolve_duration (opt_duration o)) ->
  (forall name, name ∈ names -> name ∉ transition_properties P) ->
  join names ≠ "" ->
  exists nd1,
    nodes w1 !! d = Some nd1
    /\ style nd1 !! transitionProperty P
       = Some (with_comma (style_get (transitionProperty P) nd) +:+ join names)
    /\ style nd1 !! transitionTiming P
       = Some (with_comma (style_get (transitionTiming P) nd)
               +:+ to_string (resolve_ease (opt_ease o))).
Proof.
  intros H Hnd o names Hpos Hnames Hjoin.
  apply transition_creates in H as (nd' & cv & cp & Hnd' & Hcollect & ->).
  rewrite Hnd in Hnd'. injection Hnd' as <-. fold o.
  assert (Hld : (d < length (nodes w))%nat) by by eapply lookup_lt_Some.
  assert (Hcp : cp = names) by (by apply collect_names in Hcollect).
  subst cp.
  assert (Hdash := transition_properties_dashed).
  assert (Hin : forall i name, transition_properties P !! i = Some name ->
                  name ∈ transition_properties P).
  { intros i name Hi. by eapply list_elem_of_lookup_2. }
  assert (HP := Hin 0%nat _ eq_refl). assert (HD := Hin 1%nat _ eq_refl).
  assert (HL := Hin 2%nat _ eq_refl). assert (HT := Hin 3%nat _ eq_refl).
  assert (Hnd4 := transition_properties_distinct).
  unfold transition_properties in Hnd4.
  apply NoDup_cons in Hnd4 as [Hn1 Hnd4]. apply NoDup_cons in Hnd4 as [Hn2 Hnd4].
  apply NoDup_cons in Hnd4 as [Hn3 _].
  assert (Hm : forall name, name ∈ transition_properties P -> mentions name cv = false).
  { intros name Hname. eapply collect_mentions; [exact Hcollect|done|].
    intros k v key Hkv Hkey Heq. apply (Hnames name); [|done].
    apply list_elem_of_fmap. exists (k, v). split; [|done]. simpl. by rewrite Hkey. }
  exists (transition_node P (length (invs w)) o nd cv names).
  split; [simpl; by apply list_lookup_insert_eq|].
  unfold transition_node. rewrite counter_restarts.
  rewrite (proj2 (Z.ltb_lt _ _) Hpos).
  destruct (resolve_ease_text (opt_ease o)) as (e & He & Hease). rewrite Hease.
  split.
  - apply setCss_declared_text. unfold transition_declarations.
    rewrite 3!declared_obj_set_other.
    + apply declared_obj_set; [by apply Hdash|by apply text_kept|by apply Hm].
    + rewrite Hdash by done. intros Heq. apply Hn1. rewrite <- Heq. by left.
    + rewrite Hdash by done. intros Heq. apply Hn1. rewrite <- Heq. do 2 right. by left.
    + rewrite Hdash by done. intros Heq. apply Hn1. rewrite <- Heq. right. by left.
  - apply setCss_declared_text. unfold transition_declarations.
    rewrite declared_obj_set_other.
    + apply declared_obj_set; [by apply Hdash| |].
      * apply text_kept. simpl. intros ->.
        repeat (apply elem_of_cons in He as [He|He]; [discriminate|]).
        by apply elem_of_nil in He.
      * rewrite !mentions_obj_set, Hm by done. simpl.
        rewrite !Hdash by done. rewrite !bool_decide_eq_false_2; [done|..].
        -- intros Heq. apply Hn2. rewrite Heq. right. by left.
        -- intros Heq. apply Hn1. rewrite Heq. do 2 right. by left.
    + rewrite Hdash by done. intros Heq. apply Hn3. rewrite Heq. by left.
Qed.

End RoundTrip.

(** *** The work of a completion

    What the body of [wrappedCallback] does, on either path, and the callers
    that bring it to run. *)
Section CompletionWork.
Context (P : Platform).

Lemma completed_node_spec (inv : invref) (nd : Node) :
  listeners (completed_node P inv nd) = filter (λ i, i ≠ inv) (listeners nd)
  /\ (inv ∉ listeners (completed_node P inv nd))
  /\ (forall z, small z -> attrs nd !! "data-naboo" = Some (pretty z) ->
        (attrs (completed_node P inv nd) = <["data-naboo" := pretty (z - 1)]> (attrs nd))
        /\ forall name,
             style (completed_node P inv nd) !! name
             = if bool_decide (z = 1 /\ name ∈ transition_properties P) then None
               else style nd !! name).
Proof.
  unfold completed_node. cbv zeta.
  set (nd1 := setAttribute "data-naboo" _ (removeEventListener inv nd)).
  assert (Hl : forall b : bool,
            listeners (if b then setCss (cssReset P) nd1 else nd1)
            = filter (λ i, i ≠ inv) (listeners nd)) by by intros [].
  split; [apply Hl|]. split.
  { rewrite Hl. intros Hin. apply list_elem_of_filter in Hin. tauto. }
  intros z _ Hattr.
  assert (Hnum : to_number (getAttribute "data-naboo" nd) = Some z).
  { unfold getAttribute. rewrite Hattr. apply to_number_pretty. }
  assert (Hattrs1 : attrs nd1 = <["data-naboo" := pretty (z - 1)]> (attrs nd)).
  { unfold nd1, setAttribute. cbn [attrs].
    change (getAttribute "data-naboo" (removeEventListener inv nd))
      with (getAttribute "data-naboo" nd).
    rewrite Hnum. simpl. do 2 f_equal; lia. }
  assert (Hnum1 : to_number (getAttribute "data-naboo" nd1) = Some (z - 1)).
  { unfold getAttribute. rewrite Hattrs1, lookup_insert_eq. apply to_number_pretty. }
  rewrite Hnum1.
  destruct (decide (z = 1)) as [->|Hz].
  - rewrite bool_decide_eq_true_2 by done. split; [exact Hattrs1|].
    intros name. rewrite reset_lookup.
    destruct (decide (name ∈ transition_properties P)) as [Hin|Hin].
    + by rewrite !bool_decide_eq_true_2.
    + rewrite !bool_decide_eq_false_2; [done| |done]. by intros [_ ?].
  - rewrite bool_decide_eq_false_2 by (intros [= ?]; lia). split; [exact Hattrs1|].
    intros name. rewrite bool_decide_eq_false_2; [done|]. by intros [? _].
Qed.

Lemma complete_runs (inv : invref) (c : Invocation) (nd : Node) (w : World) :
  nodes w !! inv_dom c = Some nd ->
  exists wc,
    (forall self,
       complete P self inv c (set_node (inv_dom c) (removeEventListener inv nd) w)
       = match inv_cb c with Some f => self (Apply f) wc | None => Ok wc end)
    /\ nodes wc = <[inv_dom c := completed_node P inv nd]> (nodes w)
    /\ invs wc = <[inv := set_fired c]> (invs w)
    /\ timers wc = timers w /\ seqs wc = seqs w /\ funs wc = funs w /\ opts wc = opts w
    /\ trace wc = trace w ++ EvComplete inv :: reset_events (inv_dom c) nd.
Proof.
  intros Hnd.
  assert (Hld : (inv_dom c < length (nodes w))%nat) by by eapply lookup_lt_Some.
  set (nd1 := setAttribute "data-naboo"
                (of_number (Z.pred <$> to_number (getAttribute "data-naboo" nd)))
                (removeEventListener inv nd)).
  assert (Hnum : to_number (getAttribute "data-naboo" nd1)
                 = Z.pred <$> to_number (getAttribute "data-naboo" nd)).
  { unfold nd1, getAttribute at 1, setAttribute. simpl. rewrite lookup_insert_eq.
    change (getAttribute "data-naboo" (removeEventListener inv nd))
      with (getAttribute "data-naboo" nd).
    destruct (to_number (getAttribute "data-naboo" nd)) as [z|]; simpl; [|done].
    apply to_number_pretty. }
  assert (Hiff : bool_decide (to_number (getAttribute "data-naboo" nd1) = Some 0)
                 = bool_decide (to_number (getAttribute "data-naboo" nd) = Some 1)).
  { rewrite Hnum. apply bool_decide_ext.
    destruct (to_number (getAttribute "data-naboo" nd)) as [z|]; simpl; [|done].
    split; intros [= ?]; f_equal; lia. }
  set (w0 := log (EvComplete inv)
               (set_invs (<[inv := set_fired c]> (invs w))
                  (set_node (inv_dom c) (removeEventListener inv nd) w))).
  exists (if bool_decide (to_number (getAttribute "data-naboo" nd1) = Some 0)
          then log (EvReset (inv_dom c)) (set_node (inv_dom c) (setCss (cssReset P) nd1) w0)
          else set_node (inv_dom c) nd1 w0).
  split.
  - intros self. unfold complete. cbn [nodes log set_invs set_node set_nodes].
    rewrite list_lookup_insert_eq by done. reflexivity.
  - assert (Hnode : completed_node P inv nd
                    = if bool_decide (to_number (getAttribute "data-naboo" nd1) = Some 0)
                      then setCss (cssReset P) nd1 else nd1) by done.
    unfold reset_events. rewrite Hnode, <- Hiff.
    destruct (bool_decide (to_number (getAttribute "data-naboo" nd1) = Some 0)); simpl;
      rewrite list_insert_insert_eq; repeat (split; [done|]); by rewrite <- ?app_assoc.
Qed.

(** The fallback timer of a call that has not completed runs the body, then
    the callback. *)
Lemma timer_runs_body (inv : invref) (c : Invocation) (nd : Node) (q : double) (w : World) :
  (q, inv) ∈ timers w -> invs w !! inv = Some c -> fired c = false ->
  nodes w !! inv_dom c = Some nd ->
  exists wc,
    (forall k, run P (S (S (S k))) (Act (FireTimer inv)) w
               = match inv_cb c with Some f => run P (S k) (Apply f) wc | None => Ok wc end)
    /\ nodes wc = <[inv_dom c := completed_node P inv nd]> (nodes w)
    /\ invs wc = <[inv := set_fired c]> (invs w)
    /\ timers wc = filter (λ t, t.2 ≠ inv) (timers w)
    /\ seqs wc = seqs w /\ funs wc = funs w /\ opts wc = opts w
    /\ trace wc = trace w ++ EvComplete inv :: reset_events (inv_dom c) nd.
Proof.
  intros Hq Hc Hf Hnd.
  destruct (complete_runs inv c nd (set_timers (filter (λ t, t.2 ≠ inv) (timers w)) w) Hnd)
    as (wc & Hrun & Hn & Hi & Ht & Hs & Hfu & Ho & Htr).
  exists wc. split; [|done].
  intros k. rewrite run_S. cbn [run_call]. unfold fire_timer.
  replace (existsb (λ t, (t.2 =? inv)%nat) (timers w)) with true.
  2:{ symmetry. apply existsb_exists. exists (q, inv). split.
      - by apply list_elem_of_In.
      - apply Nat.eqb_refl. }
  cbn [invs set_timers]. rewrite Hc, Hf.
  rewrite run_S. cbn [run_call]. unfold wrappedCallback.
  cbn [invs nodes set_timers]. rewrite Hc, Hnd. apply Hrun.
Qed.

(** A transition-end event of the node itself with the elapsed time of the
    call, delivered while the handler is the only listener of the node, runs
    the body and then the callback; an exception of the callback is reported
    and the delivery returns. *)
Lemma event_runs_body (inv : invref) (c : Invocation) (nd : Node) (q : double) (w : World) :
  invs w !! inv = Some c -> nodes w !! inv_dom c = Some nd -> listeners nd = [inv] ->
  double_eq q (elapsed c) = true ->
  exists wc,
    (forall k, run P (S (S (S k))) (Act (Dispatch (inv_dom c) (inv_dom c) q)) w
               = match (match inv_cb c with
                        | Some f => run P (S k) (Apply f) wc
                        | None => Ok wc
                        end) with
                 | Ok w' | Throw w' => Ok w'
                 | OutOfFuel => OutOfFuel
                 end)
    /\ nodes wc = <[inv_dom c := completed_node P inv nd]> (nodes w)
    /\ invs wc = <[inv := set_fired c]> (invs w)
    /\ timers wc = timers w
    /\ seqs wc = seqs w /\ funs wc = funs w /\ opts wc = opts w
    /\ trace wc = trace w ++ EvComplete inv :: reset_events (inv_dom c) nd.
Proof.
  intros Hc Hnd Hl Hq.
  destruct (complete_runs inv c nd w Hnd) as (wc & Hrun & Hrest).
  exists wc. split; [|done].
  intros k. rewrite run_S. cbn [run_call]. unfold dispatch. rewrite Hnd, Hl. cbn [deliver].
  rewrite Hnd, Hl, bool_decide_eq_true_2 by by apply list_elem_of_singleton.
  rewrite run_S. cbn [run_call]. unfold wrappedCallback. rewrite Hc.
  cbn [elapsedTime target currentTarget]. rewrite Hq, Nat.eqb_refl, Hnd. cbn [negb].
  rewrite Hrun. by destruct (inv_cb c).
Qed.

(** Once [fired] is set, the timer run does nothing but take the timer off
    the list. *)
Lemma timer_after_fired (inv : invref) (c : Invocation) (w : World) (k : nat) :
  invs w !! inv = Some c -> fired c = true ->
  exists w', run P (S k) (Act (FireTimer inv)) w = Ok w'
    /\ nodes w' = nodes w /\ invs w' = invs w /\ trace w' = trace w /\ seqs w' = seqs w
    /\ funs w' = funs w.
Proof.
  intros Hc Hf. rewrite run_S. cbn [run_call]. unfold fire_timer.
  destruct (existsb (λ t, (t.2 =? inv)%nat) (timers w)); [|by eexists].
  cbn [invs set_timers]. rewrite Hc, Hf. by eexists.
Qed.

(** The callback of an [animate] step of a canceled sequence: the callback
    of the options is called, and [next()] adds nothing. *)
Lemma canceled_wrapper (s : ref) (o : Naboo) (f : fnref) (cb : jsval) (w : World) (k : nat) :
  funs w !! f = Some (AnimateCb cb s) -> seqs w !! s = Some o -> canceled o = true ->
  -1 <= _index o ->
  run P (S (S k)) (Apply f) w
  = match cb with
    | VFun g => run P (S k) (Apply g) w
    | _ => if falsy cb then Ok w else Throw w
    end.
Proof.
  intros Hf Ho Hc Hi. rewrite (apply_animate_callback P f cb s) by done.
  assert (Hnext : forall w', (exists o', seqs w' !! s = Some o' /\ canceled o' = true) ->
            run P (S k) (Act (Next s)) w' = Ok w').
  { intros w' (o' & Ho' & Hc'). rewrite run_S. cbn [run_call]. unfold next.
    by rewrite Ho', Hc'. }
  destruct cb as [| |b|z| |t|g];
    try (destruct (falsy _); cbn [bind]; [apply Hnext; by exists o|done]).
  destruct (run P (S k) (Apply g) w) as [w'|w'|] eqn:E; cbn [bind]; [|done|done].
  apply Hnext.
  assert (H : outcome_is (run P (S k) (Apply g) w) w') by (left; exact E).
  apply (run_advanced P s) in H.
  destruct (H o Ho Hi) as (o' & j & Ho' & _ & _ & Hc' & _).
  exists o'. split; [done|]. by apply Hc'.
Qed.

End CompletionWork.


Section CompletionClaims.
Context (P : Platform).

(** C7.  A call of [Naboo.transition] that passes its guard creates the
    closure [inv], not yet fired, and sets the fallback timer to
    [(duration + delay) * 1000 + 25] milliseconds.  After that, whatever
    runs: the body of the completion handler has run at most once, and
    exactly once when [fired] is set; until then the timer is pending, and
    from then on the handler is a listener of no node.  The body has run
    exactly once as soon as the timer has been run, and also as soon as a
    transition-end event of the node itself has been delivered whose
    [elapsedTime] is the double [duration + delay] (the listener is there when
    the duration is positive); whatever follows, the other path included, does
    not make it run again.
    What the body does, in any store reached while it has not run.  Run by
    the timer: the handler is removed from the listeners of the node, [fired]
    is set, [data-naboo] is lowered by one, the transition declarations are
    removed when the count is then 0, and then the callback is called, in the
    store so changed: the run of the timer is the run of the callback there.
    Run by the event, when the handler is the only listener of the node: the
    same, and the delivery returns even when the callback throws.  Once the
    body has run, a run of the timer changes nothing in the nodes, the
    closures and the events.
    Both paths return: when the callback runs no user code, the timer run with
    fuel 4 returns and the body has run once; so does the delivery of the
    event, when the node had no other listener. *)
Theorem completion_runs_exactly_once (d : noderef) (kvs : list (string * jsval))
    (opt : option optref) (w0 w1 : World) :
  let inv := length (invs w0) in
  count_event (EvComplete inv) (trace w0) = 0%nat ->
  (forall d', ~ registered inv (nodes w0) d') ->
  transition P (Some d) (PropObject kvs) opt w0 = Ok w1 ->
  exists c,
    invs w1 !! inv = Some c /\ fired c = false /\ inv_dom c = d
    /\ (fallback_timeout (inv_duration c) (inv_delay c), inv) ∈ timers w1
    /\ (forall fuel script w2,
          run_script P fuel script w1 = Some w2 ->
          (count_event (EvComplete inv) (trace w2) <= 1)%nat
          /\ exists c2, invs w2 !! inv = Some c2
               /\ count_event (EvComplete inv) (trace w2) = (if fired c2 then 1 else 0)%nat
               /\ (fired c2 = false -> exists q, (q, inv) ∈ timers w2)
               /\ (fired c2 = true -> forall d', ~ registered inv (nodes w2) d'))
    /\ (forall fuel before after w2,
          run_script P fuel (before ++ FireTimer inv :: after) w1 = Some w2 ->
          count_event (EvComplete inv) (trace w2) = 1%nat)
    /\ (forall fuel before after q w2,
          double_eq q (elapsed c) = true -> (0 < inv_duration c)%Q ->
          run_script P fuel (before ++ Dispatch d d q :: after) w1 = Some w2 ->
          count_event (EvComplete inv) (trace w2) = 1%nat)
    /\ (forall fuel script w2,
          run_script P fuel script w1 = Some w2 ->
          count_event (EvComplete inv) (trace w2) = 0%nat ->
          exists nd2,
            nodes w2 !! d = Some nd2
            /\ (exists wc,
                  (forall k, run P (S (S (S k))) (Act (FireTimer inv)) w2
                             = match inv_cb c with
                               | Some f => run P (S k) (Apply f) wc
                               | None => Ok wc
                               end)
                  /\ nodes wc = <[d := completed_node P inv nd2]> (nodes w2)
                  /\ invs wc = <[inv := set_fired c]> (invs w2)
                  /\ timers wc = filter (λ t, t.2 ≠ inv) (timers w2)
                  /\ trace wc = trace w2 ++ EvComplete inv :: reset_events d nd2)
            /\ (forall q, listeners nd2 = [inv] -> double_eq q (elapsed c) = true ->
                exists wc,
                  (forall k, run P (S (S (S k))) (Act (Dispatch d d q)) w2
                             = match (match inv_cb c with
                                      | Some f => run P (S k) (Apply f) wc
                                      | None => Ok wc
                                      end) with
                               | Ok w' | Throw w' => Ok w'
                               | OutOfFuel => OutOfFuel
                               end)
                  /\ nodes wc = <[d := completed_node P inv nd2]> (nodes w2)
                  /\ invs wc = <[inv := set_fired c]> (invs w2)
                  /\ timers wc = timers w2
                  /\ trace wc = trace w2 ++ EvComplete inv :: reset_events d nd2))
    /\ (forall fuel script w2,
          run_script P fuel script w1 = Some w2 ->
          count_event (EvComplete inv) (trace w2) = 1%nat ->
          forall k, exists w3,
            run P (S k) (Act (FireTimer inv)) w2 = Ok w3
            /\ nodes w3 = nodes w2 /\ invs w3 = invs w2 /\ trace w3 = trace w2)
    /\ (forall nd,
          listeners (completed_node P inv nd) = filter (λ i, i ≠ inv) (listeners nd)
          /\ (inv ∉ listeners (completed_node P inv nd))
          /\ (forall z, small z -> attrs nd !! "data-naboo" = Some (pretty z) ->
                (attrs (completed_node P inv nd)
                 = <["data-naboo" := pretty (z - 1)]> (attrs nd))
                /\ forall name,
                     style (completed_node P inv nd) !! name
                     = if bool_decide (z = 1 /\ name ∈ transition_properties P) then None
                       else style nd !! name))
    /\ (plain_callback w1 c = true -> forall fuel, (4 <= fuel)%nat ->
          (exists w2, run P fuel (Act (FireTimer inv)) w1 = Ok w2
             /\ count_event (EvComplete inv) (trace w2) = 1%nat)
          /\ (forall nd q,
                nodes w0 !! d = Some nd -> listeners nd = [] -> (0 < inv_duration c)%Q ->
                double_eq q (elapsed c) = true ->
                exists w2, run P fuel (Act (Dispatch d d q)) w1 = Ok w2
                  /\ count_event (EvComplete inv) (trace w2) = 1%nat)).
Proof.
  intros inv Hcount Hreg H.
  destruct (transition_inflight P d kvs opt w0 w1 Hcount Hreg H) as (Hf & Ht & Htimer).
  set (c := new_invocation P d (get_options opt w0)) in *. fold inv in Hf, Ht, Htimer.
  exists c. split; [apply Hf|]. split; [done|]. split; [done|]. split; [done|].
  assert (Hevent : forall c1 c2 q,
            double_eq q (elapsed c) = true -> (0 < inv_duration c)%Q ->
            c1 = c \/ c1 = set_fired c ->
            handler_post inv (Act (Dispatch d d q)) c1 c2 -> fired c2 = true).
  { intros c1 c2 q Hq Hpos Hc1 Hp. simpl in Hp.
    assert (Hs : inv_dom c1 = d /\ elapsed c1 = elapsed c
                 /\ inv_duration c1 = inv_duration c) by by destruct Hc1 as [->| ->].
    destruct Hs as (Hs1 & Hs2 & Hs3). apply Hp; try done.
    + by rewrite Hs2.
    + by rewrite Hs3. }
  assert (Hpending : forall fuel script w2,
            run_script P fuel script w1 = Some w2 ->
            count_event (EvComplete inv) (trace w2) = 0%nat ->
            inflight inv w2 c /\ timed inv w2 c).
  { intros fuel script w2 H2 H0.
    destruct (run_script_kept P inv fuel script c w1 w2 Hf Ht H2) as (c2 & Hc2 & Hf2 & Ht2).
    rewrite (if_count _ _ _ Hf2) in H0.
    destruct Hc2 as [->| ->]; [done|]. simpl in H0. discriminate. }
  split; [|split; [|split; [|split; [|split; [|split]]]]].
  - intros fuel script w2 H2.
    destruct (run_script_kept P inv fuel script c w1 w2 Hf Ht H2) as (c2 & Hc2 & Hf2 & Ht2).
    split.
    + rewrite (if_count _ _ _ Hf2). destruct (fired c2); lia.
    + exists c2. split; [apply Hf2|]. split; [apply Hf2|]. split; [done|].
      intros Hfired d' Hd'. apply (if_where _ _ _ Hf2) in Hd' as [_ Hd']. congruence.
  - intros fuel before after w2 H2.
    apply run_script_app in H2 as (wm & Hb & Ha).
    eapply completed_after; [by eapply run_script_kept| |exact Ha].
    intros c1 c2 _ Hp. by apply Hp.
  - intros fuel before after q w2 Hq Hpos H2.
    apply run_script_app in H2 as (wm & Hb & Ha).
    eapply completed_after; [by eapply run_script_kept| |exact Ha].
    intros c1 c2. by apply Hevent.
  - intros fuel script w2 H2 H0.
    destruct (Hpending fuel script w2 H2 H0) as [Hf2 Ht2].
    destruct (if_node _ _ _ Hf2) as [nd2 Hnd2]. change (inv_dom c) with d in Hnd2.
    destruct (Ht2 eq_refl) as [q Hq].
    exists nd2. split; [exact Hnd2|]. split.
    + destruct (timer_runs_body P inv c nd2 q w2 Hq (if_closure _ _ _ Hf2) eq_refl Hnd2)
        as (wc & Hrun & Hn & Hi & Htm & _ & _ & _ & Htr).
      exists wc. done.
    + intros q' Hl Hq'.
      destruct (event_runs_body P inv c nd2 q' w2 (if_closure _ _ _ Hf2) Hnd2 Hl Hq')
        as (wc & Hrun & Hn & Hi & Htm & _ & _ & _ & Htr).
      exists wc. done.
  - intros fuel script w2 H2 H1 k.
    destruct (run_script_kept P inv fuel script c w1 w2 Hf Ht H2) as (c2 & Hc2 & Hf2 & Ht2).
    rewrite (if_count _ _ _ Hf2) in H1.
    destruct (fired c2) eqn:Efired; [|discriminate].
    destruct (timer_after_fired P inv c2 w2 k (if_closure _ _ _ Hf2) Efired)
      as (w3 & Hrun & Hn & Hi & Htr & _).
    by exists w3.
  - intros nd. apply completed_node_spec.
  - intros Hcb fuel Hfuel. split.
    + destruct (fire_timer_returns P inv c w1 fuel (if_closure _ _ _ Hf) (if_node _ _ _ Hf)
                  Hcb Hfuel) as [w2 Hw2].
      exists w2. split; [done|].
      apply (completed_after P fuel inv (FireTimer inv) [] c w1 w2); [by apply kept_refl| |].
      * intros c1 c2 _ Hp. by apply Hp.
      * simpl. by rewrite Hw2.
    + intros nd q Hnd Hl Hpos Hq.
      destruct (transition_listens P d kvs opt w0 w1 nd H Hnd Hl Hpos) as (nd1 & Hnd1 & Hl1).
      destruct (dispatch_returns P inv c nd1 w1 q fuel (if_closure _ _ _ Hf) Hnd1 Hl1
                  Hcb Hfuel) as [w2 Hw2].
      exists w2. split; [exact Hw2|].
      apply (completed_after P fuel inv (Dispatch d d q) [] c w1 w2); [by apply kept_refl| |].
      * intros c1 c2. by apply Hevent.
      * simpl. change (inv_dom c) with d in Hw2. by rewrite Hw2.
Qed.

(** C5.  [cancel()] sets the flag of the sequence and writes nothing else;
    in the store it leaves, and after anything that runs from there, a call
    of [next()] returns with the store unchanged, the cursor is where it was,
    and the sequence has produced no event: no step is called, [end] is not
    triggered.  A transition in flight is not touched by [cancel()]: its
    listener and its timer are as before, and when the timer is run the body
    of its completion handler runs, once.  Its work is done as without
    [cancel()]: the handler is removed from the listeners of the node,
    [fired] is set, [data-naboo] is lowered by one, the transition
    declarations are removed when the count is then 0, and the callback is
    called in the store so changed.  When the callback is that of an
    [animate] step of the canceled sequence, the callback of the options
    object is called (it throws when it is truthy and no function), and the
    [next()] that follows adds nothing.  The run returns (with fuel 4) when
    the callback runs no user code: the body has run once, and the sequence
    has produced no event. *)
Theorem cancel_stops_progress (s : ref) (o : Naboo) (w : World) :
  seqs w !! s = Some o -> -1 <= _index o ->
  let wc := set_seq s (cancel o) w in
  (forall fuel, run P (S fuel) (Act (Cancel s)) w = Ok wc)
  /\ (forall fuel script w',
        run_script P fuel script wc = Some w' ->
        (forall fuel', run P (S fuel') (Act (Next s)) w' = Ok w')
        /\ exists o', seqs w' !! s = Some o' /\ canceled o' = true
             /\ _index o' = _index o /\ steps o' = steps o
             /\ advance_events s (trace w') = advance_events s (trace w))
  /\ (forall inv c,
        inflight inv w c -> timed inv w c ->
        inflight inv wc c /\ timed inv wc c
        /\ (forall fuel before after w',
              run_script P fuel (before ++ FireTimer inv :: after) wc = Some w' ->
              count_event (EvComplete inv) (trace w') = 1%nat)
        /\ (plain_callback wc c = true -> forall fuel, (4 <= fuel)%nat ->
              exists w', run P fuel (Act (FireTimer inv)) wc = Ok w'
                /\ count_event (EvComplete inv) (trace w') = 1%nat
                /\ advance_events s (trace w') = advance_events s (trace w)))
  /\ (forall inv c nd,
        inflight inv w c -> timed inv w c -> fired c = false ->
        nodes w !! inv_dom c = Some nd ->
        exists wd,
          (forall k, run P (S (S (S k))) (Act (FireTimer inv)) wc
                     = match inv_cb c with
                       | Some f => run P (S k) (Apply f) wd
                       | None => Ok wd
                       end)
          /\ nodes wd = <[inv_dom c := completed_node P inv nd]> (nodes w)
          /\ invs wd = <[inv := set_fired c]> (invs w)
          /\ timers wd = filter (λ t, t.2 ≠ inv) (timers w)
          /\ trace wd = trace w ++ EvComplete inv :: reset_events (inv_dom c) nd
          /\ seqs wd = seqs wc /\ funs wd = funs w
          /\ (forall f cb k,
                inv_cb c = Some f -> funs w !! f = Some (AnimateCb cb s) ->
                run P (S (S (S (S k)))) (Act (FireTimer inv)) wc
                = match cb with
                  | VFun g => run P (S k) (Apply g) wd
                  | _ => if falsy cb then Ok wd else Throw wd
                  end))
  /\ (forall inv nd,
        listeners (completed_node P inv nd) = filter (λ i, i ≠ inv) (listeners nd)
        /\ (inv ∉ listeners (completed_node P inv nd))
        /\ (forall z, small z -> attrs nd !! "data-naboo" = Some (pretty z) ->
              (attrs (completed_node P inv nd)
               = <["data-naboo" := pretty (z - 1)]> (attrs nd))
              /\ forall name,
                   style (completed_node P inv nd) !! name
                   = if bool_decide (z = 1 /\ name ∈ transition_properties P) then None
                     else style nd !! name)).
Proof.
  intros Ho Hi wc.
  assert (Hoc : seqs wc !! s = Some (cancel o)).
  { unfold wc. simpl. rewrite list_lookup_insert_eq; [done|]. by eapply lookup_lt_Some. }
  assert (Hfrozen : forall fuel script w',
            run_script P fuel script wc = Some w' ->
            (forall fuel', run P (S fuel') (Act (Next s)) w' = Ok w')
            /\ exists o', seqs w' !! s = Some o' /\ canceled o' = true
                 /\ _index o' = _index o /\ steps o' = steps o
                 /\ advance_events s (trace w') = advance_events s (trace w));
    [|split; [|split; [exact Hfrozen|split; [|split]]]].
  - intros fuel script w' H.
    apply (run_script_advanced P s) in H.
    destruct (H (cancel o)) as (o' & k & Ho' & Hst & Hi' & Hc & He); [done|done|].
    destruct Hc as [Hc ->]; [done|]. split.
    + intros fuel'. simpl. unfold next. by rewrite Ho', Hc.
    + exists o'. simpl in *. repeat split; try done; try lia.
      rewrite He. by rewrite app_nil_r.
  - intros fuel. simpl. unfold cancel_at. by rewrite Ho.
  - intros inv c Hf Ht.
    assert (Hf' : inflight inv wc c) by by eapply inflight_same; [| | | |exact Hf].
    split; [done|]. split; [done|]. split.
    + intros fuel before after w' H.
      apply run_script_app in H as (wm & Hb & Ha).
      eapply completed_after; [by eapply run_script_kept| |exact Ha].
      intros c1 c2 _ Hp. by apply Hp.
    + intros Hcb fuel Hfuel.
      destruct (fire_timer_returns P inv c wc fuel (if_closure _ _ _ Hf') (if_node _ _ _ Hf')
                  Hcb Hfuel) as [w' Hw'].
      assert (Hscript : run_script P fuel [FireTimer inv] wc = Some w').
      { simpl. by rewrite Hw'. }
      exists w'. split; [done|]. split.
      * apply (completed_after P fuel inv (FireTimer inv) [] c wc w');
          [by apply kept_refl| |done].
        intros c1 c2 _ Hp. by apply Hp.
      * by destruct (Hfrozen fuel [FireTimer inv] w' Hscript) as (_ & o' & _ & _ & _ & _ & He).
  - intros inv c nd Hf Ht Hfired Hnd.
    destruct (Ht Hfired) as [q Hq].
    destruct (timer_runs_body P inv c nd q wc Hq (if_closure _ _ _ Hf) Hfired Hnd)
      as (wd & Hrun & Hn & Hin & Htm & Hs & Hfu & _ & Htr).
    exists wd. split; [exact Hrun|]. repeat (split; [done|]).
    intros f cb k Hcb Hwrap. rewrite Hrun, Hcb.
    apply (canceled_wrapper P s (cancel o)); [by rewrite Hfu|by rewrite Hs|done|done].
  - intros inv nd. apply completed_node_spec.
Qed.

End CompletionClaims.


Section Order.
Context (P : Platform) (s : ref).







End Order.

Section OrderClaims.
Context (P : Platform).




End OrderClaims.

Section OrderWitnesses.



End OrderWitnesses.

Section ClaimWitnesses.

Lemma parallel_never_advances_witness :
  exists w',
    run browser 3 (Act (Start 0%nat None)) p_world = Throw w'
    /\ trace w' = [EvTrigger 0%nat "start"; EvNext 0%nat; EvStep 0%nat 0]
    /\ funs w' = [] /\ cells w' = [] /\ timers w' = [].
Proof.
  destruct (proj1 (proj2 parallel_never_advances) browser 0%nat [1; 2; 3]%nat []
              (register_factory (StepP [1; 2; 3]%nat)) None p_world 3%nat)
    as (w' & Hrun & Htr & _ & Hf & Hc & Ht & _);
    [reflexivity|reflexivity|reflexivity|reflexivity|reflexivity|lia|].
  exists w'. split; [exact Hrun|]. split; [exact Htr|]. split; [exact Hf|].
  split; [exact Hc|exact Ht].
Defined.

Lemma completion_runs_exactly_once_witness :
  let w1 := after browser 20 [timing_call] timing_world in
  let matching := decimal 15000000000000002 17 in
  double_eq (fallback_timeout (100 # 1000) (50 # 1000)) (decimal 17500000000000003 14) = true
  /\ (fallback_timeout (100 # 1000) (50 # 1000), 0%nat) ∈ timers w1
  /\ count_event (EvComplete 0%nat)
       (trace (after browser 20
                 [Dispatch 0%nat 0%nat matching; FireTimer 0%nat; Dispatch 0%nat 0%nat matching]
                 w1)) = 1%nat
  /\ (exists w2, run browser 4 (Act (FireTimer 0%nat)) w1 = Ok w2
        /\ count_event (EvComplete 0%nat) (trace w2) = 1%nat)
  /\ (exists w2, run browser 4 (Act (Dispatch 0%nat 0%nat matching)) w1 = Ok w2
        /\ count_event (EvComplete 0%nat) (trace w2) = 1%nat)
  /\ (exists nd1 nd2 w2,
        nodes w1 !! 0%nat = Some nd1 /\ listeners nd1 = [0%nat]
        /\ attrs nd1 !! "data-naboo" = Some "1"
        /\ style nd1 !! "transition-duration" = Some "0.1s"
        /\ run browser 3 (Act (FireTimer 0%nat)) w1 = Ok w2
        /\ nodes w2 !! 0%nat = Some nd2 /\ listeners nd2 = []
        /\ attrs nd2 !! "data-naboo" = Some "0"
        /\ style nd2 !! "transition-duration" = None
        /\ style nd2 !! "width" = Some "10px"
        /\ (fired <$> invs w2) = [true]
        /\ trace w2 = [EvComplete 0%nat; EvReset 0%nat]
        /\ run browser 3 (Act (Dispatch 0%nat 0%nat matching)) w1
           = Ok (set_timers (timers w1) w2)
        /\ run browser 3 (Act (Dispatch 0%nat 0%nat matching)) w2 = Ok w2)
  /\ run browser 3 (Act (Dispatch 0%nat 0%nat (decimal 15 2))) w1 = Ok w1.
Proof.
  intros w1 matching.
  destruct (completion_runs_exactly_once browser 0%nat [("width", VNum 10)] (Some 0%nat)
              timing_world w1 ltac:(vm_compute; reflexivity) (not_listening 0%nat (nodes timing_world) ltac:(vm_compute; reflexivity)) ltac:(vm_compute; reflexivity))
    as (c & Hc & _ & _ & Htimer & _ & _ & Hevent & _ & _ & _ & Hreturns).
  injection Hc as <-. split; [reflexivity|]. split; [exact Htimer|].
  split.
  { apply (Hevent 20%nat [] [FireTimer 0%nat; Dispatch 0%nat 0%nat matching] matching);
      vm_compute; reflexivity. }
  destruct (Hreturns ltac:(vm_compute; reflexivity) 4%nat ltac:(lia)) as [Hfire Hdispatch].
  split; [exact Hfire|]. split.
  { apply (Hdispatch plain_node matching); vm_compute; reflexivity. }
  split; [|vm_compute; reflexivity].
  do 3 eexists.
  split; [vm_compute; reflexivity|]. split; [vm_compute; reflexivity|].
  split; [vm_compute; reflexivity|]. split; [vm_compute; reflexivity|].
  split; [vm_compute; reflexivity|]. split; [vm_compute; reflexivity|].
  repeat (split; [vm_compute; reflexivity|]). vm_compute; reflexivity.
Defined.

Lemma cancel_stops_progress_witness :
  (let w := after browser 20 [Start 0%nat None] pending_world in
   exists o, seqs w !! 0%nat = Some o /\ -1 <= _index o
     /\ run browser 1 (Act (Cancel 0%nat)) w = Ok (set_seq 0%nat (cancel o) w)
     /\ step_calls 0%nat
          (trace (after browser 20 [Next 0%nat; Start 0%nat None]
                    (set_seq 0%nat (cancel o) w))) = [0%nat])
  /\ (let w := after browser 20 [Start 0%nat None] animating_world in
      exists o w',
        seqs w !! 0%nat = Some o
        /\ run browser 4 (Act (FireTimer 0%nat)) (set_seq 0%nat (cancel o) w) = Ok w'
        /\ count_event (EvComplete 0%nat) (trace w') = 1%nat
        /\ step_calls 0%nat (trace w') = [0%nat])
  /\ (let w := after browser 20 [Start 0%nat None] animating_cb_world in
      exists o nd nd' w',
        seqs w !! 0%nat = Some o /\ nodes w !! 0%nat = Some nd
        /\ listeners nd = [0%nat] /\ attrs nd !! "data-naboo" = Some "1"
        /\ style nd !! "transition-property" = Some "width"
        /\ run browser 5 (Act (FireTimer 0%nat)) (set_seq 0%nat (cancel o) w) = Ok w'
        /\ nodes w' !! 0%nat = Some nd'
        /\ listeners nd' = [] /\ attrs nd' !! "data-naboo" = Some "0"
        /\ style nd' !! "transition-property" = None
        /\ style nd' !! "width" = Some "10px"
        /\ trace w' = trace w ++ [EvComplete 0%nat; EvReset 0%nat; EvCall 0%nat]
        /\ (_index <$> seqs w' !! 0%nat) = Some 0).
Proof.
  split; [|split].
  - intros w. eexists. split; [vm_compute; reflexivity|]. split; [vm_compute; discriminate|].
    split; [|vm_compute; reflexivity].
    apply (cancel_stops_progress browser 0%nat _ w ltac:(vm_compute; reflexivity)).
    vm_compute. discriminate.
  - intros w.
    destruct (cancel_stops_progress browser 0%nat
                (set_index 0 (register_factory
                   (StepAnimate (Some 0%nat) (PropObject [("width", VNum 10)]) None)))
                w ltac:(vm_compute; reflexivity) ltac:(vm_compute; discriminate))
      as (_ & _ & Hflight & _).
    destruct (Hflight 0%nat
                {| inv_dom := 0%nat; inv_duration := 400 # 1000; inv_delay := 0 # 1000;
                   inv_cb := Some 0%nat; fired := false |}) as (_ & _ & _ & Hreturns).
    + split.
      * vm_compute; reflexivity.
      * eexists; vm_compute; reflexivity.
      * vm_compute; reflexivity.
      * intros d (nd & Hd & _). split; [|reflexivity].
        destruct d; [reflexivity|]. vm_compute in Hd. discriminate.
      * intros _ _. eexists. split; [vm_compute; reflexivity|].
        apply list_elem_of_In. vm_compute. left. reflexivity.
    + intros _. eexists. apply list_elem_of_In. vm_compute. left. reflexivity.
    + destruct (Hreturns ltac:(vm_compute; reflexivity) 4%nat ltac:(lia))
        as (w' & Hrun & Hcount & Hev).
      eexists. exists w'. split; [vm_compute; reflexivity|]. split; [exact Hrun|].
      split; [exact Hcount|].
      rewrite <- step_calls_advance_events, Hev. vm_compute. reflexivity.
  - intros w. do 4 eexists.
    split; [vm_compute; reflexivity|]. split; [vm_compute; reflexivity|].
    split; [vm_compute; reflexivity|]. split; [vm_compute; reflexivity|].
    split; [vm_compute; reflexivity|]. split; [vm_compute; reflexivity|].
    split; [vm_compute; reflexivity|]. split; [vm_compute; reflexivity|].
    repeat (split; [vm_compute; reflexivity|]). vm_compute; reflexivity.
Defined.

End ClaimWitnesses.

Section MoreWitnesses.

Lemma listeners_called_in_order_witness :
  let w := set_funs [UserFn []] p_world in
  let w1 := set_seq 1%nat (on "end" 0%nat Naboo_new) w in
  (exists w',
     run browser 2 (Trigger 1%nat "end") w1 = Ok w'
     /\ trace w' = [EvTrigger 1%nat "end"; EvCall 0%nat])
  /\ (exists w',
        run browser 2 (Trigger 1%nat "start") w1 = Ok w'
        /\ trace w' = [EvTrigger 1%nat "start"])
  /\ run browser 2 (Trigger 1%nat "toString") w1 = Throw (log (EvTrigger 1%nat "toString") w1).
Proof.
  intros w w1.
  destruct (listeners_called_in_order browser 1%nat Naboo_new "end" "start" 0%nat w 0)
    as (_ & H & Hother & _);
    [reflexivity|reflexivity|reflexivity|reflexivity|discriminate|reflexivity|].
  destruct (listeners_called_in_order browser 1%nat Naboo_new "end" "toString" 0%nat w 0)
    as (_ & _ & _ & Hthrows & _);
    [reflexivity|reflexivity|reflexivity|reflexivity|discriminate|reflexivity|].
  split; [exact H|]. split; [apply Hother; reflexivity|]. apply Hthrows. reflexivity.
Defined.

Lemma listener_exception_stops_witness :
  run browser 3 (Act (Start 0%nat None)) broken_listener_world
  = Throw (called [0%nat] (log (EvTrigger 0%nat "start") broken_listener_world)).
Proof.
  apply (listener_exception_stops browser 0%nat
           (on "start" 5%nat
              (on "start" 0%nat
                 (register_method (StepDone 0%nat) (register_factory (StepDone 0%nat)))))
           "start" [0%nat] [] 5%nat broken_listener_world 0);
    reflexivity.
Defined.

Lemma off_removes_first_registration_witness :
  _handlers (off (Some "end") (Some 1%nat)
               (on "end" 1%nat (on "end" 2%nat (on "end" 1%nat Naboo_new))))
  = <["end" := [2; 1]%nat]>
      (_handlers (on "end" 1%nat (on "end" 2%nat (on "end" 1%nat Naboo_new))))
  /\ listeners_of_name "end" (off (Some "end") (Some 1%nat) (on "end" 1%nat Naboo_new)) = []
  /\ off (Some "constructor") (Some 1%nat) Naboo_new = Naboo_new.
Proof.
  split; [|split].
  - apply (proj1 (off_removes_first_registration "end" 1%nat
                    (on "end" 1%nat (on "end" 2%nat (on "end" 1%nat Naboo_new)))
                    ltac:(discriminate)) [] [2; 1]%nat).
    + reflexivity.
    + apply not_elem_of_nil.
  - apply (proj1 (proj2 (off_removes_first_registration "end" 1%nat Naboo_new
                           ltac:(discriminate)))).
    + reflexivity.
    + apply not_elem_of_nil.
  - apply (proj2 (proj2 (off_removes_first_registration "constructor" 1%nat Naboo_new
                           ltac:(discriminate)))).
    reflexivity.
Defined.

Lemma start_after_cancel_witness :
  let o := register_method (StepDone 0%nat) (register_factory (StepDone 0%nat)) in
  exists w',
    run browser 3 (Act (Start 0%nat (Some 0%nat))) (set_seq 0%nat (cancel o) pending_world)
    = Ok w'
    /\ trace w' = [EvTrigger 0%nat "start"]
    /\ seqs w' !! 0%nat = Some (on "end" 0%nat (cancel o)).
Proof.
  intros o.
  destruct (start_after_cancel browser 0%nat (cancel o) (Some 0%nat)
              (set_seq 0%nat (cancel o) pending_world) 0)
    as (w' & Hrun & _ & Htrace & Hseq); [reflexivity|reflexivity|reflexivity|].
  exists w'. split; [exact Hrun|]. split; [exact Htrace|exact Hseq].
Defined.

Lemma start_at_end_witness :
  exists w',
    run browser 4 (Act (Start 1%nat None)) p_world = Ok w'
    /\ trace w' = [EvTrigger 1%nat "start"; EvNext 1%nat; EvTrigger 1%nat "end"]
    /\ seqs w' !! 1%nat = Some (set_index 0 Naboo_new).
Proof.
  apply (start_at_end browser 1%nat Naboo_new None p_world 0);
    [reflexivity|reflexivity|vm_compute; discriminate|reflexivity|reflexivity].
Defined.

Lemma dasherize_idempotent_witness :
  dasherize "marginTop" = "margin-top" /\ dasherize "margin-top" = "margin-top".
Proof.
  destruct (dasherize_idempotent "margin-top") as (_ & _ & Hfixed & _).
  split; [reflexivity|]. apply Hfixed. reflexivity.
Defined.

Lemma handleUnit_numbers_only_witness :
  handleUnit browser "width" (VNum 10) = VStr "10px"
  /\ handleUnit browser "width" (VStr "50%") = VStr "50%".
Proof.
  destruct (handleUnit_numbers_only browser "width" (VNum 10)) as (_ & Hunit & _).
  destruct (handleUnit_numbers_only browser "width" (VStr "50%")) as (Hother & _).
  split; [apply (Hunit 10 "px"); [reflexivity|unfold small; simpl; lia|reflexivity]|].
  apply Hother. discriminate.
Defined.

Lemma getPropName_first_supported_witness :
  getPropName old_webkit "transform" = Some "-webkit-transform"
  /\ exists before after,
       prop_candidates "transform" = before ++ "-webkit-transform" :: after
       /\ style_supported old_webkit "-webkit-transform" = true
       /\ forall c, c ∈ before -> style_supported old_webkit c = false.
Proof.
  split; [reflexivity|].
  apply (proj1 (getPropName_first_supported old_webkit "transform")). reflexivity.
Defined.

Lemma detection_cases_witness :
  prefix old_webkit = "-webkit-" /\ transitionEnd old_webkit = "webkitTransitionEnd".
Proof.
  destruct (detection_cases old_webkit) as (_ & _ & H). apply H; reflexivity.
Defined.

Lemma numeric_text_is_parsed_witness :
  parseInt (VStr " 300ms") = Some 300 /\ resolve_duration (VStr " 300ms") = 300.
Proof.
  destruct (numeric_text_is_parsed " " "ms" 300) as (H1 & _ & H3);
    [unfold small; simpl; lia|reflexivity|right; by eexists _, _|].
  split; [exact H1|exact H3].
Defined.

Lemma unmatched_event_ignored_witness :
  let w1 := after browser 20 [timing_call] timing_world in
  run browser 2 (Act (Dispatch 0%nat 0%nat (decimal 15 2))) w1 = Ok w1
  /\ run browser 2 (Act (Dispatch 0%nat 7%nat (decimal 15000000000000002 17))) w1 = Ok w1.
Proof.
  intros w1.
  assert (Hnd : exists nd, nodes w1 !! 0%nat = Some nd /\ listeners nd = [0%nat]).
  { eexists. split; vm_compute; reflexivity. }
  destruct Hnd as (nd & Hnd & Hl).
  split.
  - apply (unmatched_event_ignored browser 0%nat 0%nat (decimal 15 2) nd w1 0 Hnd).
    intros i c Hi Hc. right. rewrite Hl in Hi. apply list_elem_of_singleton in Hi. subst i.
    vm_compute in Hc. injection Hc as <-. vm_compute. reflexivity.
  - apply (unmatched_event_ignored browser 0%nat 7%nat (decimal 15000000000000002 17)
             nd w1 0 Hnd).
    intros i c _ _. left. discriminate.
Defined.




Lemma animate_without_target_stalls_witness :
  exists w1,
    run browser 1 (RunStep 0%nat (StepAnimate None (PropObject [("width", VNum 10)]) None))
      p_world = Ok w1
    /\ timers w1 = [] /\ invs w1 = []
    /\ run_script browser 1 [FireTimer 0%nat; Dispatch 0%nat 0%nat (decimal 4 1)] w1 = Some w1.
Proof.
  destruct (animate_without_target_stalls browser 0%nat None
              (PropObject [("width", VNum 10)]) None p_world 0)
    as (w1 & Hrun & _ & _ & Hinvs & Htimers & _ & _ & Hquiet); [by left|exact I|].
  exists w1. split; [exact Hrun|]. split; [exact Htimers|]. split; [exact Hinvs|].
  apply Hquiet; [reflexivity| |lia|reflexivity].
  intros d nd Hd. vm_compute in Hd. destruct d; discriminate.
Defined.

Lemma completed_transition_leaves_targets_witness :
  let w1 := after browser 20 [timing_call] timing_world in
  exists w2 nd2,
    run browser 4 (Act (FireTimer 0%nat)) w1 = Ok w2
    /\ nodes w2 !! 0%nat = Some nd2
    /\ attrs nd2 !! "data-naboo" = Some "0"
    /\ listeners nd2 = []
    /\ style nd2 !! "width" = Some "10px"
    /\ style nd2 !! "transition-duration" = None.
Proof.
  intros w1.
  destruct (completed_transition_leaves_targets browser 0%nat [("width", VNum 10)]
              (Some 0%nat) plain_node timing_world w1 4)
    as (cv & cp & w2 & nd2 & Hcollect & Hrun & Hnd2 & Hattrs & Hlisteners & Hstyle);
    [vm_compute; reflexivity|reflexivity|apply not_elem_of_nil|vm_compute; reflexivity|lia|].
  exists w2, nd2. split; [exact Hrun|]. split; [exact Hnd2|].
  split; [rewrite Hattrs; apply lookup_insert_eq|]. split; [exact Hlisteners|].
  vm_compute in Hcollect. injection Hcollect as <- <-.
  split; rewrite Hstyle; vm_compute; reflexivity.
Defined.

Lemma negative_duration_applies_at_once_witness :
  exists w1 c nd1,
    transition browser (Some 0%nat) (PropObject [("width", VNum 10)]) (Some 0%nat)
      negative_world = Ok w1
    /\ invs w1 !! 0%nat = Some c /\ inv_duration c = 0 # 1000
    /\ nodes w1 !! 0%nat = Some nd1 /\ listeners nd1 = []
    /\ style nd1 !! "width" = Some "10px" /\ style nd1 !! "transition-duration" = None.
Proof.
  eexists.
  destruct (negative_duration_applies_at_once browser 0%nat [("width", VNum 10)] (Some 0%nat)
              plain_node negative_world _ (-5) ltac:(vm_compute; reflexivity)
              ltac:(reflexivity) ltac:(reflexivity) ltac:(lia))
    as (cv & cp & c & nd1 & Hcollect & Hc & Hduration & Hnd1 & Hlisteners & Hstyle & _).
  exists c, nd1. split; [reflexivity|]. split; [exact Hc|]. split; [exact Hduration|].
  split; [exact Hnd1|]. split; [exact Hlisteners|].
  vm_compute in Hcollect. injection Hcollect as <- <-. rewrite Hstyle.
  split; vm_compute; reflexivity.
Defined.

Lemma completion_lowers_counter_witness :
  let w1 := after browser 20 [timing_call] timing_world in
  exists w2 nd2,
    run browser 4 (Act (FireTimer 0%nat)) w1 = Ok w2
    /\ nodes w2 !! 0%nat = Some nd2
    /\ attrs nd2 !! "data-naboo" = Some "0"
    /\ count_event (EvReset 0%nat) (trace w2) = 1%nat.
Proof.
  intros w1.
  assert (Hnd : exists nd, nodes w1 !! 0%nat = Some nd /\ attrs nd !! "data-naboo" = Some "1").
  { eexists. split; vm_compute; reflexivity. }
  destruct Hnd as (nd & Hnd & Hattr).
  destruct (completion_lowers_counter browser 0%nat
              {| inv_dom := 0%nat; inv_duration := 100 # 1000; inv_delay := 50 # 1000;
                 inv_cb := None; fired := false |}
              nd (fallback_timeout (100 # 1000) (50 # 1000)) w1 4 1)
    as (w2 & nd2 & Hrun & Hnd2 & Hattrs & Hone & _);
    [apply list_elem_of_In; vm_compute; left; reflexivity|vm_compute; reflexivity|reflexivity
    |exact Hnd|reflexivity|lia|exact Hattr|unfold small; simpl; lia|].
  exists w2, nd2. split; [exact Hrun|]. split; [exact Hnd2|].
  split; [rewrite Hattrs; apply lookup_insert_eq|].
  destruct (Hone eq_refl) as [_ Hreset]. exact Hreset.
Defined.

Lemma transition_appends_declarations_witness :
  exists nd2,
    nodes (after browser 10 overlap_script overlap_world) !! 0%nat = Some nd2
    /\ style nd2 !! "transition-property" = Some "width, height"
    /\ style nd2 !! "transition-timing-function" = Some "ease, ease".
Proof.
  assert (Hnd : exists nd, nodes (after browser 10 [Transition (Some 0%nat)
                              (PropObject [("width", VNum 10)]) None] overlap_world) !! 0%nat
                           = Some nd
                           /\ style_get "transition-property" nd = "width"
                           /\ style_get "transition-timing-function" nd = "ease").
  { eexists. split; [|split]; vm_compute; reflexivity. }
  destruct Hnd as (nd & Hnd & Hp & Ht).
  destruct (transition_appends_declarations browser 0%nat [("height", VNum 20)] None nd
              (after browser 10 [Transition (Some 0%nat) (PropObject [("width", VNum 10)]) None]
                 overlap_world)
              (after browser 10 overlap_script overlap_world))
    as (nd2 & Hnd2 & Hproperty & Htiming);
    [vm_compute; reflexivity|exact Hnd|vm_compute; reflexivity| |discriminate|].
  - intros name Hin. apply list_elem_of_singleton in Hin. subst name.
    intros H. vm_compute in H.
    repeat (apply elem_of_cons in H as [H|H]; [discriminate|]). by apply elem_of_nil in H.
  - exists nd2. split; [exact Hnd2|].
    change (transitionProperty browser) with "transition-property" in Hproperty.
    change (transitionTiming browser) with "transition-timing-function" in Htiming.
    rewrite Hp in Hproperty. rewrite Ht in Htiming. split; [exact Hproperty|exact Htiming].
Defined.

End MoreWitnesses.
